(** * scripts/extract_strava_examples.py: a shallow embedding

    The script fetches one documentation page, selects its code blocks,
    keeps the ones whose text is JSON, and writes each one, pretty-printed,
    to a file named after the nearest preceding heading.

    Python values are modelled as the interpreter has them: a [str] is a
    sequence of Unicode code points, a parsed JSON document is a tree of
    None / bool / int / float / str / list / dict, and the effects of
    [extract] and [main] (files written, lines printed, exceptions raised)
    are threaded through a small state-and-exception monad. *)

From Stdlib Require Import String Ascii Decimal DecimalFacts DecimalPos DecimalN DecimalNat SpecFloat ZifyBool.
From stdpp Require Import base numbers option list sorting gmap.
From stdpp Require Import ssreflect.

#[local] Set Warnings "-rewrite-rw,-notation-incompatible-prefix,-register-all".

Local Open Scope N_scope.

(** ** Python [str] *)

(** A [str] is a sequence of code points; [chr] accepts [0 .. 0x10FFFF]. *)
Abbreviation pystr := (list N).

Definition is_codepoint (c : N) : bool := c <? 0x110000.

(** ASCII literals of the source, as code point sequences. *)
Definition lit (s : string) : pystr := map N_of_ascii (list_ascii_of_string s).
Arguments lit : simpl never.

(** [str.isspace] for one character (CPython's [Py_UNICODE_ISSPACE]):
    the characters [str.strip()] removes. *)
Definition isspace (c : N) : bool :=
  ((0x09 <=? c) && (c <=? 0x0D)) || ((0x1C <=? c) && (c <=? 0x20))
  || (c =? 0x85) || (c =? 0xA0) || (c =? 0x1680)
  || ((0x2000 <=? c) && (c <=? 0x200A))
  || (c =? 0x2028) || (c =? 0x2029) || (c =? 0x202F) || (c =? 0x205F)
  || (c =? 0x3000).

Fixpoint lstrip_by (p : N → bool) (s : pystr) : pystr :=
  match s with
  | [] => []
  | c :: r => if p c then lstrip_by p r else s
  end.

Definition rstrip_by (p : N → bool) (s : pystr) : pystr :=
  reverse (lstrip_by p (reverse s)).

Definition strip_by (p : N → bool) (s : pystr) : pystr :=
  rstrip_by p (lstrip_by p s).

(** [s.strip()] *)
Definition py_strip (s : pystr) : pystr := strip_by isspace s.

(** [s.strip(chars)] *)
Definition py_strip_chars (chars : pystr) (s : pystr) : pystr :=
  strip_by (λ c, bool_decide (c ∈ chars)) s.

(** [s.startswith(prefix)] *)
Fixpoint startswith (s prefix : pystr) {struct prefix} : bool :=
  match prefix, s with
  | [], _ => true
  | p :: prefix', c :: s' => (c =? p) && startswith s' prefix'
  | _ :: _, [] => false
  end.

Definition is_ascii (c : N) : bool := c <? 0x80.

Definition ascii_lower (c : N) : N :=
  if (0x41 <=? c) && (c <=? 0x5A) then c + 0x20 else c.

(** [str(n)] / [f"{n}"] for a non-negative int. *)
Definition digit_char (d : N) : N := 0x30 + d.

Fixpoint uint_chars (d : Decimal.uint) : pystr :=
  match d with
  | Nil => []
  | D0 d => 0x30 :: uint_chars d
  | D1 d => 0x31 :: uint_chars d
  | D2 d => 0x32 :: uint_chars d
  | D3 d => 0x33 :: uint_chars d
  | D4 d => 0x34 :: uint_chars d
  | D5 d => 0x35 :: uint_chars d
  | D6 d => 0x36 :: uint_chars d
  | D7 d => 0x37 :: uint_chars d
  | D8 d => 0x38 :: uint_chars d
  | D9 d => 0x39 :: uint_chars d
  end.

Definition str_of_nat (n : nat) : pystr := uint_chars (Nat.to_uint n).

(** ** [clean_name] *)

(** The character class [a-z0-9\-] of the pattern. *)
Definition slug_char (c : N) : bool :=
  ((0x61 <=? c) && (c <=? 0x7A)) || ((0x30 <=? c) && (c <=? 0x39)) || (c =? 0x2D).

(** [re.sub(r'[^a-z0-9\-]+', '-', s)]: scanning left to right, each
    maximal run of characters outside the class becomes one hyphen.
    [in_run] tells that the previous character was part of such a run. *)
Fixpoint re_sub_run (in_run : bool) (s : pystr) : pystr :=
  match s with
  | [] => []
  | c :: r =>
      if slug_char c then c :: re_sub_run false r
      else if in_run then re_sub_run true r
      else 0x2D :: re_sub_run true r
  end.

Definition re_sub_nonslug (s : pystr) : pystr := re_sub_run false s.

(** The names the script may give a file: letters [a-z], digits and
    hyphens only, with no hyphen at either end. *)
Definition is_slug (s : pystr) : Prop :=
  Forall (λ c, slug_char c = true) s ∧ head s ≠ Some 0x2D ∧ last s ≠ Some 0x2D.

(** The normalization in the words of the specification, step by step.

    [ascii_lowered s l]: [l] is the ASCII text [s] lower-cased, that is
    letter for letter, with [A-Z] turned into [a-z]. *)
Definition ascii_lowered (s l : pystr) : Prop :=
  length l = length s
  ∧ ∀ i c, s !! i = Some c →
           l !! i = Some (if (0x41 <=? c) && (c <=? 0x5A) then c + 0x20 else c).

(** [runs_replaced s r]: [r] is [s] with every maximal run of characters
    outside [a-z0-9-] replaced by a single hyphen.  A run is not empty,
    holds such characters only and is followed by a character of the class
    or by the end of the text. *)
Inductive runs_replaced : pystr → pystr → Prop :=
  | runs_replaced_nil : runs_replaced [] []
  | runs_replaced_keep c s r :
      slug_char c = true → runs_replaced s r → runs_replaced (c :: s) (c :: r)
  | runs_replaced_run run s r :
      run ≠ [] → Forall (λ c, slug_char c = false) run →
      (∀ c, head s = Some c → slug_char c = true) →
      runs_replaced s r → runs_replaced (run ++ s) (0x2D :: r).

(** [hyphens_stripped s name]: [name] is [s] without the hyphens at its
    two ends. *)
Definition hyphens_stripped (s name : pystr) : Prop :=
  (∃ a b, s = replicate a 0x2D ++ name ++ replicate b 0x2D)
  ∧ head name ≠ Some 0x2D ∧ last name ≠ Some 0x2D.

(** ** The [json] module *)

(** The values [json.loads] builds and [json.dump] accepts.  A [dict] keeps
    its keys in insertion order, each key once. *)
Unset Elimination Schemes.
Inductive pyobj :=
  | PyNone
  | PyBool (b : bool)
  | PyInt (z : Z)
  | PyFloat (f : spec_float)
  | PyStr (s : pystr)
  | PyList (items : list pyobj)
  | PyDict (items : list (pystr * pyobj)).
Set Elimination Schemes.

(** [d[k] = v]: an existing key keeps its position, a new key goes last. *)
Fixpoint dict_set (d : list (pystr * pyobj)) (k : pystr) (v : pyobj)
  : list (pystr * pyobj) :=
  match d with
  | [] => [(k, v)]
  | (k', v') :: d' =>
      if decide (k' = k) then (k', v) :: d' else (k', v') :: dict_set d' k v
  end.

(** [dict(pairs)] *)
Definition dict_of_pairs (pairs : list (pystr * pyobj)) : list (pystr * pyobj) :=
  foldl (λ d kv, dict_set d kv.1 kv.2) [] pairs.

(** *** Decoding ([json.decoder], [json.scanner]) *)

(** What a scanner answers: a value and the text after it, or the
    exception it raises: [json.JSONDecodeError] for text that is not JSON,
    [RecursionError] for arrays and objects nested deeper than the
    interpreter allows, [ValueError] for an integer literal with more
    digits than [int] converts.  [OutOfFuel] belongs to the model only. *)
Inductive scan_result (A : Type) :=
  | Scanned (a : A) (rest : pystr)
  | DecodeError
  | TooDeep
  | TooManyDigits
  | OutOfFuel.
Arguments Scanned {A} a rest.
Arguments DecodeError {A}.
Arguments TooDeep {A}.
Arguments TooManyDigits {A}.
Arguments OutOfFuel {A}.

(** [WHITESPACE = re.compile(r'[ \t\n\r]*')] *)
Definition json_ws (c : N) : bool :=
  (c =? 0x20) || (c =? 0x09) || (c =? 0x0A) || (c =? 0x0D).

Definition skip_ws (s : pystr) : pystr := lstrip_by json_ws s.

Definition is_digit (c : N) : bool := (0x30 <=? c) && (c <=? 0x39).

Definition hexval (c : N) : option N :=
  if is_digit c then Some (c - 0x30)
  else if (0x61 <=? c) && (c <=? 0x66) then Some (c - 0x57)
  else if (0x41 <=? c) && (c <=? 0x46) then Some (c - 0x37)
  else None.

(** The four hex digits of a [\uXXXX] escape. *)
Definition decode_uXXXX (a b c d : N) : option N :=
  match hexval a, hexval b, hexval c, hexval d with
  | Some a, Some b, Some c, Some d => Some (((a * 16 + b) * 16 + c) * 16 + d)
  | _, _, _, _ => None
  end.

(** [BACKSLASH]: the one-character escapes. *)
Definition BACKSLASH (esc : N) : option N :=
  if esc =? 0x22 then Some 0x22            (* quotation mark *)
  else if esc =? 0x5C then Some 0x5C       (* backslash *)
  else if esc =? 0x2F then Some 0x2F       (* solidus *)
  else if esc =? 0x62 then Some 0x08       (* b: backspace *)
  else if esc =? 0x66 then Some 0x0C       (* f: form feed *)
  else if esc =? 0x6E then Some 0x0A       (* n: line feed *)
  else if esc =? 0x72 then Some 0x0D       (* r: carriage return *)
  else if esc =? 0x74 then Some 0x09       (* t: tab *)
  else None.

Definition is_high_surrogate (c : N) : bool := (0xD800 <=? c) && (c <=? 0xDBFF).
Definition is_low_surrogate (c : N) : bool := (0xDC00 <=? c) && (c <=? 0xDFFF).

Definition join_surrogates (hi lo : N) : N :=
  0x10000 + N.lor (N.shiftl (hi - 0xD800) 10) (lo - 0xDC00).

(** [scanstring(s, end, strict=True)], entered after the opening quote:
    the decoded string and the text after the closing quote.  A [\uXXXX]
    escape of a high surrogate directly followed by a [\uXXXX] escape of a
    low surrogate is one character; raw characters are copied, control
    characters are refused. *)
Fixpoint scanstring (s : pystr) : option (pystr * pystr) :=
  let emit (c : N) (r : option (pystr * pystr)) :=
    match r with Some (str, rest) => Some (c :: str, rest) | None => None end in
  match s with
  | [] => None
  | c :: r =>
      if c =? 0x22 then Some ([], r)
      else if c =? 0x5C then
        match r with
        | [] => None
        | esc :: r1 =>
            if esc =? 0x75 then
              match r1 with
              | h1 :: h2 :: h3 :: h4 :: r2 =>
                  match decode_uXXXX h1 h2 h3 h4 with
                  | None => None
                  | Some uni =>
                      if is_high_surrogate uni then
                        match r2 with
                        | b :: u :: l1 :: l2 :: l3 :: l4 :: r3 =>
                            if (b =? 0x5C) && (u =? 0x75) then
                              match decode_uXXXX l1 l2 l3 l4 with
                              | None => None
                              | Some uni2 =>
                                  if is_low_surrogate uni2
                                  then emit (join_surrogates uni uni2) (scanstring r3)
                                  else emit uni (scanstring r2)
                              end
                            else emit uni (scanstring r2)
                        | _ => emit uni (scanstring r2)
                        end
                      else emit uni (scanstring r2)
                  end
              | _ => None
              end
            else
              match BACKSLASH esc with
              | Some ch => emit ch (scanstring r1)
              | None => None
              end
        end
      else if c <? 0x20 then None
      else emit c (scanstring r)
  end.

(** [NUMBER_RE]: an optional minus sign and either [0] or a digit [1-9]
    followed by digits (group [integer]); optionally a point and one or
    more digits (group [frac]); optionally [e] or [E], an optional sign and
    one or more digits (group [exp]).  Digits are [0-9]. *)
Fixpoint span_digits (s : pystr) : pystr * pystr :=
  match s with
  | c :: r =>
      if is_digit c then let '(ds, rest) := span_digits r in (c :: ds, rest)
      else ([], s)
  | [] => ([], [])
  end.

Definition match_integer (s : pystr) : option (pystr * pystr) :=
  let '(sign, s1) :=
    match s with
    | c :: r => if c =? 0x2D then ([c], r) else ([], s)
    | [] => ([], s)
    end in
  match s1 with
  | c :: r =>
      if c =? 0x30 then Some (sign ++ [c], r)
      else if is_digit c then
        let '(ds, rest) := span_digits r in Some (sign ++ c :: ds, rest)
      else None
  | [] => None
  end.

Definition match_frac (s : pystr) : pystr * pystr :=
  match s with
  | c :: r =>
      if c =? 0x2E then
        match span_digits r with
        | ([], _) => ([], s)
        | (ds, rest) => (c :: ds, rest)
        end
      else ([], s)
  | [] => ([], s)
  end.

Definition match_exp (s : pystr) : pystr * pystr :=
  match s with
  | c :: r =>
      if (c =? 0x65) || (c =? 0x45) then
        let '(sign, r1) :=
          match r with
          | g :: r' => if (g =? 0x2D) || (g =? 0x2B) then ([g], r') else ([], r)
          | [] => ([], r)
          end in
        match span_digits r1 with
        | ([], _) => ([], s)
        | (ds, rest) => (c :: sign ++ ds, rest)
        end
      else ([], s)
  | [] => ([], s)
  end.

(** [match_number(string, idx)]: the groups [integer], [frac], [exp] and
    the text after the match. *)
Definition match_number (s : pystr) : option (pystr * pystr * pystr * pystr) :=
  match match_integer s with
  | None => None
  | Some (integer, r1) =>
      let '(frac, r2) := match_frac r1 in
      let '(exp, r3) := match_exp r2 in
      Some (integer, frac, exp, r3)
  end.

(** [int(integer)] on a match of the first group. *)
Fixpoint chars_uint (s : pystr) : Decimal.uint :=
  match s with
  | [] => Nil
  | c :: r =>
      let d := chars_uint r in
      match c - 0x30 with
      | 0 => D0 d | 1 => D1 d | 2 => D2 d | 3 => D3 d | 4 => D4 d
      | 5 => D5 d | 6 => D6 d | 7 => D7 d | 8 => D8 d | _ => D9 d
      end
  end.

Definition parse_int (integer : pystr) : Z :=
  match integer with
  | c :: ds =>
      if c =? 0x2D then (- Z.of_N (N.of_uint (chars_uint ds)))%Z
      else Z.of_N (N.of_uint (chars_uint integer))
  | [] => 0%Z
  end.

(** The number of digits of a match of the first group. *)
Definition int_digits (integer : pystr) : nat :=
  match integer with
  | c :: ds => if c =? 0x2D then length ds else length integer
  | [] => 0%nat
  end.

(** *** Encoding ([json.encoder], with [indent=2], [ensure_ascii=True]) *)

Definition hexdigit (d : N) : N := if d <? 10 then 0x30 + d else 0x57 + d.

(** ['{0:04x}'.format(n)]; the encoder calls it with [n < 0x10000] only. *)
Definition format_04x (n : N) : pystr :=
  [hexdigit (n / 0x1000); hexdigit (n / 0x100 mod 16);
   hexdigit (n / 0x10 mod 16); hexdigit (n mod 16)].

Definition u_escape (n : N) : pystr := 0x5C :: 0x75 :: format_04x n.

(** The [replace] callback of [py_encode_basestring_ascii]: [ESCAPE_DCT]
    for the quote, the backslash and the control characters, the character
    itself from space to tilde, [\uXXXX] for the rest of the basic plane
    and a surrogate pair of escapes above it. *)
Definition escape_char (c : N) : pystr :=
  if c =? 0x5C then [0x5C; 0x5C]
  else if c =? 0x22 then [0x5C; 0x22]
  else if c =? 0x08 then [0x5C; 0x62]
  else if c =? 0x0C then [0x5C; 0x66]
  else if c =? 0x0A then [0x5C; 0x6E]
  else if c =? 0x0D then [0x5C; 0x72]
  else if c =? 0x09 then [0x5C; 0x74]
  else if (0x20 <=? c) && (c <=? 0x7E) then [c]
  else if c <? 0x10000 then u_escape c
  else
    let n := c - 0x10000 in
    let s1 := N.lor 0xD800 (N.land (N.shiftr n 10) 0x3FF) in
    let s2 := N.lor 0xDC00 (N.land n 0x3FF) in
    u_escape s1 ++ u_escape s2.

Definition encode_basestring_ascii (s : pystr) : pystr :=
  0x22 :: flat_map escape_char s ++ [0x22].

(** [int.__repr__] *)
Definition int_repr (z : Z) : pystr :=
  if (z <? 0)%Z then 0x2D :: uint_chars (N.to_uint (Z.abs_N z))
  else uint_chars (N.to_uint (Z.to_N z)).

(** [sep.join(chunks)] *)
Definition join (sep : pystr) (chunks : list pystr) : pystr :=
  match chunks with
  | [] => []
  | c :: cs => c ++ flat_map (λ x, sep ++ x) cs
  end.

(** ['\n' + _indent * _current_indent_level], with [_indent = '  '] *)
Definition newline_indent (level : nat) : pystr :=
  0x0A :: replicate (2 * level) 0x20.

(** *** Notions used to state the round trip *)

(** A high surrogate directly followed by a low surrogate: the encoder
    writes the two as two [\uXXXX] escapes, which the decoder reads as one
    character. *)
Fixpoint has_surrogate_pair (s : pystr) : bool :=
  match s with
  | c :: r =>
      match r with
      | c' :: _ => (is_high_surrogate c && is_low_surrogate c') || has_surrogate_pair r
      | [] => false
      end
  | [] => false
  end.

(** Every string of a value, keys included, satisfies [P]. *)
Fixpoint all_strings (P : pystr → bool) (o : pyobj) : bool :=
  match o with
  | PyStr s => P s
  | PyList items => forallb (all_strings P) items
  | PyDict items => forallb (λ kv, P kv.1 && all_strings P kv.2) items
  | _ => true
  end.

Definition no_surrogate_pairs (o : pyobj) : bool :=
  all_strings (λ s, negb (has_surrogate_pair s)) o.

(** The text after an encoded value: nothing, or a comma or a newline. *)
Definition delimited (rest : pystr) : Prop :=
  match rest with
  | [] => True
  | c :: _ => c = 0x2C ∨ c = 0x0A
  end.

(** The text does not go on with a digit. *)
Definition not_digit_next (rest : pystr) : Prop :=
  ∀ c, head rest = Some c → is_digit c = false.

(** The first character of an encoded value. *)
Definition value_start (c : N) : bool :=
  (c =? 0x22) || (c =? 0x5B) || (c =? 0x7B) || (c =? 0x2D) || is_digit c
  || (c =? 0x6E) || (c =? 0x74) || (c =? 0x66) || (c =? 0x4E) || (c =? 0x49).

(** Fuel that suffices to scan the encoding of a value. *)
Fixpoint fuel_needed (o : pyobj) : nat :=
  match o with
  | PyList items => S (foldr (λ x acc, S (fuel_needed x + acc)) 0%nat items)
  | PyDict items => S (foldr (λ kv acc, S (fuel_needed kv.2 + acc)) 0%nat items)
  | _ => 1
  end.

(** ** The document ([bs4]) *)

(** A parsed page: tags with their [class] list and children, the strings
    [get_text] collects ([NavigableString]) and the ones it leaves out
    ([Comment], standing for every such kind). *)
Unset Elimination Schemes.
Inductive PageElement :=
  | NavigableString (s : pystr)
  | Comment (s : pystr)
  | Tag (name : pystr) (classes : list pystr) (contents : list PageElement).
Set Elimination Schemes.

(** An element followed by its descendants, in document order. *)
Fixpoint self_and_descendants (e : PageElement) : list PageElement :=
  e :: match e with
       | Tag _ _ contents => flat_map self_and_descendants contents
       | _ => []
       end.

(** [soup.descendants]: every element of the page in document order.  An
    element is identified by its position in this sequence. *)
Definition descendants (soup : list PageElement) : list PageElement :=
  flat_map self_and_descendants soup.

(** [element.get_text()] *)
Fixpoint get_text (e : PageElement) : pystr :=
  match e with
  | NavigableString s => s
  | Comment _ => []
  | Tag _ _ contents => flat_map get_text contents
  end.

(** The selector ["div.hljs, pre, code"]. *)
Definition matches_selectors (e : PageElement) : bool :=
  match e with
  | Tag name classes _ =>
      (bool_decide (name = lit "div") && bool_decide (lit "hljs" ∈ classes))
      || bool_decide (name = lit "pre")
      || bool_decide (name = lit "code")
  | _ => false
  end.

(** Document order on positioned elements. *)
Definition by_position {A} : relation (nat * A) := λ a b, (a.1 < b.1)%nat.

(** [soup.select(...)]: the matching elements in document order, each with
    its position. *)
Definition select (soup : list PageElement) : list (nat * PageElement) :=
  filter (λ b, matches_selectors b.2 = true) (imap pair (descendants soup)).

Definition is_heading (e : PageElement) : bool :=
  match e with
  | Tag name _ _ => bool_decide (name = lit "h2") || bool_decide (name = lit "h3")
  | _ => false
  end.

(** [block.find_previous(["h2", "h3"])]: the nearest [h2] or [h3] before
    the block in document order, [None] when there is none. *)
Definition find_previous (soup : list PageElement) (pos : nat) : option PageElement :=
  List.find is_heading (reverse (take pos (descendants soup))).

(** ** Effects *)

(** What a run leaves behind: the files written, oldest first, each with
    its path and content, and the lines printed. *)
Record world := World {
  writes : list (pystr * pystr);
  stdout : list pystr
}.

(** The directory after the writes: a later write to a path replaces the
    earlier content. *)
Definition disk (init : gmap pystr pystr) (w : world) : gmap pystr pystr :=
  foldl (λ m pc, <[pc.1 := pc.2]> m) init (writes w).

Inductive exception :=
  | JSONDecodeError
  | RecursionError
  | ValueError
  | HTTPError (status_code : N)
  | RequestException.

Definition io (A : Type) : Type := world → (A + exception) * world.

Definition raise {A} (e : exception) : io A := λ w, (inr e, w).

#[export] Instance io_ret : MRet io := λ A a w, (inl a, w).
#[export] Instance io_bind : MBind io := λ A B k m w,
  match m w with
  | (inl a, w') => k a w'
  | (inr e, w') => (inr e, w')
  end.

(** [with open(fname, "w", encoding="utf-8") as f: json.dump(parsed, f, indent=2)]
    and [print(line)], as they go when the file is written and the line
    is printed.  The steps can fail: [open] and the writes with [OSError]
    where the file system refuses the file, [json.dump] with
    [RecursionError] on a value nested deeper than its own recursion
    allows, [print] with [UnicodeEncodeError] on a terminal that cannot
    show the line.  [extract] catches none of these, and such runs, which
    end there, are not among the runs described here. *)
Definition write_file (fname content : pystr) : io unit :=
  λ w, (inl (), World (writes w ++ [(fname, content)]) (stdout w)).

Definition print (line : pystr) : io unit :=
  λ w, (inl (), World (writes w) (stdout w ++ [line])).

(** [try: r = body  except json.JSONDecodeError: r = None]; any other
    exception propagates. *)
Definition except_JSONDecodeError {A} (body : io A) : io (option A) :=
  λ w, match body w with
       | (inl a, w') => (inl (Some a), w')
       | (inr JSONDecodeError, w') => (inl None, w')
       | (inr e, w') => (inr e, w')
       end.

Definition empty_world : world := World [] [].

(** ** The script *)

Definition BASE_URL : pystr := lit "https://developers.strava.com/docs/reference/".
Definition OUT_DIR : pystr := lit "src/test/resources/strava".

(** [os.path.join(a, b)] (POSIX) *)
Definition os_path_join (a b : pystr) : pystr :=
  if startswith b (lit "/") then b
  else if bool_decide (a = []) || bool_decide (last a = Some 0x2F) then a ++ b
  else a ++ lit "/" ++ b.

(** What the network answers to [requests.get(BASE_URL)]: an exception, or
    a response with its status code and body. *)
Inductive reply :=
  | ConnectionFailed
  | Response (status_code : N) (text : pystr).

(** ** Sample data *)

(** Instances of the parameters below, for the examples: a case mapping
    that leaves non-ASCII text alone, float conversions that know one float
    only, and a parser that returns a given page. *)
Definition sample_unicode_lower (s : pystr) : pystr := s.
Definition sample_float_of_literal (_ : pystr) : spec_float := S754_zero false.
Definition sample_float_repr (_ : spec_float) : pystr := lit "0.0".
Definition sample_BeautifulSoup (page : list PageElement) (_ : pystr)
  : list PageElement := page.
Definition sample_recursion_limit : positive := 1000.
Definition sample_int_max_str_digits : nat := 4300.

(** A string in double quotes. *)
Definition dq (s : pystr) : pystr := [0x22] ++ s ++ [0x22].

(** The text and the file of the "Get Activity" scenario. *)
Definition get_activity_text : pystr :=
  lit "{" ++ dq (lit "id") ++ lit ": 1, " ++ dq (lit "name") ++ lit ": "
  ++ dq (lit "ride") ++ lit "}".

Definition get_activity_content : pystr :=
  lit "{" ++ [0x0A] ++ lit "  " ++ dq (lit "id") ++ lit ": 1," ++ [0x0A]
  ++ lit "  " ++ dq (lit "name") ++ lit ": " ++ dq (lit "ride") ++ [0x0A]
  ++ lit "}".

Definition pre (text : pystr) : PageElement :=
  Tag (lit "pre") [] [NavigableString text].

Definition h2 (text : pystr) : PageElement :=
  Tag (lit "h2") [] [NavigableString text].

(** Three blocks before any heading, the second one not JSON. *)
Definition page_without_headings : list PageElement :=
  [pre (lit "[1,2,3]"); pre (lit "not json at all");
   pre (lit "{" ++ dq (lit "a") ++ lit ":1}")].

(** The "Get Activity" scenario, followed by a block that starts like JSON
    and is not, and by a heading without letters or digits. *)
Definition page_with_headings : list PageElement :=
  [h2 (lit "Get Activity"); pre get_activity_text; pre (lit "{oops");
   h2 (lit "???"); pre (lit "[]")].

(** A [code] element nested in a [pre] element. *)
Definition pre_code (text : pystr) : PageElement :=
  Tag (lit "pre") [] [Tag (lit "code") [] [NavigableString text]].

Definition page_pre_code_under_heading : list PageElement :=
  [h2 (lit "Get Activity"); pre_code get_activity_text].

Definition page_pre_code_without_heading : list PageElement :=
  [pre_code (lit "[1]")].

(** A block whose text is a JSON number: it parses, and starts with
    neither a brace nor a bracket. *)
Definition page_number : list PageElement := [pre (lit "42")].

(** An array of one string, whose two characters are the surrogates D83D
    and DE00 themselves, as a [str] can hold them. *)
Definition surrogates_text : pystr := lit "[" ++ dq [0xD83D; 0xDE00] ++ lit "]".

Definition page_surrogates : list PageElement := [pre surrogates_text].

(** Twelve hundred opening brackets, and a page with that block before an
    array. *)
Definition brackets_text : pystr := replicate 1200 0x5B.

Definition page_brackets : list PageElement :=
  [pre brackets_text; pre (lit "[1]")].

(** What [json.dump] writes for that array: the two surrogates escaped one
    after the other. *)
Definition surrogates_content : pystr :=
  lit "[" ++ [0x0A] ++ lit "  " ++ dq ([0x5C] ++ lit "ud83d" ++ [0x5C] ++ lit "ude00")
  ++ [0x0A] ++ lit "]".

(** ** The parts that depend on the interpreter and on the parser *)

Section Script.

(** [str.lower] follows the Unicode case mapping tables, which are not part
    of the script.  On ASCII text it maps [A-Z] to [a-z]; on any other
    text its result is left to [unicode_lower]. *)
Variable unicode_lower : pystr → pystr.

Definition str_lower (s : pystr) : pystr :=
  if forallb is_ascii s then map ascii_lower s else unicode_lower s.

(** [def clean_name(text):
       return re.sub(r'[^a-z0-9\-]+', '-', text.strip().lower()).strip('-')] *)
Definition clean_name (text : pystr) : pystr :=
  py_strip_chars (lit "-") (re_sub_nonslug (str_lower (py_strip text))).

(** The normalization as the specification words it: lower-case the
    text, replace every maximal run of characters outside [a-z0-9-] with a
    single hyphen, then strip leading and trailing hyphens. *)
Definition normalized_as_specified (text name : pystr) : Prop :=
  ∃ r, runs_replaced (str_lower text) r ∧ hyphens_stripped r name.


(** [float(text)] and [float.__repr__] convert between decimal text and
    binary64 values; they stand for the interpreter's correctly rounded
    conversions. *)
Variable float_of_literal : pystr → spec_float.
Variable float_repr : spec_float → pystr.

(** The decoder enters every array and every object through
    [Py_EnterRecursiveCall]: [recursion_limit] is the number of arrays and
    objects it can be inside of at once where the script calls
    [json.loads], beyond which the interpreter raises [RecursionError]
    (what is left of [sys.getrecursionlimit()], a thousand by default).
    It is at least one. *)
Variable recursion_limit : positive.

(** [int(integer)] raises [ValueError] for more than
    [sys.get_int_max_str_digits()] digits: 4300 by default, 0 for no
    limit, as in the interpreters that have no such setting.  Up to 640
    digits are converted whatever the setting. *)
Variable int_max_str_digits : nat.

Definition exceeds_int_max_str_digits (digits : nat) : bool :=
  (640 <? digits)%nat && (0 <? int_max_str_digits)%nat
  && (int_max_str_digits <? digits)%nat.

(** [scan_once(string, idx)] with [parse_array] and [parse_object].
    [array_items] is entered at the first character of an element,
    [object_pairs] at the opening quote of a key.  [depth] is the number
    of arrays and objects that may still be entered. *)
Fixpoint scan_once (fuel depth : nat) (s : pystr) {struct fuel} : scan_result pyobj :=
  match fuel with
  | O => OutOfFuel
  | S fuel =>
      match s with
      | [] => DecodeError
      | c :: r =>
          if c =? 0x22 then
            match scanstring r with
            | Some (str, rest) => Scanned (PyStr str) rest
            | None => DecodeError
            end
          else if c =? 0x7B then
            match depth with
            | O => TooDeep
            | S depth =>
                match skip_ws r with
                | c' :: r' =>
                    if c' =? 0x7D then Scanned (PyDict []) r'
                    else
                      match object_pairs fuel depth (c' :: r') with
                      | Scanned pairs rest => Scanned (PyDict (dict_of_pairs pairs)) rest
                      | DecodeError => DecodeError
                      | TooDeep => TooDeep
                      | TooManyDigits => TooManyDigits
                      | OutOfFuel => OutOfFuel
                      end
                | [] => DecodeError
                end
            end
          else if c =? 0x5B then
            match depth with
            | O => TooDeep
            | S depth =>
                match skip_ws r with
                | c' :: r' =>
                    if c' =? 0x5D then Scanned (PyList []) r'
                    else
                      match array_items fuel depth (c' :: r') with
                      | Scanned items rest => Scanned (PyList items) rest
                      | DecodeError => DecodeError
                      | TooDeep => TooDeep
                      | TooManyDigits => TooManyDigits
                      | OutOfFuel => OutOfFuel
                      end
                | [] => DecodeError
                end
            end
          else if startswith s (lit "null") then Scanned PyNone (drop 4 s)
          else if startswith s (lit "true") then Scanned (PyBool true) (drop 4 s)
          else if startswith s (lit "false") then Scanned (PyBool false) (drop 5 s)
          else
            match match_number s with
            | Some (integer, frac, exp, rest) =>
                match frac, exp with
                | [], [] =>
                    if exceeds_int_max_str_digits (int_digits integer)
                    then TooManyDigits
                    else Scanned (PyInt (parse_int integer)) rest
                | _, _ => Scanned (PyFloat (float_of_literal (integer ++ frac ++ exp))) rest
                end
            | None =>
                if startswith s (lit "NaN") then Scanned (PyFloat S754_nan) (drop 3 s)
                else if startswith s (lit "Infinity")
                then Scanned (PyFloat (S754_infinity false)) (drop 8 s)
                else if startswith s (lit "-Infinity")
                then Scanned (PyFloat (S754_infinity true)) (drop 9 s)
                else DecodeError
            end
      end
  end
with array_items (fuel depth : nat) (s : pystr) {struct fuel}
  : scan_result (list pyobj) :=
  match fuel with
  | O => OutOfFuel
  | S fuel =>
      match scan_once fuel depth s with
      | Scanned value rest =>
          match skip_ws rest with
          | c :: r =>
              if c =? 0x5D then Scanned [value] r
              else if c =? 0x2C then
                match array_items fuel depth (skip_ws r) with
                | Scanned values rest' => Scanned (value :: values) rest'
                | DecodeError => DecodeError
                | TooDeep => TooDeep
                | TooManyDigits => TooManyDigits
                | OutOfFuel => OutOfFuel
                end
              else DecodeError
          | [] => DecodeError
          end
      | DecodeError => DecodeError
      | TooDeep => TooDeep
      | TooManyDigits => TooManyDigits
      | OutOfFuel => OutOfFuel
      end
  end
with object_pairs (fuel depth : nat) (s : pystr) {struct fuel}
  : scan_result (list (pystr * pyobj)) :=
  match fuel with
  | O => OutOfFuel
  | S fuel =>
      match s with
      | q :: r =>
          if q =? 0x22 then
            match scanstring r with
            | Some (key, r1) =>
                match skip_ws r1 with
                | c :: r2 =>
                    if c =? 0x3A then
                      match scan_once fuel depth (skip_ws r2) with
                      | Scanned value r3 =>
                          match skip_ws r3 with
                          | c' :: r4 =>
                              if c' =? 0x7D then Scanned [(key, value)] r4
                              else if c' =? 0x2C then
                                match object_pairs fuel depth (skip_ws r4) with
                                | Scanned pairs rest => Scanned ((key, value) :: pairs) rest
                                | DecodeError => DecodeError
                                | TooDeep => TooDeep
                                | TooManyDigits => TooManyDigits
                                | OutOfFuel => OutOfFuel
                                end
                              else DecodeError
                          | [] => DecodeError
                          end
                      | DecodeError => DecodeError
                      | TooDeep => TooDeep
                      | TooManyDigits => TooManyDigits
                      | OutOfFuel => OutOfFuel
                      end
                    else DecodeError
                | [] => DecodeError
                end
            | None => DecodeError
            end
          else DecodeError
      | [] => DecodeError
      end
  end.

(** [JSONDecoder.decode]: a value with white space around it and nothing
    else. *)
Definition decode (fuel depth : nat) (s : pystr) : scan_result pyobj :=
  match scan_once fuel depth (skip_ws s) with
  | Scanned obj rest =>
      match skip_ws rest with
      | [] => Scanned obj []
      | _ :: _ => DecodeError
      end
  | DecodeError => DecodeError
  | TooDeep => TooDeep
  | TooManyDigits => TooManyDigits
  | OutOfFuel => OutOfFuel
  end.

(** [json.loads(s)] for a [str]: the value it returns or the exception it
    raises.  The fuel bounds the recursion of the model and is never used
    up ([json_loads_fuel]). *)
Definition json_loads_outcome (s : pystr) : scan_result pyobj :=
  if startswith s [0xFEFF] then DecodeError
  else decode (2 * length s + 2) (Pos.to_nat recursion_limit) s.

(** The value [json.loads(s)] returns, [None] when it raises. *)
Definition json_loads (s : pystr) : option pyobj :=
  match json_loads_outcome s with
  | Scanned obj _ => Some obj
  | _ => None
  end.

(** The values the decoder can return with [depth] levels to enter: the
    nesting is within [depth] and the integers are within the limit on
    digits. *)
Fixpoint within_limits (depth : nat) (o : pyobj) : bool :=
  match o with
  | PyInt z => negb (exceeds_int_max_str_digits (int_digits (int_repr z)))
  | PyList items =>
      match depth with
      | O => false
      | S depth => forallb (within_limits depth) items
      end
  | PyDict items =>
      match depth with
      | O => false
      | S depth => forallb (λ kv, within_limits depth kv.2) items
      end
  | _ => true
  end.

(** The text is a number with a fraction or an exponent, and nothing else. *)
Definition is_float_literal (s : pystr) : bool :=
  match match_number s with
  | Some (_, frac, exp, []) => negb (bool_decide (frac = []) && bool_decide (exp = []))
  | _ => false
  end.

(** [float(repr(f)) == f] for a finite float, where [repr(f)] is such a
    number. *)
Definition float_roundtrips (f : spec_float) : Prop :=
  match f with
  | S754_nan | S754_infinity _ => True
  | _ => is_float_literal (float_repr f) = true ∧ float_of_literal (float_repr f) = f
  end.

(** What every value returned by [json.loads] satisfies when the floats it
    finds round-trip: strings hold code points, keys are distinct. *)
Inductive well_formed : pyobj → Prop :=
  | wf_None : well_formed PyNone
  | wf_Bool b : well_formed (PyBool b)
  | wf_Int z : well_formed (PyInt z)
  | wf_Float f : float_roundtrips f → well_formed (PyFloat f)
  | wf_Str s : Forall (λ c, is_codepoint c = true) s → well_formed (PyStr s)
  | wf_List items : Forall well_formed items → well_formed (PyList items)
  | wf_Dict items :
      NoDup items.*1 →
      Forall (λ kv, Forall (λ c, is_codepoint c = true) kv.1 ∧ well_formed kv.2) items →
      well_formed (PyDict items).

(** *** Encoding, continued *)

(** [floatstr], with [allow_nan=True] *)
Definition floatstr (o : spec_float) : pystr :=
  match o with
  | S754_nan => lit "NaN"
  | S754_infinity false => lit "Infinity"
  | S754_infinity true => lit "-Infinity"
  | _ => float_repr o
  end.

(** [_iterencode(o, _current_indent_level)], its chunks concatenated. *)
Fixpoint iterencode (level : nat) (o : pyobj) : pystr :=
  match o with
  | PyStr s => encode_basestring_ascii s
  | PyNone => lit "null"
  | PyBool true => lit "true"
  | PyBool false => lit "false"
  | PyInt z => int_repr z
  | PyFloat f => floatstr f
  | PyList [] => lit "[]"
  | PyList items =>
      [0x5B] ++ newline_indent (S level)
      ++ join (0x2C :: newline_indent (S level)) (map (iterencode (S level)) items)
      ++ newline_indent level ++ [0x5D]
  | PyDict [] => lit "{}"
  | PyDict items =>
      [0x7B] ++ newline_indent (S level)
      ++ join (0x2C :: newline_indent (S level))
           (map (λ kv, encode_basestring_ascii kv.1 ++ lit ": " ++ iterencode (S level) kv.2)
              items)
      ++ newline_indent level ++ [0x7D]
  end.

(** The text [json.dump(obj, f, indent=2)] writes to [f].  The integers of
    a value that [json.loads] returned are within the digit limit
    ([json_loads_within]), so that [repr] converts them. *)
Definition json_dump (obj : pyobj) : pystr := iterencode 0 obj.

(** [json.loads(text)] as the script calls it: it returns, or raises
    [JSONDecodeError], [RecursionError] or [ValueError].  The model's fuel
    is never used up ([json_loads_fuel]). *)
Definition loads (text : pystr) : io pyobj :=
  match json_loads_outcome text with
  | Scanned parsed _ => mret parsed
  | DecodeError => raise JSONDecodeError
  | TooDeep | OutOfFuel => raise RecursionError
  | TooManyDigits => raise ValueError
  end.

(** [BeautifulSoup(markup, "html.parser")] *)
Variable BeautifulSoup : pystr → list PageElement.

(** [resp.raise_for_status()] *)
Definition raise_for_status (status_code : N) : io unit :=
  if (400 <=? status_code) && (status_code <? 600)
  then raise (HTTPError status_code)
  else mret ().

(** [def fetch():
       resp = requests.get(BASE_URL)
       resp.raise_for_status()
       return BeautifulSoup(resp.text, "html.parser")] *)
Definition fetch (net : reply) : io (list PageElement) :=
  match net with
  | ConnectionFailed => raise RequestException
  | Response status_code text =>
      raise_for_status status_code;;
      mret (BeautifulSoup text)
  end.

(** The name of the block at [pos]:
    [clean_name(header.get_text()) if header else f"example-{saved+1}"] *)
Definition block_title (soup : list PageElement) (pos saved : nat) : pystr :=
  match find_previous soup pos with
  | Some header => clean_name (get_text header)
  | None => lit "example-" ++ str_of_nat (saved + 1)
  end.

Definition block_fname (soup : list PageElement) (pos saved : nat) : pystr :=
  os_path_join OUT_DIR (block_title soup pos saved ++ lit ".json").

(** One iteration of the loop of [extract], returning the new [saved]. *)
Definition extract_block (soup : list PageElement) (saved : nat)
    (block : nat * PageElement) : io nat :=
  let text := py_strip (get_text block.2) in
  if negb (startswith text (lit "{") || startswith text (lit "[")) then
    mret saved
  else
    r ← except_JSONDecodeError (loads text);
    match r with
    | None => mret saved
    | Some parsed =>
        let fname := block_fname soup block.1 saved in
        write_file fname (json_dump parsed);;
        print ([0x2713] ++ lit " Saved " ++ fname);;
        mret (saved + 1)%nat
    end.

(** The value the loop saves for a block, if any: the trimmed text starts
    with a brace or a bracket and [json.loads] returns. *)
Definition parsed_block (block : nat * PageElement) : option pyobj :=
  let text := py_strip (get_text block.2) in
  if startswith text (lit "{") || startswith text (lit "[")
  then json_loads text else None.

(** [for block in blocks: ...] *)
Fixpoint extract_blocks (soup : list PageElement) (saved : nat)
    (blocks : list (nat * PageElement)) : io nat :=
  match blocks with
  | [] => mret saved
  | block :: blocks' =>
      saved' ← extract_block soup saved block;
      extract_blocks soup saved' blocks'
  end.

(** [def extract(soup)]; the count it prints is also returned here. *)
Definition extract (soup : list PageElement) : io nat :=
  saved ← extract_blocks soup 0 (select soup);
  print ([0x2705] ++ lit " Total saved: " ++ str_of_nat saved
         ++ lit " example JSON files.");;
  mret saved.

(** The exception that ends the run at a block, if any: the trimmed text
    starts with a brace or a bracket and [json.loads] raises another
    exception than [JSONDecodeError]. *)
Definition block_abort (block : nat * PageElement) : option exception :=
  let text := py_strip (get_text block.2) in
  if startswith text (lit "{") || startswith text (lit "[") then
    match json_loads_outcome text with
    | TooDeep | OutOfFuel => Some RecursionError
    | TooManyDigits => Some ValueError
    | Scanned _ _ | DecodeError => None
    end
  else None.

(** The exception that ends the loop over [blocks], if any, and the blocks
    the loop gets through before. *)
Fixpoint first_abort (blocks : list (nat * PageElement)) : option exception :=
  match blocks with
  | [] => None
  | block :: blocks' =>
      match block_abort block with
      | Some e => Some e
      | None => first_abort blocks'
      end
  end.

Fixpoint reached (blocks : list (nat * PageElement)) : list (nat * PageElement) :=
  match blocks with
  | [] => []
  | block :: blocks' =>
      match block_abort block with
      | Some _ => []
      | None => block :: reached blocks'
      end
  end.

(** The blocks of the page that are saved, in document order, each with
    its position, its element and its parsed value. *)
Definition saved_blocks (soup : list PageElement)
  : list (nat * PageElement * pyobj) :=
  omap (λ b, pair b <$> parsed_block b) (reached (select soup)).

(** [def main():
       soup = fetch()
       extract(soup)] *)
Definition main (net : reply) : io unit :=
  soup ← fetch net;
  extract soup;;
  mret ().

#[local] Set Default Proof Using "Type".


(** * Properties *)

(** ** Lists of characters *)

Lemma forallb_Forall {A} (f : A → bool) (s : list A) :
  forallb f s = true ↔ Forall (λ c, f c = true) s.
Proof.
  induction s as [|c r IH]; simpl.
  - split; [constructor | done].
  - rewrite andb_true_iff IH Forall_cons. tauto.
Qed.

(** ** Stripping *)

Lemma lstrip_by_Forall (P : N → Prop) p s :
  Forall P s → Forall P (lstrip_by p s).
Proof.
  induction 1 as [|c r Hc Hr IH]; simpl; [constructor|].
  destruct (p c); [exact IH | by constructor].
Qed.

Lemma strip_by_Forall (P : N → Prop) p s :
  Forall P s → Forall P (strip_by p s).
Proof.
  intros H. unfold strip_by, rstrip_by.
  apply Forall_reverse, lstrip_by_Forall, Forall_reverse.
  by apply lstrip_by_Forall.
Qed.

Lemma lstrip_by_head p s c : head (lstrip_by p s) = Some c → p c = false.
Proof.
  induction s as [|a r IH]; simpl; [done|].
  destruct (p a) eqn:E; [exact IH|]. simpl. by intros [= <-].
Qed.

Lemma lstrip_by_split p s :
  ∃ pre, s = pre ++ lstrip_by p s ∧ Forall (λ c, p c = true) pre.
Proof.
  induction s as [|a r (pre & Hs & Hpre)]; simpl.
  - by exists [].
  - destruct (p a) eqn:E.
    + exists (a :: pre). split; [by rewrite /= -Hs | by constructor].
    + by exists [].
Qed.

Lemma lstrip_by_last p s c : last (lstrip_by p s) = Some c → last s = Some c.
Proof.
  destruct (lstrip_by_split p s) as (pre & Hs & _).
  intros H. rewrite Hs. destruct (lstrip_by p s) as [|a r] eqn:E; [done|].
  by rewrite last_app H.
Qed.

Lemma lstrip_by_id p s :
  (∀ c, head s = Some c → p c = false) → lstrip_by p s = s.
Proof.
  destruct s as [|a r]; simpl; [done|].
  intros H. by rewrite (H a eq_refl).
Qed.

Lemma strip_by_head p s c : head (strip_by p s) = Some c → p c = false.
Proof.
  unfold strip_by, rstrip_by. rewrite head_reverse. intros H.
  apply lstrip_by_last in H. rewrite last_reverse in H.
  by apply lstrip_by_head in H.
Qed.

Lemma strip_by_last p s c : last (strip_by p s) = Some c → p c = false.
Proof.
  unfold strip_by, rstrip_by. rewrite last_reverse. apply lstrip_by_head.
Qed.

Lemma strip_by_id p s :
  (∀ c, head s = Some c → p c = false) →
  (∀ c, last s = Some c → p c = false) →
  strip_by p s = s.
Proof.
  intros Hh Hl. unfold strip_by, rstrip_by.
  rewrite (lstrip_by_id p s Hh) lstrip_by_id; [apply reverse_involutive|].
  intros c. rewrite head_reverse. apply Hl.
Qed.

Lemma strip_by_idemp p s : strip_by p (strip_by p s) = strip_by p s.
Proof. apply strip_by_id; [apply strip_by_head | apply strip_by_last]. Qed.

Lemma head_elem_of (s : pystr) c : head s = Some c → c ∈ s.
Proof. destruct s; [done|]. intros [= <-]. by left. Qed.

Lemma last_elem_of (s : pystr) c : last s = Some c → c ∈ s.
Proof.
  intros H. apply last_Some in H as [l' ->]. apply elem_of_app. right. by left.
Qed.

Lemma strip_by_Forall_id (p : N → bool) s :
  Forall (λ c, p c = false) s → strip_by p s = s.
Proof.
  intros H. rewrite ->Forall_forall in H.
  apply strip_by_id; intros c Hc; apply H;
    [by apply head_elem_of | by apply last_elem_of].
Qed.

(** ** The character classes *)

Lemma slug_char_not_space c : slug_char c = true → isspace c = false.
Proof. unfold slug_char, isspace. lia. Qed.

Lemma slug_char_ascii c : slug_char c = true → is_ascii c = true.
Proof. unfold slug_char, is_ascii. lia. Qed.

Lemma slug_char_lower c : slug_char c = true → ascii_lower c = c.
Proof.
  unfold slug_char, ascii_lower. intros H.
  destruct ((0x41 <=? c) && (c <=? 0x5A)) eqn:E; [lia | done].
Qed.

Lemma is_digit_slug c : is_digit c = true → slug_char c = true.
Proof. unfold slug_char, is_digit. lia. Qed.

(** ** [re.sub] *)

Lemma re_sub_run_slug b s : Forall (λ c, slug_char c = true) (re_sub_run b s).
Proof.
  revert b. induction s as [|c r IH]; intros b; simpl; [constructor|].
  destruct (slug_char c) eqn:E; [by constructor|].
  destruct b; [apply IH | constructor; [done | apply IH]].
Qed.

Lemma re_sub_run_id b s :
  Forall (λ c, slug_char c = true) s → re_sub_run b s = s.
Proof.
  intros H. revert b. induction H as [|c r Hc Hr IH]; intros b; simpl; [done|].
  by rewrite Hc IH.
Qed.

(** ** [clean_name] *)

Lemma py_strip_chars_hyphen_head s c :
  head (py_strip_chars (lit "-") s) = Some c → c ≠ 0x2D.
Proof.
  intros H%strip_by_head ->. by vm_compute in H.
Qed.

Lemma py_strip_chars_hyphen_last s c :
  last (py_strip_chars (lit "-") s) = Some c → c ≠ 0x2D.
Proof.
  intros H%strip_by_last ->. by vm_compute in H.
Qed.

Lemma clean_name_is_slug text : is_slug (clean_name text).
Proof.
  unfold clean_name. repeat split.
  - apply strip_by_Forall, re_sub_run_slug.
  - intros H. by apply py_strip_chars_hyphen_head in H.
  - intros H. by apply py_strip_chars_hyphen_last in H.
Qed.

Lemma str_lower_slug s :
  Forall (λ c, slug_char c = true) s → str_lower s = s.
Proof.
  intros H. unfold str_lower.
  assert (forallb is_ascii s = true) as ->.
  { apply forallb_Forall. eapply Forall_impl; [exact H|].
    intros c. apply slug_char_ascii. }
  induction H as [|c r Hc Hr IH]; simpl; [done|].
  by rewrite slug_char_lower // IH.
Qed.

Lemma clean_name_fixes_slugs s : is_slug s → clean_name s = s.
Proof.
  intros (Hs & Hh & Hl). unfold clean_name, py_strip.
  rewrite strip_by_Forall_id.
  2: { eapply Forall_impl; [exact Hs|]. intros c. apply slug_char_not_space. }
  rewrite str_lower_slug // /re_sub_nonslug re_sub_run_id //.
  change (lit "-") with [0x2D].
  apply strip_by_id; intros c Hc; apply bool_decide_eq_false;
    intros ->%list_elem_of_singleton; congruence.
Qed.

(** C5. Name normalization is idempotent: normalizing the result of
    [clean_name] gives that result again, for every text. *)
Theorem clean_name_idempotent text :
  clean_name (clean_name text) = clean_name text.
Proof. apply clean_name_fixes_slugs, clean_name_is_slug. Qed.

(** ** Lists in document order *)

Lemma StronglySorted_imap_pair {A} (l : list A) n :
  StronglySorted by_position (imap (λ i, pair (n + i)%nat) l).
Proof.
  revert n. induction l as [|x l IH]; intros n; [constructor|].
  rewrite imap_cons.
  rewrite (imap_ext _ (λ i, pair (S n + i)%nat));
    [|intros; unfold compose; f_equal; lia].
  constructor; [apply IH|].
  apply Forall_forall. intros [j y] Hin.
  apply elem_of_lookup_imap in Hin as (i & z & [= -> ->] & _).
  unfold by_position. simpl. lia.
Qed.

Lemma StronglySorted_filter {A} (R : relation A) (P : A → Prop)
    `{∀ x, Decision (P x)} l :
  StronglySorted R l → StronglySorted R (filter P l).
Proof.
  induction 1 as [|x l Hl IH Hx]; [constructor|].
  rewrite filter_cons. destruct (decide (P x)); [|done].
  constructor; [done|].
  rewrite ->Forall_forall in Hx |- *.
  intros y [_ Hy]%list_elem_of_filter. by apply Hx.
Qed.

Lemma StronglySorted_omap {A B} (R : relation A) (R' : relation B)
    (f : A → option B) l :
  (∀ x y x' y', R x y → f x = Some x' → f y = Some y' → R' x' y') →
  StronglySorted R l → StronglySorted R' (omap f l).
Proof.
  intros Hf. induction 1 as [|x l Hl IH Hx]; [constructor|].
  simpl. destruct (f x) as [x'|] eqn:Ex; [|done].
  constructor; [done|].
  apply Forall_forall. intros y' Hy'.
  apply list_elem_of_omap in Hy' as (y & Hy & Ey).
  rewrite ->Forall_forall in Hx. eauto.
Qed.

Lemma StronglySorted_lookup {A} (R : relation A) l i j x y :
  StronglySorted R l → (i < j)%nat →
  l !! i = Some x → l !! j = Some y → R x y.
Proof.
  intros Hl. revert i j. induction Hl as [|a l Hl IH Ha]; intros i j Hij Hi Hj.
  - done.
  - destruct j as [|j]; [lia|]. destruct i as [|i].
    + simpl in Hi, Hj. injection Hi as <-.
      rewrite ->Forall_forall in Ha. apply Ha.
      by eapply list_elem_of_lookup_2.
    + simpl in Hi, Hj. apply (IH i j); [lia|done..].
Qed.

(** ** The loop of [extract] *)

(** One iteration ends the run with the exception of [json.loads], or
    leaves everything as it is, or appends one file and one line and
    counts one more. *)
Lemma extract_block_spec soup saved block w :
  extract_block soup saved block w =
    match block_abort block with
    | Some e => (inr e, w)
    | None =>
        match parsed_block block with
        | None => (inl saved, w)
        | Some parsed =>
            let fname := block_fname soup block.1 saved in
            (inl (saved + 1)%nat,
             World (writes w ++ [(fname, json_dump parsed)])
                   (stdout w ++ [[0x2713] ++ lit " Saved " ++ fname]))
        end
    end.
Proof.
  unfold extract_block, parsed_block, block_abort, json_loads.
  destruct (startswith _ (lit "{") || startswith _ (lit "[")); simpl; [|done].
  unfold mbind, io_bind, except_JSONDecodeError, loads.
  by destruct (json_loads_outcome _).
Qed.

Lemma parsed_block_no_abort block parsed :
  parsed_block block = Some parsed → block_abort block = None.
Proof.
  unfold parsed_block, block_abort, json_loads.
  destruct (startswith _ (lit "{") || startswith _ (lit "[")); [|done].
  by destruct (json_loads_outcome _).
Qed.

Lemma extract_blocks_spec soup blocks saved w :
  let sb := omap (λ b, pair b <$> parsed_block b) (reached blocks) in
  extract_blocks soup saved blocks w =
    (match first_abort blocks with
     | Some e => inr e
     | None => inl (saved + length sb)%nat
     end,
     World
       (writes w ++
        imap (λ k bv, (block_fname soup bv.1.1 (saved + k), json_dump bv.2)) sb)
       (stdout w ++
        imap (λ k bv, [0x2713] ++ lit " Saved " ++ block_fname soup bv.1.1 (saved + k))
          sb)).
Proof.
  revert saved w. induction blocks as [|b blocks IH]; intros saved w; cbn.
  - destruct w. by rewrite Nat.add_0_r !app_nil_r.
  - unfold mbind, io_bind at 1. rewrite extract_block_spec.
    destruct (block_abort b) as [e|]; cbn.
    { destruct w. by rewrite !app_nil_r. }
    destruct (parsed_block b) as [parsed|]; cbn; [|apply IH].
    rewrite IH. cbn. rewrite Nat.add_0_r -!app_assoc. cbn.
    f_equal.
    + destruct (first_abort blocks); [done|]. f_equal. lia.
    + f_equal; do 2 f_equal; apply imap_ext; intros k x _; cbn;
        by replace (saved + 1 + k)%nat with (saved + S k)%nat by lia.
Qed.

(** ** File names *)

Lemma out_path title :
  head title ≠ Some 0x2F →
  os_path_join OUT_DIR (title ++ lit ".json")
  = lit "src/test/resources/strava/" ++ title ++ lit ".json".
Proof.
  intros H. unfold os_path_join.
  assert (startswith (title ++ lit ".json") (lit "/") = false) as ->.
  { destruct title as [|c r]; [done|]. simpl.
    apply andb_false_iff. left. apply N.eqb_neq. by intros ->. }
  done.
Qed.

Lemma slug_head_not_slash s : is_slug s → head s ≠ Some 0x2F.
Proof.
  intros (Hs & _ & _) Hh. apply head_elem_of in Hh.
  rewrite ->Forall_forall in Hs. by apply Hs in Hh.
Qed.

Lemma uint_chars_digits d : Forall (λ c, is_digit c = true) (uint_chars d).
Proof. induction d; simpl; by constructor. Qed.

Lemma uint_chars_nonnil d : d ≠ Nil → uint_chars d ≠ [].
Proof. by destruct d. Qed.

Lemma unorm_nonnil d : unorm d ≠ Nil.
Proof. unfold unorm. by destruct (nzhead d). Qed.

Lemma nat_to_uint_normal n : Nat.to_uint n = unorm (Nat.to_uint n).
Proof.
  by rewrite -{1}(DecimalNat.Unsigned.of_to n) DecimalNat.Unsigned.to_of.
Qed.

Lemma is_slug_example n : is_slug (lit "example-" ++ str_of_nat n).
Proof.
  pose proof (uint_chars_digits (Nat.to_uint n)) as Hd.
  assert (uint_chars (Nat.to_uint n) ≠ []) as Hn.
  { apply uint_chars_nonnil. rewrite nat_to_uint_normal. apply unorm_nonnil. }
  unfold str_of_nat. repeat split.
  - apply Forall_app. split.
    + by apply forallb_Forall.
    + eapply Forall_impl; [exact Hd|]. apply is_digit_slug.
  - done.
  - intros Hl. rewrite last_app in Hl.
    destruct (last (uint_chars _)) as [c|] eqn:El.
    + apply last_elem_of in El. rewrite ->Forall_forall in Hd.
      apply Hd in El. by simplify_eq.
    + by apply last_None in El.
Qed.

Lemma block_title_is_slug soup pos saved : is_slug (block_title soup pos saved).
Proof.
  unfold block_title. destruct (find_previous soup pos).
  - apply clean_name_is_slug.
  - apply is_slug_example.
Qed.

Lemma block_fname_eq soup pos saved :
  block_fname soup pos saved
  = lit "src/test/resources/strava/" ++ block_title soup pos saved ++ lit ".json".
Proof. apply out_path, slug_head_not_slash, block_title_is_slug. Qed.

(** ** The run as a whole *)

Lemma extract_spec soup w :
  let sb := saved_blocks soup in
  let files := imap (λ k bv, (block_fname soup bv.1.1 k, json_dump bv.2)) sb in
  let lines :=
    imap (λ k bv, [0x2713] ++ lit " Saved " ++ block_fname soup bv.1.1 k) sb in
  extract soup w =
    match first_abort (select soup) with
    | Some e => (inr e, World (writes w ++ files) (stdout w ++ lines))
    | None =>
        (inl (length sb),
         World (writes w ++ files)
           (stdout w ++ lines
            ++ [[0x2705] ++ lit " Total saved: " ++ str_of_nat (length sb)
                ++ lit " example JSON files."]))
    end.
Proof.
  unfold extract, saved_blocks, mbind, io_bind at 1.
  rewrite extract_blocks_spec.
  destruct (first_abort (select soup)); cbn; [done|]. by rewrite -app_assoc.
Qed.

(** The files of a run, whether or not it comes to its end. *)
Lemma extract_writes soup w :
  writes (extract soup w).2
  = writes w
    ++ imap (λ k bv, (block_fname soup bv.1.1 k, json_dump bv.2)) (saved_blocks soup).
Proof. rewrite extract_spec. by destruct (first_abort (select soup)). Qed.

Lemma select_sorted soup : StronglySorted by_position (select soup).
Proof. apply StronglySorted_filter, (StronglySorted_imap_pair _ 0). Qed.

Lemma reached_Forall (P : nat * PageElement → Prop) blocks :
  Forall P blocks → Forall P (reached blocks).
Proof.
  induction 1 as [|b blocks Hb _ IH]; cbn; [constructor|].
  destruct (block_abort b); by constructor.
Qed.

Lemma reached_sorted blocks :
  StronglySorted by_position blocks → StronglySorted by_position (reached blocks).
Proof.
  induction 1 as [|b blocks _ IH Hb]; cbn; [constructor|].
  destruct (block_abort b); constructor; [done|]. by apply reached_Forall.
Qed.

Lemma saved_blocks_sorted soup :
  StronglySorted (λ a b, (a.1.1 < b.1.1)%nat) (saved_blocks soup).
Proof.
  eapply StronglySorted_omap; [|apply reached_sorted, select_sorted].
  intros x y x' y' Hxy Hx Hy.
  destruct (parsed_block x); [|done]. destruct (parsed_block y); [|done].
  by simplify_eq/=.
Qed.

Lemma find_previous_None_mono soup pos pos' :
  (pos' ≤ pos)%nat → find_previous soup pos = None → find_previous soup pos' = None.
Proof.
  unfold find_previous. intros Hle Hnone.
  destruct (find _ (reverse (take pos' _))) as [h|] eqn:E; [|done].
  apply find_some in E as [Hin Hh].
  eapply find_none in Hnone; [by rewrite Hnone in Hh|].
  apply list_elem_of_In, elem_of_reverse, elem_of_take.
  apply list_elem_of_In, elem_of_reverse, elem_of_take in Hin as (i & Hi & Hlt).
  exists i. split; [done | lia].
Qed.

(** C1. In every run, the k-th saved block (counting from 1, saved blocks
    only) that has no preceding h2/h3 heading is written to
    example-<k>.json in the output directory; and every block saved before
    it has no heading either, so k is also its rank among the saved blocks
    without a heading. *)
Theorem fallback_name_counts_saves soup w k pos e parsed :
  saved_blocks soup !! k = Some (pos, e, parsed) →
  find_previous soup pos = None →
  writes (extract soup w).2 !! (length (writes w) + k)%nat
    = Some (lit "src/test/resources/strava/example-" ++ str_of_nat (k + 1)
              ++ lit ".json",
            json_dump parsed)
  ∧ ∀ j pos' e' parsed',
      (j ≤ k)%nat → saved_blocks soup !! j = Some (pos', e', parsed') →
      find_previous soup pos' = None.
Proof.
  intros Hk Hnone. split.
  - rewrite extract_writes.
    rewrite lookup_app_r; [|lia].
    replace (length (writes w) + k - length (writes w))%nat with k by lia.
    rewrite list_lookup_imap Hk. cbn.
    rewrite block_fname_eq /block_title Hnone.
    by rewrite -!app_assoc.
  - intros j pos' e' parsed' Hj Hlook.
    apply (find_previous_None_mono soup pos); [|done].
    destruct (decide (j = k)) as [->|Hne]; [by simplify_eq|].
    pose proof (StronglySorted_lookup _ _ j k _ _ (saved_blocks_sorted soup)
                  ltac:(lia) Hlook Hk) as Hlt.
    simpl in Hlt. lia.
Qed.

(** C2. A block whose trimmed text starts neither with a brace nor with a
    bracket is passed over: nothing is written, printed or counted,
    whether or not the text would parse. *)
Theorem non_json_like_block_writes_nothing soup saved block w :
  startswith (py_strip (get_text block.2)) (lit "{") = false →
  startswith (py_strip (get_text block.2)) (lit "[") = false →
  extract_block soup saved block w = (inl saved, w).
Proof.
  intros H1 H2. unfold extract_block. by rewrite H1 H2.
Qed.

(** C3, as amended. A block whose trimmed text starts with a brace or a
    bracket and on which [json.loads] raises [JSONDecodeError]: the loop
    catches the exception, writes and prints nothing for the block, leaves
    the count as it is and goes on with the remaining blocks, as if the
    block were not there. *)
Theorem malformed_json_block_is_skipped soup saved block blocks w :
  startswith (py_strip (get_text block.2)) (lit "{")
  || startswith (py_strip (get_text block.2)) (lit "[") = true →
  json_loads_outcome (py_strip (get_text block.2)) = DecodeError →
  loads (py_strip (get_text block.2)) w = (inr JSONDecodeError, w)
  ∧ extract_block soup saved block w = (inl saved, w)
  ∧ extract_blocks soup saved (block :: blocks) w
    = extract_blocks soup saved blocks w.
Proof.
  intros Hstart Hfail.
  assert (extract_block soup saved block w = (inl saved, w)) as Hskip.
  { rewrite extract_block_spec /block_abort /parsed_block /json_loads.
    by rewrite Hstart Hfail. }
  repeat split.
  - unfold loads. by rewrite Hfail.
  - exact Hskip.
  - cbn. unfold mbind, io_bind at 1. by rewrite Hskip.
Qed.

Lemma json_loads_get_activity :
  json_loads get_activity_text
  = Some (PyDict [(lit "id", PyInt 1); (lit "name", PyStr (lit "ride"))]).
Proof.
  unfold json_loads, json_loads_outcome.
  destruct (Pos2Nat.is_succ recursion_limit) as [depth ->].
  vm_compute. reflexivity.
Qed.

Lemma json_dump_get_activity :
  json_dump (PyDict [(lit "id", PyInt 1); (lit "name", PyStr (lit "ride"))])
  = get_activity_content.
Proof. vm_compute. reflexivity. Qed.

Lemma clean_name_get_activity : clean_name (lit "Get Activity") = lit "get-activity".
Proof. vm_compute. reflexivity. Qed.

(** C7. A block whose nearest preceding h2/h3 heading reads "Get Activity"
    and whose text is the object with id 1 and name ride is written to
    get-activity.json, and the file holds exactly that object on four
    lines with a two-space indentation. *)
Theorem get_activity_scenario soup saved pos e header w :
  find_previous soup pos = Some header →
  get_text header = lit "Get Activity" →
  py_strip (get_text e) = get_activity_text →
  extract_block soup saved (pos, e) w =
    (inl (saved + 1)%nat,
     World
       (writes w ++
        [(lit "src/test/resources/strava/get-activity.json", get_activity_content)])
       (stdout w ++
        [[0x2713] ++ lit " Saved src/test/resources/strava/get-activity.json"])).
Proof.
  intros Hprev Hhead Htext.
  assert (parsed_block (pos, e)
          = Some (PyDict [(lit "id", PyInt 1); (lit "name", PyStr (lit "ride"))]))
    as Hparsed.
  { rewrite /parsed_block. cbn [fst snd]. by rewrite Htext json_loads_get_activity. }
  rewrite extract_block_spec (parsed_block_no_abort _ _ Hparsed) Hparsed.
  cbn [fst snd].
  rewrite json_dump_get_activity block_fname_eq /block_title Hprev Hhead.
  by rewrite clean_name_get_activity.
Qed.

(** C8. When the nearest preceding heading exists and its text normalizes
    to the empty string, the base name is empty and the file is [.json] in
    the output directory; the ordinal fallback is not used. *)
Theorem empty_slug_names_dot_json soup saved pos e header parsed w :
  find_previous soup pos = Some header →
  clean_name (get_text header) = [] →
  parsed_block (pos, e) = Some parsed →
  block_title soup pos saved = []
  ∧ extract_block soup saved (pos, e) w =
      (inl (saved + 1)%nat,
       World
         (writes w ++ [(lit "src/test/resources/strava/.json", json_dump parsed)])
         (stdout w ++ [[0x2713] ++ lit " Saved src/test/resources/strava/.json"])).
Proof.
  intros Hprev Hempty Hparsed.
  assert (block_title soup pos saved = []) as Htitle
    by by rewrite /block_title Hprev.
  split; [done|].
  rewrite extract_block_spec (parsed_block_no_abort _ _ Hparsed) Hparsed.
  cbn [fst snd].
  by rewrite block_fname_eq Htitle.
Qed.

(** ** [fetch] and [main] *)

(** C9, as amended. If the fetch fails with a network error, or the
    response has a 4xx or 5xx status, [main] ends with the propagated
    exception before extraction begins: no file is written and nothing is
    printed. *)
Theorem fetch_error_is_fatal net w :
  net = ConnectionFailed
  ∨ (∃ status_code text,
       net = Response status_code text ∧ 400 ≤ status_code < 600) →
  ∃ e, main net w = (inr e, w)
       ∧ (e = RequestException ∨ ∃ status_code, e = HTTPError status_code).
Proof.
  intros [->|(status_code & text & -> & Hs)].
  - exists RequestException. split; [done | by left].
  - exists (HTTPError status_code). split; [|right; eauto].
    unfold main, fetch, raise_for_status, mbind, io_bind.
    assert ((400 <=? status_code) && (status_code <? 600) = true) as -> by lia.
    done.
Qed.

(** A response with any other status is parsed and extracted from. *)
Lemma main_other_status status_code text w :
  (400 <=? status_code) && (status_code <? 600) = false →
  main (Response status_code text) w
  = ((extract (BeautifulSoup text);; mret ()) : io unit) w.
Proof.
  intros H. unfold main, fetch, raise_for_status. rewrite H.
  by unfold mbind, io_bind, mret, io_ret.
Qed.

(** ** Document order *)

Lemma PageElement_ind (P : PageElement → Prop) :
  (∀ s, P (NavigableString s)) →
  (∀ s, P (Comment s)) →
  (∀ name classes contents, Forall P contents → P (Tag name classes contents)) →
  ∀ e, P e.
Proof.
  intros Hs Hc Ht. fix IH 1. intros [s|s|name classes contents]; [done..|].
  apply Ht. revert contents. fix IHl 1. intros [|c contents]; constructor.
  - apply IH.
  - apply IHl.
Qed.

(** Wherever an element stands in a sequence of trees laid out in document
    order, it is followed by its own descendants. *)
Lemma flat_map_subtree (f : PageElement → list PageElement) contents :
  Forall (λ c, ∀ i x, f c !! i = Some x →
                ∃ rest, drop i (f c) = self_and_descendants x ++ rest) contents →
  ∀ i x, flat_map f contents !! i = Some x →
    ∃ rest, drop i (flat_map f contents) = self_and_descendants x ++ rest.
Proof.
  induction 1 as [|c contents Hc _ IH]; intros i x Hi; [done|].
  simpl in *. destruct (decide (i < length (f c))%nat) as [Hlt|Hge].
  - rewrite lookup_app_l // in Hi. apply Hc in Hi as [rest Hrest].
    exists (rest ++ flat_map f contents).
    rewrite drop_app_le; [|lia]. by rewrite Hrest app_assoc.
  - rewrite lookup_app_r in Hi; [|lia]. apply IH in Hi as [rest Hrest].
    exists rest. by rewrite drop_app_ge; [|lia].
Qed.

Lemma self_and_descendants_subtree e i x :
  self_and_descendants e !! i = Some x →
  ∃ rest, drop i (self_and_descendants e) = self_and_descendants x ++ rest.
Proof.
  revert i x. induction e as [s|s|name classes contents IH] using PageElement_ind;
    intros i x Hi.
  - destruct i; [|done]. injection Hi as <-. by exists [].
  - destruct i; [|done]. injection Hi as <-. by exists [].
  - destruct i as [|i].
    + injection Hi as <-. exists []. by rewrite app_nil_r.
    + simpl in *. by apply flat_map_subtree.
Qed.

Lemma descendants_subtree soup i x :
  descendants soup !! i = Some x →
  ∃ rest, drop i (descendants soup) = self_and_descendants x ++ rest.
Proof.
  apply flat_map_subtree, Forall_forall. intros c _ j y.
  apply self_and_descendants_subtree.
Qed.

(** The first child of a tag comes right after the tag. *)
Lemma descendants_first_child soup i name classes child contents :
  descendants soup !! i = Some (Tag name classes (child :: contents)) →
  descendants soup !! S i = Some child.
Proof.
  intros [rest Hrest]%descendants_subtree.
  assert (drop i (descendants soup) !! 1%nat = Some child) as H
    by (rewrite Hrest; destruct child; reflexivity).
  rewrite lookup_drop in H. by rewrite -(Nat.add_1_r i).
Qed.

Lemma select_split soup i :
  select soup
  = filter (λ b, matches_selectors b.2 = true)
      (imap pair (take i (descendants soup)))
    ++ filter (λ b, matches_selectors b.2 = true)
         (imap (λ j, pair (length (take i (descendants soup)) + j)%nat)
            (drop i (descendants soup))).
Proof.
  unfold select. rewrite -{1}(take_drop i (descendants soup)).
  by rewrite imap_app filter_app.
Qed.

Lemma find_previous_S soup i e :
  descendants soup !! i = Some e → is_heading e = false →
  find_previous soup (S i) = find_previous soup i.
Proof.
  intros Hi He. unfold find_previous.
  by rewrite (take_S_r _ _ _ Hi) reverse_app /= He.
Qed.

Lemma uint_chars_inj d d' : uint_chars d = uint_chars d' → d = d'.
Proof.
  revert d'. induction d; intros d'; destruct d'; simpl; try done;
    intros [= H]; f_equal; auto.
Qed.

Lemma str_of_nat_inj n m : str_of_nat n = str_of_nat m → n = m.
Proof.
  intros H%uint_chars_inj. by apply DecimalNat.Unsigned.to_uint_inj.
Qed.

Lemma get_text_only_child name classes child :
  get_text (Tag name classes [child]) = get_text child.
Proof. simpl. apply app_nil_r. Qed.

Lemma parsed_block_only_child pos pos' name classes child parsed :
  parsed_block (pos', child) = Some parsed →
  parsed_block (pos, Tag name classes [child]) = Some parsed.
Proof.
  intros H. rewrite -H /parsed_block. cbn [fst snd].
  by rewrite get_text_only_child.
Qed.

(** Two blocks that parse to the same value, one after the other. *)
Lemma extract_blocks_pair soup saved b1 b2 parsed w :
  parsed_block b1 = Some parsed → parsed_block b2 = Some parsed →
  extract_blocks soup saved [b1; b2] w
  = (inl (saved + 2)%nat,
     World
       (writes w ++ [(block_fname soup b1.1 saved, json_dump parsed);
                     (block_fname soup b2.1 (S saved), json_dump parsed)])
       (stdout w ++
        [[0x2713] ++ lit " Saved " ++ block_fname soup b1.1 saved;
         [0x2713] ++ lit " Saved " ++ block_fname soup b2.1 (S saved)])).
Proof.
  intros H1 H2. rewrite extract_blocks_spec. cbn [reached first_abort].
  rewrite (parsed_block_no_abort _ _ H1) (parsed_block_no_abort _ _ H2).
  cbn [omap list_omap]. rewrite H1 H2.
  cbn. by rewrite Nat.add_0_r Nat.add_1_r.
Qed.

Lemma extract_pre_code_under_heading w :
  extract page_pre_code_under_heading w
  = (inl 2%nat,
     World
       (writes w
        ++ [(lit "src/test/resources/strava/get-activity.json", get_activity_content);
            (lit "src/test/resources/strava/get-activity.json", get_activity_content)])
       (stdout w
        ++ [[0x2713] ++ lit " Saved src/test/resources/strava/get-activity.json";
            [0x2713] ++ lit " Saved src/test/resources/strava/get-activity.json";
            [0x2705] ++ lit " Total saved: 2 example JSON files."])).
Proof.
  unfold extract, mbind, io_bind at 1.
  change (select page_pre_code_under_heading)
    with [(2%nat, pre_code get_activity_text);
          (3%nat, Tag (lit "code") [] [NavigableString get_activity_text])].
  assert (parsed_block
            (3%nat, Tag (lit "code") [] [NavigableString get_activity_text])
          = Some (PyDict [(lit "id", PyInt 1); (lit "name", PyStr (lit "ride"))]))
    as Hcode.
  { rewrite /parsed_block. cbn [snd].
    change (py_strip (get_text _)) with get_activity_text.
    by rewrite json_loads_get_activity. }
  rewrite (extract_blocks_pair _ _ _ _ _ _
             (parsed_block_only_child 2 _ _ _ _ _ Hcode) Hcode).
  rewrite json_dump_get_activity !block_fname_eq /block_title. cbn [fst].
  change (find_previous page_pre_code_under_heading 2)
    with (Some (h2 (lit "Get Activity"))).
  change (find_previous page_pre_code_under_heading 3)
    with (Some (h2 (lit "Get Activity"))).
  cbv iota.
  change (get_text (h2 (lit "Get Activity"))) with (lit "Get Activity").
  rewrite clean_name_get_activity.
  unfold io_bind, print, mret, io_ret. cbn [writes stdout].
  rewrite -(app_assoc (stdout w)). by vm_compute.
Qed.

(** C10, as amended. A JSON example marked up as a [code] element that is
    the only child of a [pre] element gives two candidates, the [pre] and
    the [code], one after the other; both are saved and counted.  Under a
    preceding h2/h3 heading both go to the file named after the heading,
    the second write replacing the first, so that the count grows by two
    and the directory by one file at most; with no preceding heading they
    go to two different files, example-<n+1>.json and example-<n+2>.json.
    On [page_pre_code_under_heading] the run reports two files saved and
    leaves one. *)
Theorem pre_code_is_saved_twice soup i classes classes' contents parsed saved w :
  let code_e := Tag (lit "code") classes' contents in
  let pre_e := Tag (lit "pre") classes [code_e] in
  descendants soup !! i = Some pre_e →
  parsed_block (S i, code_e) = Some parsed →
  (∃ n, select soup !! n = Some (i, pre_e)
        ∧ select soup !! S n = Some (S i, code_e))
  ∧ (∃ name1 name2,
       extract_blocks soup saved [(i, pre_e); (S i, code_e)] w
       = (inl (saved + 2)%nat,
          World
            (writes w ++ [(name1, json_dump parsed); (name2, json_dump parsed)])
            (stdout w ++ [[0x2713] ++ lit " Saved " ++ name1;
                          [0x2713] ++ lit " Saved " ++ name2]))
       ∧ match find_previous soup i with
         | Some header =>
             name1 = lit "src/test/resources/strava/"
                     ++ clean_name (get_text header) ++ lit ".json"
             ∧ name2 = name1
             ∧ ∀ init,
                 disk init (extract_blocks soup saved
                              [(i, pre_e); (S i, code_e)] w).2
                 = <[name1 := json_dump parsed]> (disk init w)
         | None =>
             name1 = lit "src/test/resources/strava/example-"
                     ++ str_of_nat (saved + 1) ++ lit ".json"
             ∧ name2 = lit "src/test/resources/strava/example-"
                       ++ str_of_nat (saved + 2) ++ lit ".json"
             ∧ name1 ≠ name2
         end)
  ∧ (extract page_pre_code_under_heading empty_world).1 = inl 2%nat
  ∧ size (disk ∅ (extract page_pre_code_under_heading empty_world).2) = 1%nat.
Proof.
  intros code_e pre_e Hi Hparsed.
  pose proof (descendants_first_child _ _ _ _ _ _ Hi) as Hc.
  assert (parsed_block (i, pre_e) = Some parsed) as Hparsed'
    by exact (parsed_block_only_child _ _ _ _ _ _ Hparsed).
  assert (find_previous soup (S i) = find_previous soup i) as Hprev
    by by apply (find_previous_S soup i pre_e).
  split; [|split; [|split]].
  - destruct (descendants_subtree _ _ _ Hi) as [rest Hrest].
    exists (length (filter (λ b : nat * PageElement, matches_selectors b.2 = true)
                      (imap pair (take i (descendants soup))))).
    rewrite (select_split soup i) Hrest.
    rewrite length_take_le; [|apply Nat.lt_le_incl; by eapply lookup_lt_Some].
    assert (self_and_descendants pre_e ++ rest
            = pre_e :: code_e :: flat_map self_and_descendants contents ++ rest)
      as -> by by rewrite /= app_nil_r.
    rewrite !imap_cons !filter_cons_True //.
    rewrite !lookup_app_r; [|lia..].
    rewrite Nat.sub_diag.
    replace (S _ - _)%nat with 1%nat by lia.
    cbn. by rewrite Nat.add_0_r Nat.add_1_r.
  - exists (block_fname soup i saved), (block_fname soup (S i) (S saved)).
    pose proof (extract_blocks_pair soup saved (i, pre_e) (S i, code_e) parsed w
                  Hparsed' Hparsed) as Hrun.
    cbn [fst] in Hrun.
    split; [exact Hrun|].
    rewrite !block_fname_eq /block_title Hprev.
    destruct (find_previous soup i) as [header|] eqn:E.
    + split; [done|]. split; [done|].
      intros init. rewrite Hrun !block_fname_eq /block_title Hprev E.
      unfold disk. cbn. rewrite foldl_app. cbn.
      by rewrite insert_insert_eq.
    + replace (S saved + 1)%nat with (saved + 2)%nat by lia.
      split; [by rewrite -?app_assoc|]. split; [by rewrite -?app_assoc|].
      intros H. apply app_inv_head, app_inv_tail, app_inv_head in H.
      apply str_of_nat_inj in H. lia.
  - by rewrite extract_pre_code_under_heading.
  - rewrite extract_pre_code_under_heading. by vm_compute.
Qed.

(** ** Strings: [encode_basestring_ascii] and [scanstring] *)

(** Linear arithmetic with division and remainder by constants. *)
Ltac lia_div := zify; Z.to_euclidean_division_equations; lia.

Lemma hexval_hexdigit d : d < 16 → hexval (hexdigit d) = Some d.
Proof.
  intros Hd. unfold hexval, hexdigit, is_digit.
  destruct (d <? 10) eqn:E.
  - assert ((0x30 <=? 0x30 + d) && (0x30 + d <=? 0x39) = true) as -> by lia.
    f_equal. lia.
  - assert ((0x30 <=? 0x57 + d) && (0x57 + d <=? 0x39) = false) as -> by lia.
    assert ((0x61 <=? 0x57 + d) && (0x57 + d <=? 0x66) = true) as -> by lia.
    f_equal. lia.
Qed.

Lemma hexval_bound c v : hexval c = Some v → v < 16.
Proof.
  unfold hexval, is_digit. repeat case_match; intros [= <-]; lia.
Qed.

Lemma decode_uXXXX_bound a b c d uni :
  decode_uXXXX a b c d = Some uni → uni < 0x10000.
Proof.
  unfold decode_uXXXX.
  destruct (hexval a) as [va|] eqn:Ea; [|done].
  destruct (hexval b) as [vb|] eqn:Eb; [|done].
  destruct (hexval c) as [vc|] eqn:Ec; [|done].
  destruct (hexval d) as [vd|] eqn:Ed; [|done].
  apply hexval_bound in Ea, Eb, Ec, Ed. intros [= <-]. lia.
Qed.

Lemma decode_format_04x n :
  n < 0x10000 →
  ∃ a b c d, format_04x n = [a; b; c; d] ∧ decode_uXXXX a b c d = Some n.
Proof.
  intros Hn. unfold format_04x. do 4 eexists. split; [done|].
  unfold decode_uXXXX.
  rewrite !hexval_hexdigit; [|lia_div..]. f_equal. lia_div.
Qed.

Lemma lor_mul_pow2 a b k : b < 2 ^ k → N.lor (a * 2 ^ k) b = a * 2 ^ k + b.
Proof.
  intros Hb.
  assert (N.land (a * 2 ^ k) b = 0) as Hland.
  { apply N.bits_inj. intros m. rewrite N.land_spec N.bits_0.
    destruct (N.lt_ge_cases m k) as [Hm|Hm].
    - by rewrite N.mul_pow2_bits_low.
    - by rewrite -(N.mod_small b (2 ^ k)) // N.mod_pow2_bits_high // andb_false_r. }
  by rewrite N.add_nocarry_lxor // N.lxor_lor.
Qed.

Lemma land_0x3FF a : N.land a 0x3FF = a mod 1024.
Proof. change 0x3FF with (N.ones 10). by rewrite N.land_ones. Qed.

Lemma high_surrogate_of c :
  0x10000 ≤ c < 0x110000 →
  N.lor 0xD800 (N.land (N.shiftr (c - 0x10000) 10) 0x3FF)
  = 0xD800 + (c - 0x10000) / 1024.
Proof.
  intros Hc. rewrite land_0x3FF N.shiftr_div_pow2.
  change 0xD800 with (54 * 2 ^ 10). change (2 ^ 10) with 1024.
  rewrite N.mod_small; [|lia_div].
  change 1024 with (2 ^ 10) at 1. rewrite lor_mul_pow2 //.
  change (2 ^ 10) with 1024. lia_div.
Qed.

Lemma low_surrogate_of c :
  N.lor 0xDC00 (N.land (c - 0x10000) 0x3FF) = 0xDC00 + (c - 0x10000) mod 1024.
Proof.
  rewrite land_0x3FF. change 0xDC00 with (55 * 2 ^ 10).
  rewrite lor_mul_pow2 //. change (2 ^ 10) with 1024. lia_div.
Qed.

Lemma join_surrogates_of c :
  0x10000 ≤ c < 0x110000 →
  join_surrogates (0xD800 + (c - 0x10000) / 1024) (0xDC00 + (c - 0x10000) mod 1024)
  = c.
Proof.
  intros Hc. unfold join_surrogates.
  rewrite N.shiftl_mul_pow2 lor_mul_pow2; change (2 ^ 10) with 1024; lia_div.
Qed.

Lemma join_surrogates_bound hi lo :
  is_high_surrogate hi = true → is_low_surrogate lo = true →
  0x10000 ≤ join_surrogates hi lo < 0x110000.
Proof.
  unfold is_high_surrogate, is_low_surrogate, join_surrogates. intros Hhi Hlo.
  rewrite N.shiftl_mul_pow2 lor_mul_pow2; change (2 ^ 10) with 1024; lia.
Qed.

Lemma scanstring_plain c T str rest :
  c ≠ 0x22 → c ≠ 0x5C → 0x20 ≤ c →
  scanstring T = Some (str, rest) →
  scanstring (c :: T) = Some (c :: str, rest).
Proof.
  intros H1 H2 H3 HT. simpl. rewrite HT.
  assert ((c =? 0x22) = false) as -> by lia.
  assert ((c =? 0x5C) = false) as -> by lia.
  by assert ((c <? 0x20) = false) as -> by lia.
Qed.

Lemma scanstring_simple esc ch T str rest :
  esc ≠ 0x75 → BACKSLASH esc = Some ch →
  scanstring T = Some (str, rest) →
  scanstring (0x5C :: esc :: T) = Some (ch :: str, rest).
Proof.
  intros H1 H2 HT. simpl. rewrite HT H2.
  by assert ((esc =? 0x75) = false) as -> by lia.
Qed.

Lemma scanstring_u h1 h2 h3 h4 uni T str rest :
  decode_uXXXX h1 h2 h3 h4 = Some uni →
  is_high_surrogate uni = false →
  scanstring T = Some (str, rest) →
  scanstring (0x5C :: 0x75 :: h1 :: h2 :: h3 :: h4 :: T) = Some (uni :: str, rest).
Proof. intros Hd Hh HT. simpl. by rewrite Hd Hh HT. Qed.

Lemma scanstring_u_high h1 h2 h3 h4 uni T str rest :
  decode_uXXXX h1 h2 h3 h4 = Some uni →
  (∀ l1 l2 l3 l4 r3,
     T = 0x5C :: 0x75 :: l1 :: l2 :: l3 :: l4 :: r3 →
     ∃ uni2, decode_uXXXX l1 l2 l3 l4 = Some uni2
             ∧ is_low_surrogate uni2 = false) →
  scanstring T = Some (str, rest) →
  scanstring (0x5C :: 0x75 :: h1 :: h2 :: h3 :: h4 :: T) = Some (uni :: str, rest).
Proof.
  intros Hd Hlow HT. simpl. rewrite Hd HT.
  destruct (is_high_surrogate uni); [|done].
  destruct T as [|b [|u [|l1 [|l2 [|l3 [|l4 r3]]]]]]; try done.
  destruct ((b =? 0x5C) && (u =? 0x75)) eqn:E; [|done].
  assert (b = 0x5C ∧ u = 0x75) as [-> ->] by lia.
  by destruct (Hlow _ _ _ _ _ eq_refl) as (uni2 & -> & ->).
Qed.

Lemma scanstring_pair h1 h2 h3 h4 l1 l2 l3 l4 hi lo T str rest :
  decode_uXXXX h1 h2 h3 h4 = Some hi → is_high_surrogate hi = true →
  decode_uXXXX l1 l2 l3 l4 = Some lo → is_low_surrogate lo = true →
  scanstring T = Some (str, rest) →
  scanstring (0x5C :: 0x75 :: h1 :: h2 :: h3 :: h4
              :: 0x5C :: 0x75 :: l1 :: l2 :: l3 :: l4 :: T)
  = Some (join_surrogates hi lo :: str, rest).
Proof. intros Hh Hhi Hl Hlo HT. simpl. by rewrite Hh Hhi Hl Hlo HT. Qed.

(** The four shapes of an escaped character. *)
Lemma escape_char_cases c :
  is_codepoint c = true →
  (∃ esc, escape_char c = [0x5C; esc] ∧ esc ≠ 0x75 ∧ BACKSLASH esc = Some c)
  ∨ (escape_char c = [c] ∧ c ≠ 0x22 ∧ c ≠ 0x5C ∧ 0x20 ≤ c)
  ∨ (∃ h1 h2 h3 h4,
       escape_char c = [0x5C; 0x75; h1; h2; h3; h4]
       ∧ decode_uXXXX h1 h2 h3 h4 = Some c)
  ∨ (∃ h1 h2 h3 h4 l1 l2 l3 l4 hi lo,
       escape_char c = [0x5C; 0x75; h1; h2; h3; h4; 0x5C; 0x75; l1; l2; l3; l4]
       ∧ decode_uXXXX h1 h2 h3 h4 = Some hi ∧ is_high_surrogate hi = true
       ∧ decode_uXXXX l1 l2 l3 l4 = Some lo ∧ is_low_surrogate lo = true
       ∧ join_surrogates hi lo = c).
Proof.
  unfold is_codepoint. intros Hc. unfold escape_char.
  destruct (c =? 0x5C) eqn:E1.
  { left. exists 0x5C. assert (c = 0x5C) as -> by lia. done. }
  destruct (c =? 0x22) eqn:E2.
  { left. exists 0x22. assert (c = 0x22) as -> by lia. done. }
  destruct (c =? 0x08) eqn:E3.
  { left. exists 0x62. assert (c = 0x08) as -> by lia. done. }
  destruct (c =? 0x0C) eqn:E4.
  { left. exists 0x66. assert (c = 0x0C) as -> by lia. done. }
  destruct (c =? 0x0A) eqn:E5.
  { left. exists 0x6E. assert (c = 0x0A) as -> by lia. done. }
  destruct (c =? 0x0D) eqn:E6.
  { left. exists 0x72. assert (c = 0x0D) as -> by lia. done. }
  destruct (c =? 0x09) eqn:E7.
  { left. exists 0x74. assert (c = 0x09) as -> by lia. done. }
  destruct ((0x20 <=? c) && (c <=? 0x7E)) eqn:E8.
  { right. left. repeat split; lia. }
  destruct (c <? 0x10000) eqn:E9.
  { right. right. left.
    destruct (decode_format_04x c) as (h1 & h2 & h3 & h4 & Hf & Hd); [lia|].
    exists h1, h2, h3, h4. by rewrite /u_escape Hf. }
  right. right. right.
  assert (0x10000 ≤ c < 0x110000) as Hr by lia.
  cbn zeta. rewrite high_surrogate_of // low_surrogate_of.
  destruct (decode_format_04x (0xD800 + (c - 0x10000) / 1024))
    as (h1 & h2 & h3 & h4 & Hf & Hd); [lia_div|].
  destruct (decode_format_04x (0xDC00 + (c - 0x10000) mod 1024))
    as (l1 & l2 & l3 & l4 & Hf' & Hd'); [lia_div|].
  exists h1, h2, h3, h4, l1, l2, l3, l4. do 2 eexists.
  rewrite /u_escape Hf Hf'. split; [done|].
  split; [exact Hd|]. split; [unfold is_high_surrogate; lia_div|].
  split; [exact Hd'|]. split; [unfold is_low_surrogate; lia_div|].
  by apply join_surrogates_of.
Qed.

Lemma escaped_no_low_escape s rest l1 l2 l3 l4 r3 :
  Forall (λ c, is_codepoint c = true) s →
  (∀ c, head s = Some c → is_low_surrogate c = false) →
  flat_map escape_char s ++ 0x22 :: rest
  = 0x5C :: 0x75 :: l1 :: l2 :: l3 :: l4 :: r3 →
  ∃ uni2, decode_uXXXX l1 l2 l3 l4 = Some uni2 ∧ is_low_surrogate uni2 = false.
Proof.
  intros Hs Hhead. destruct s as [|c s]; [done|].
  apply Forall_cons in Hs as [Hc _]. specialize (Hhead c eq_refl). simpl.
  destruct (escape_char_cases c Hc)
    as [(esc & -> & Hesc & _)
       |[(-> & _ & Hbs & _)
        |[(h1 & h2 & h3 & h4 & -> & Hd)
         |(h1 & h2 & h3 & h4 & ? & ? & ? & ? & hi & lo & -> & Hd & Hhi & _)]]];
    simpl; intros [= ]; simplify_eq.
  - by exists c.
  - exists hi. split; [done|].
    unfold is_high_surrogate, is_low_surrogate in *. lia.
Qed.

Lemma has_surrogate_pair_cons c s :
  has_surrogate_pair (c :: s) = false →
  has_surrogate_pair s = false
  ∧ (is_high_surrogate c = true → ∀ c', head s = Some c' → is_low_surrogate c' = false).
Proof.
  simpl. destruct s as [|c' s]; [done|].
  intros [H1 H2]%orb_false_iff. split; [done|].
  intros Hc ? [= <-]. by rewrite Hc in H1.
Qed.

(** Scanning an encoded string gives the string back, unless it holds a
    high surrogate directly followed by a low one. *)
Lemma scanstring_escaped s rest :
  Forall (λ c, is_codepoint c = true) s →
  has_surrogate_pair s = false →
  scanstring (flat_map escape_char s ++ 0x22 :: rest) = Some (s, rest).
Proof.
  induction 1 as [|c s Hc Hs IH]; intros Hpair; [done|].
  apply has_surrogate_pair_cons in Hpair as [Hpair Hnext].
  specialize (IH Hpair). simpl. rewrite -app_assoc.
  destruct (escape_char_cases c Hc)
    as [(esc & -> & Hesc & Hbs)
       |[(-> & ? & ? & ?)
        |[(h1 & h2 & h3 & h4 & -> & Hd)
         |(h1 & h2 & h3 & h4 & l1 & l2 & l3 & l4 & hi & lo & -> & Hd & Hhi
           & Hd' & Hlo & <-)]]].
  - by apply scanstring_simple.
  - by apply scanstring_plain.
  - destruct (is_high_surrogate c) eqn:Eh.
    + apply scanstring_u_high; [done| |done].
      intros. eapply escaped_no_low_escape; [exact Hs| |done]. by apply Hnext.
    + by apply scanstring_u.
  - by apply scanstring_pair.
Qed.

Lemma encode_basestring_ascii_scanned s rest :
  Forall (λ c, is_codepoint c = true) s →
  has_surrogate_pair s = false →
  ∃ body, encode_basestring_ascii s ++ rest = 0x22 :: body
          ∧ scanstring body = Some (s, rest).
Proof.
  intros Hs Hpair. exists (flat_map escape_char s ++ 0x22 :: rest). split.
  - by rewrite /encode_basestring_ascii /= -app_assoc.
  - by apply scanstring_escaped.
Qed.

(** ** Numbers: [int.__repr__], [float.__repr__] and [match_number] *)

Lemma span_digits_spec s :
  ∃ ds r, span_digits s = (ds, r) ∧ s = ds ++ r
          ∧ Forall (λ c, is_digit c = true) ds ∧ not_digit_next r.
Proof.
  induction s as [|c s (ds & r & IH & -> & Hds & Hr)]; simpl.
  - exists [], []. by repeat split.
  - destruct (is_digit c) eqn:E.
    + rewrite IH. exists (c :: ds), r. repeat split; [by constructor|done].
    + exists [], (c :: ds ++ r). repeat split; [constructor|].
      by intros ? [= <-].
Qed.

Lemma span_digits_app ds rest :
  Forall (λ c, is_digit c = true) ds → not_digit_next rest →
  span_digits (ds ++ rest) = (ds, rest).
Proof.
  intros Hds Hrest. induction Hds as [|c ds Hc Hds IH]; simpl.
  - destruct rest as [|c r]; [done|]. simpl. by rewrite (Hrest c).
  - by rewrite Hc IH.
Qed.

Lemma delimited_not_digit_next rest : delimited rest → not_digit_next rest.
Proof.
  destruct rest as [|c r]; [done|]. simpl. by intros [->| ->] ? [= <-].
Qed.

Lemma not_digit_next_app r rest :
  not_digit_next r → not_digit_next rest → not_digit_next (r ++ rest).
Proof. destruct r; [done|]. intros H _. exact H. Qed.

Lemma span_digits_extend s ds r rest :
  span_digits s = (ds, r) → not_digit_next rest →
  span_digits (s ++ rest) = (ds, r ++ rest) ∧ s = ds ++ r.
Proof.
  intros Hs Hrest.
  destruct (span_digits_spec s) as (ds' & r' & Hs' & -> & Hds & Hr).
  rewrite Hs' in Hs. injection Hs as -> ->. split; [|done].
  rewrite -app_assoc. apply span_digits_app; [done|].
  by apply not_digit_next_app.
Qed.

Lemma match_integer_extend s integer r rest :
  match_integer s = Some (integer, r) → not_digit_next rest →
  match_integer (s ++ rest) = Some (integer, r ++ rest)
  ∧ s = integer ++ r
  ∧ ∃ c i', integer = c :: i' ∧ (c = 0x2D ∨ is_digit c = true).
Proof.
  intros Hs Hrest. unfold match_integer in *.
  destruct s as [|c s]; [done|]. simpl in *.
  destruct (c =? 0x2D) eqn:Ec.
  - assert (c = 0x2D) as -> by lia.
    destruct s as [|c1 s]; [done|]. simpl in *.
    destruct (c1 =? 0x30) eqn:E0.
    { injection Hs as <- <-. repeat split; eauto. }
    destruct (is_digit c1) eqn:Ed; [|done].
    destruct (span_digits s) as [ds r'] eqn:Es. injection Hs as <- <-.
    destruct (span_digits_extend _ _ _ _ Es Hrest) as [-> ->].
    repeat split; eauto.
  - destruct (c =? 0x30) eqn:E0.
    { injection Hs as <- <-. split; [done|]. split; [done|].
      exists c, []. split; [done|]. right. unfold is_digit. lia. }
    destruct (is_digit c) eqn:Ed; [|done].
    destruct (span_digits s) as [ds r'] eqn:Es. injection Hs as <- <-.
    destruct (span_digits_extend _ _ _ _ Es Hrest) as [-> ->].
    repeat split; eauto.
Qed.

Lemma match_frac_extend s frac r rest :
  match_frac s = (frac, r) → delimited rest →
  match_frac (s ++ rest) = (frac, r ++ rest) ∧ s = frac ++ r.
Proof.
  intros Hs Hrest. unfold match_frac in *.
  destruct s as [|c s]; simpl in *.
  - injection Hs as <- <-. split; [|done].
    destruct rest as [|c r]; [done|]. simpl in Hrest.
    by assert ((c =? 0x2E) = false) as -> by lia.
  - destruct (c =? 0x2E) eqn:Ec; [|by injection Hs as <- <-].
    destruct (span_digits s) as [ds r'] eqn:Es.
    destruct (span_digits_extend _ _ _ _ Es (delimited_not_digit_next _ Hrest))
      as [-> ->].
    destruct ds; by injection Hs as <- <-.
Qed.

Lemma match_exp_extend s exp r rest :
  match_exp s = (exp, r) → delimited rest →
  match_exp (s ++ rest) = (exp, r ++ rest) ∧ s = exp ++ r.
Proof.
  intros Hs Hrest. pose proof (delimited_not_digit_next _ Hrest) as Hnd.
  unfold match_exp in *.
  destruct s as [|c s]; simpl in *.
  - injection Hs as <- <-. split; [|done].
    destruct rest as [|c r]; [done|]. simpl in Hrest.
    by assert ((c =? 0x65) || (c =? 0x45) = false) as -> by lia.
  - destruct ((c =? 0x65) || (c =? 0x45)) eqn:Ec; [|by injection Hs as <- <-].
    destruct s as [|g s]; simpl in *.
    + injection Hs as <- <-. split; [|done].
      destruct rest as [|g r]; [done|]. simpl in Hrest.
      assert ((g =? 0x2D) || (g =? 0x2B) = false) as -> by lia.
      rewrite (span_digits_app [] (g :: r)) //.
    + destruct ((g =? 0x2D) || (g =? 0x2B)) eqn:Eg.
      * destruct (span_digits s) as [ds r'] eqn:Es.
        destruct (span_digits_extend _ _ _ _ Es Hnd) as [-> ->].
        destruct ds; by injection Hs as <- <-.
      * destruct (span_digits (g :: s)) as [ds r'] eqn:Es.
        destruct (span_digits_extend _ _ _ _ Es Hnd) as [Hext Heq].
        rewrite app_comm_cons Hext. rewrite Heq in Hs |- *.
        destruct ds; by injection Hs as <- <-.
Qed.

Lemma match_number_extend s integer frac exp r rest :
  match_number s = Some (integer, frac, exp, r) → delimited rest →
  match_number (s ++ rest) = Some (integer, frac, exp, r ++ rest)
  ∧ s = integer ++ frac ++ exp ++ r
  ∧ ∃ c s', s = c :: s' ∧ (c = 0x2D ∨ is_digit c = true).
Proof.
  intros Hs Hrest. unfold match_number in *.
  destruct (match_integer s) as [[i r1]|] eqn:Ei; [|done].
  destruct (match_frac r1) as [fr r2] eqn:Ef.
  destruct (match_exp r2) as [ex r3] eqn:Ee.
  injection Hs as -> -> -> ->.
  destruct (match_exp_extend _ _ _ _ Ee Hrest) as [Ee' ->].
  destruct (match_frac_extend _ _ _ _ Ef Hrest) as [Ef' ->].
  destruct (match_integer_extend _ _ _ _ Ei (delimited_not_digit_next _ Hrest))
    as (Ei' & -> & c & i' & -> & Hc).
  rewrite Ei' Ef' Ee'. repeat split. eauto.
Qed.

(** A match of [NUMBER_RE] with nothing left over. *)
Lemma match_number_whole s integer frac exp rest :
  match_number s = Some (integer, frac, exp, []) → delimited rest →
  match_number (s ++ rest) = Some (integer, frac, exp, rest)
  ∧ s = integer ++ frac ++ exp
  ∧ ∃ c s', s = c :: s' ∧ (c = 0x2D ∨ is_digit c = true).
Proof.
  intros Hs Hrest.
  destruct (match_number_extend _ _ _ _ _ _ Hs Hrest) as (H1 & H2 & H3).
  by rewrite !app_nil_r in H2.
Qed.

Lemma chars_uint_uint_chars d : chars_uint (uint_chars d) = d.
Proof. induction d; simpl; congruence. Qed.

Lemma N_to_uint_normal n : N.to_uint n = unorm (N.to_uint n).
Proof.
  by rewrite -{1}(DecimalN.Unsigned.of_to n) DecimalN.Unsigned.to_of.
Qed.

(** A decimal numeral is [0], or starts with a digit other than [0]. *)
Lemma N_to_uint_chars n :
  uint_chars (N.to_uint n) = [0x30]
  ∨ ∃ c ds, uint_chars (N.to_uint n) = c :: ds
            ∧ is_digit c = true ∧ c ≠ 0x30
            ∧ Forall (λ c, is_digit c = true) ds.
Proof.
  rewrite N_to_uint_normal. unfold unorm.
  pose proof (nzhead_nonzero (N.to_uint n)) as Hnz.
  destruct (nzhead (N.to_uint n)) as [|d|d|d|d|d|d|d|d|d|d] eqn:E;
    [by left | exfalso; by eapply Hnz | right..];
    eexists _, _; (split; [done|]); repeat split; try done;
    apply uint_chars_digits.
Qed.

Lemma match_number_digits s :
  uint_chars (N.to_uint s) ≠ [] →
  match_number (uint_chars (N.to_uint s)) = Some (uint_chars (N.to_uint s), [], [], [])
  ∧ match_number (0x2D :: uint_chars (N.to_uint s))
    = Some (0x2D :: uint_chars (N.to_uint s), [], [], []).
Proof.
  intros _. unfold match_number, match_integer.
  destruct (N_to_uint_chars s) as [->|(c & ds & -> & Hc & Hc0 & Hds)]; [done|].
  simpl. unfold is_digit in Hc.
  assert ((c =? 0x2D) = false) as -> by lia.
  assert ((c =? 0x30) = false) as -> by lia.
  unfold is_digit at 1 2. rewrite Hc.
  rewrite -{1 3}(app_nil_r ds) span_digits_app //.
Qed.

Lemma match_number_int_repr z :
  match_number (int_repr z) = Some (int_repr z, [], [], []).
Proof.
  unfold int_repr. destruct (z <? 0)%Z; apply match_number_digits;
    apply uint_chars_nonnil; rewrite N_to_uint_normal; apply unorm_nonnil.
Qed.

Lemma parse_int_int_repr z : parse_int (int_repr z) = z.
Proof.
  unfold int_repr, parse_int. destruct (z <? 0)%Z eqn:Ez.
  - change (0x2D =? 0x2D) with true. cbn iota.
    rewrite chars_uint_uint_chars DecimalN.Unsigned.of_to. lia.
  - destruct (N_to_uint_chars (Z.to_N z)) as [E|(c & ds & E & Hc & _)].
    + rewrite {1}E. change (0x30 =? 0x2D) with false. cbn iota.
      rewrite chars_uint_uint_chars DecimalN.Unsigned.of_to. lia.
    + rewrite {1}E. unfold is_digit in Hc.
      assert ((c =? 0x2D) = false) as -> by lia.
      rewrite chars_uint_uint_chars DecimalN.Unsigned.of_to. lia.
Qed.

(** ** Values: [iterencode] and [scan_once] *)

Lemma startswith_head_ne c r prefix p ps :
  prefix = p :: ps → c ≠ p → startswith (c :: r) prefix = false.
Proof. intros -> Hc. simpl. by assert ((c =? p) = false) as -> by lia. Qed.

Lemma number_start_not_keyword c r :
  c = 0x2D ∨ is_digit c = true →
  startswith (c :: r) (lit "null") = false
  ∧ startswith (c :: r) (lit "true") = false
  ∧ startswith (c :: r) (lit "false") = false.
Proof.
  unfold is_digit. intros Hc. split; [|split].
  - apply (startswith_head_ne _ _ _ 0x6E (lit "ull")); [reflexivity | lia].
  - apply (startswith_head_ne _ _ _ 0x74 (lit "rue")); [reflexivity | lia].
  - apply (startswith_head_ne _ _ _ 0x66 (lit "alse")); [reflexivity | lia].
Qed.

Lemma scan_once_constant fuel depth rest :
  scan_once (S fuel) depth (lit "null" ++ rest) = Scanned PyNone rest
  ∧ scan_once (S fuel) depth (lit "true" ++ rest) = Scanned (PyBool true) rest
  ∧ scan_once (S fuel) depth (lit "false" ++ rest) = Scanned (PyBool false) rest
  ∧ scan_once (S fuel) depth (lit "NaN" ++ rest) = Scanned (PyFloat S754_nan) rest
  ∧ scan_once (S fuel) depth (lit "Infinity" ++ rest)
    = Scanned (PyFloat (S754_infinity false)) rest
  ∧ scan_once (S fuel) depth (lit "-Infinity" ++ rest)
    = Scanned (PyFloat (S754_infinity true)) rest.
Proof. repeat split; reflexivity. Qed.

Local Opaque startswith.

Lemma scan_once_number fuel depth s integer frac exp rest :
  match_number s = Some (integer, frac, exp, rest) →
  (∃ c r, s = c :: r ∧ (c = 0x2D ∨ is_digit c = true)) →
  scan_once (S fuel) depth s =
    match frac, exp with
    | [], [] =>
        if exceeds_int_max_str_digits (int_digits integer) then TooManyDigits
        else Scanned (PyInt (parse_int integer)) rest
    | _, _ => Scanned (PyFloat (float_of_literal (integer ++ frac ++ exp))) rest
    end.
Proof.
  intros Hm (c & r & -> & Hc).
  destruct (number_start_not_keyword c r Hc) as (H1 & H2 & H3).
  simpl. rewrite H1 H2 H3 Hm. unfold is_digit in Hc.
  assert ((c =? 0x22) = false) as -> by lia.
  assert ((c =? 0x7B) = false) as -> by lia.
  by assert ((c =? 0x5B) = false) as -> by lia.
Qed.

Lemma scan_once_int fuel depth z rest :
  delimited rest →
  exceeds_int_max_str_digits (int_digits (int_repr z)) = false →
  scan_once (S fuel) depth (int_repr z ++ rest) = Scanned (PyInt z) rest.
Proof.
  intros Hrest Hdigits.
  destruct (match_number_whole _ _ _ _ _ (match_number_int_repr z) Hrest)
    as (Hm & _ & c & r & Hs & Hc).
  rewrite (scan_once_number _ _ _ _ _ _ _ Hm).
  - by rewrite Hdigits parse_int_int_repr.
  - exists c, (r ++ rest). by rewrite Hs.
Qed.

Lemma scan_once_float fuel depth f rest :
  float_roundtrips f → delimited rest →
  scan_once (S fuel) depth (floatstr f ++ rest) = Scanned (PyFloat f) rest.
Proof.
  intros Hf Hrest. destruct f as [s|s| |s m e]; unfold floatstr; simpl in Hf.
  - destruct Hf as [Hlit Hback]. unfold is_float_literal in Hlit.
    destruct (match_number (float_repr (S754_zero s)))
      as [[[[i fr] ex] [|??]]|] eqn:E; try done.
    destruct (match_number_whole _ _ _ _ _ E Hrest)
      as (Hm & Hs & c & r & Hcr & Hc).
    rewrite (scan_once_number _ _ _ _ _ _ _ Hm).
    2: { exists c, (r ++ rest). by rewrite Hcr. }
    rewrite -Hs Hback. by destruct fr, ex.
  - destruct s; apply scan_once_constant.
  - apply scan_once_constant.
  - destruct Hf as [Hlit Hback]. unfold is_float_literal in Hlit.
    destruct (match_number (float_repr (S754_finite s m e)))
      as [[[[i fr] ex] [|??]]|] eqn:E; try done.
    destruct (match_number_whole _ _ _ _ _ E Hrest)
      as (Hm & Hs & c & r & Hcr & Hc).
    rewrite (scan_once_number _ _ _ _ _ _ _ Hm).
    2: { exists c, (r ++ rest). by rewrite Hcr. }
    rewrite -Hs Hback. by destruct fr, ex.
Qed.

Local Transparent startswith.

Lemma pyobj_ind (P : pyobj → Prop) :
  P PyNone → (∀ b, P (PyBool b)) → (∀ z, P (PyInt z)) → (∀ f, P (PyFloat f)) →
  (∀ s, P (PyStr s)) →
  (∀ items, Forall P items → P (PyList items)) →
  (∀ items, Forall (λ kv, P kv.2) items → P (PyDict items)) →
  ∀ o, P o.
Proof.
  intros HN HB HI HF HS HL HD. fix IH 1.
  intros [|b|z|f|s|items|items]; [done..| |].
  - apply HL. revert items. fix IHl 1. intros [|x items]; constructor.
    + apply IH.
    + apply IHl.
  - apply HD. revert items. fix IHl 1. intros [|[k x] items]; constructor.
    + apply IH.
    + apply IHl.
Qed.

(** *** One step of each scanner *)

Lemma scan_once_string fuel depth r :
  scan_once (S fuel) depth (0x22 :: r) =
    match scanstring r with
    | Some (str, rest) => Scanned (PyStr str) rest
    | None => DecodeError
    end.
Proof. reflexivity. Qed.

Lemma scan_once_too_deep fuel r :
  scan_once (S fuel) 0 (0x5B :: r) = TooDeep
  ∧ scan_once (S fuel) 0 (0x7B :: r) = TooDeep.
Proof. split; reflexivity. Qed.

Lemma scan_once_array fuel depth r :
  scan_once (S fuel) (S depth) (0x5B :: r) =
    match skip_ws r with
    | c' :: r' =>
        if c' =? 0x5D then Scanned (PyList []) r'
        else
          match array_items fuel depth (c' :: r') with
          | Scanned items rest => Scanned (PyList items) rest
          | DecodeError => DecodeError
          | TooDeep => TooDeep
          | TooManyDigits => TooManyDigits
          | OutOfFuel => OutOfFuel
          end
    | [] => DecodeError
    end.
Proof. reflexivity. Qed.

Lemma scan_once_object fuel depth r :
  scan_once (S fuel) (S depth) (0x7B :: r) =
    match skip_ws r with
    | c' :: r' =>
        if c' =? 0x7D then Scanned (PyDict []) r'
        else
          match object_pairs fuel depth (c' :: r') with
          | Scanned pairs rest => Scanned (PyDict (dict_of_pairs pairs)) rest
          | DecodeError => DecodeError
          | TooDeep => TooDeep
          | TooManyDigits => TooManyDigits
          | OutOfFuel => OutOfFuel
          end
    | [] => DecodeError
    end.
Proof. reflexivity. Qed.

Lemma array_items_S fuel depth s :
  array_items (S fuel) depth s =
    match scan_once fuel depth s with
    | Scanned value rest =>
        match skip_ws rest with
        | c :: r =>
            if c =? 0x5D then Scanned [value] r
            else if c =? 0x2C then
              match array_items fuel depth (skip_ws r) with
              | Scanned values rest' => Scanned (value :: values) rest'
              | DecodeError => DecodeError
              | TooDeep => TooDeep
              | TooManyDigits => TooManyDigits
              | OutOfFuel => OutOfFuel
              end
            else DecodeError
        | [] => DecodeError
        end
    | DecodeError => DecodeError
    | TooDeep => TooDeep
    | TooManyDigits => TooManyDigits
    | OutOfFuel => OutOfFuel
    end.
Proof. reflexivity. Qed.

Lemma object_pairs_S fuel depth r :
  object_pairs (S fuel) depth (0x22 :: r) =
    match scanstring r with
    | Some (key, r1) =>
        match skip_ws r1 with
        | c :: r2 =>
            if c =? 0x3A then
              match scan_once fuel depth (skip_ws r2) with
              | Scanned value r3 =>
                  match skip_ws r3 with
                  | c' :: r4 =>
                      if c' =? 0x7D then Scanned [(key, value)] r4
                      else if c' =? 0x2C then
                        match object_pairs fuel depth (skip_ws r4) with
                        | Scanned pairs rest => Scanned ((key, value) :: pairs) rest
                        | DecodeError => DecodeError
                        | TooDeep => TooDeep
                        | TooManyDigits => TooManyDigits
                        | OutOfFuel => OutOfFuel
                        end
                      else DecodeError
                  | [] => DecodeError
                  end
              | DecodeError => DecodeError
              | TooDeep => TooDeep
              | TooManyDigits => TooManyDigits
              | OutOfFuel => OutOfFuel
              end
            else DecodeError
        | [] => DecodeError
        end
    | None => DecodeError
    end.
Proof. reflexivity. Qed.

(** *** Whitespace and first characters *)

Lemma skip_ws_start c r : json_ws c = false → skip_ws (c :: r) = c :: r.
Proof. intros H. by rewrite /skip_ws /= H. Qed.

Lemma skip_ws_newline_indent level s :
  skip_ws (newline_indent level ++ s) = skip_ws s.
Proof.
  unfold newline_indent, skip_ws. generalize (2 * level)%nat. intros n.
  change (lstrip_by json_ws (replicate n 0x20 ++ s) = lstrip_by json_ws s).
  induction n as [|n IH]; [done|]. exact IH.
Qed.

Lemma value_start_facts c :
  value_start c = true →
  json_ws c = false ∧ (c =? 0x5D) = false ∧ (c =? 0x7D) = false
  ∧ (c =? 0x2C) = false ∧ (c =? 0xFEFF) = false.
Proof. unfold value_start, json_ws, is_digit. lia. Qed.

Lemma int_repr_head z :
  ∃ c r, int_repr z = c :: r ∧ value_start c = true.
Proof.
  unfold int_repr. destruct (z <? 0)%Z; [by eexists _, _|].
  destruct (N_to_uint_chars (Z.to_N z)) as [->|(c & ds & -> & Hc & _)].
  - by eexists _, _.
  - exists c, ds. split; [done|]. unfold value_start. rewrite Hc. lia.
Qed.

Lemma iterencode_head level o :
  well_formed o → ∃ c r, iterencode level o = c :: r ∧ value_start c = true.
Proof.
  destruct 1 as [|b|z|f Hf|s Hs|items Hitems|items Hnd Hitems]; simpl.
  - by eexists _, _.
  - destruct b; by eexists _, _.
  - apply int_repr_head.
  - destruct f as [s|s| |s m e]; simpl in *.
    + destruct Hf as [Hlit _]. unfold is_float_literal in Hlit.
      destruct (match_number (float_repr (S754_zero s)))
        as [[[[i fr] ex] [|??]]|] eqn:E; try done.
      destruct (match_number_whole _ _ _ _ [] E I) as (_ & _ & c & r & -> & Hc).
      exists c, r. split; [done|]. unfold value_start, is_digit in *. lia.
    + destruct s; by eexists _, _.
    + by eexists _, _.
    + destruct Hf as [Hlit _]. unfold is_float_literal in Hlit.
      destruct (match_number (float_repr (S754_finite s m e)))
        as [[[[i fr] ex] [|??]]|] eqn:E; try done.
      destruct (match_number_whole _ _ _ _ [] E I) as (_ & _ & c & r & -> & Hc).
      exists c, r. split; [done|]. unfold value_start, is_digit in *. lia.
  - by eexists _, _.
  - destruct items; by eexists _, _.
  - destruct items; by eexists _, _.
Qed.

Lemma skip_ws_iterencode level o s :
  well_formed o → skip_ws (iterencode level o ++ s) = iterencode level o ++ s.
Proof.
  intros (c & r & -> & Hc)%(iterencode_head level).
  apply skip_ws_start. by apply value_start_facts.
Qed.

(** *** Dictionaries with distinct keys *)

Lemma dict_set_fresh d k v : k ∉ d.*1 → dict_set d k v = d ++ [(k, v)].
Proof.
  induction d as [|[k' v'] d IH]; simpl; [done|].
  intros [Hne Hd]%not_elem_of_cons. rewrite decide_False; [|congruence].
  by rewrite IH.
Qed.

Lemma dict_of_pairs_distinct pairs : NoDup pairs.*1 → dict_of_pairs pairs = pairs.
Proof.
  unfold dict_of_pairs.
  assert (∀ acc, NoDup (acc.*1 ++ pairs.*1) →
            foldl (λ d kv, dict_set d kv.1 kv.2) acc pairs = acc ++ pairs) as H.
  { induction pairs as [|[k v] pairs IH]; intros acc Hnd; simpl.
    - by rewrite app_nil_r.
    - rewrite dict_set_fresh.
      + rewrite IH; [|by rewrite fmap_app -app_assoc].
        by rewrite -app_assoc.
      + apply NoDup_app in Hnd as (_ & Hnd & _). intros Hk.
        apply (Hnd k Hk). left. }
  intros Hnd. by apply (H []).
Qed.

(** *** Arrays and objects *)

Lemma join_cons sep c cs : join sep (c :: cs) = c ++ flat_map (λ x, sep ++ x) cs.
Proof. reflexivity. Qed.

Lemma array_items_last fuel depth s value T rest :
  scan_once fuel depth s = Scanned value T → skip_ws T = 0x5D :: rest →
  array_items (S fuel) depth s = Scanned [value] rest.
Proof. intros Hs HT. by rewrite array_items_S Hs HT. Qed.

Lemma array_items_more fuel depth s value r values rest :
  scan_once fuel depth s = Scanned value (0x2C :: r) →
  array_items fuel depth (skip_ws r) = Scanned values rest →
  array_items (S fuel) depth s = Scanned (value :: values) rest.
Proof. intros Hs Hr. rewrite array_items_S Hs. cbn. by rewrite Hr. Qed.

Lemma array_items_encoded level items :
  items ≠ [] →
  Forall well_formed items →
  Forall (λ o, ∀ level rest fuel depth,
            delimited rest → (fuel_needed o ≤ fuel)%nat →
            within_limits depth o = true →
            scan_once fuel depth (iterencode level o ++ rest) = Scanned o rest)
    items →
  ∀ rest fuel depth,
    (foldr (λ x acc, S (fuel_needed x + acc)) 0 items ≤ fuel)%nat →
    forallb (within_limits depth) items = true →
    array_items fuel depth
      (join (0x2C :: newline_indent (S level)) (map (iterencode (S level)) items)
       ++ newline_indent level ++ 0x5D :: rest)
    = Scanned items rest.
Proof.
  induction items as [|v vs IH]; [done|]. intros _ Hwf Hall.
  apply Forall_cons in Hwf as [Hv Hvs]. apply Forall_cons in Hall as [Pv Pvs].
  intros rest fuel depth Hfuel Hdepth. cbn [foldr] in Hfuel.
  cbn [forallb] in Hdepth. apply andb_true_iff in Hdepth as [Hdv Hdvs].
  destruct fuel as [|fuel]; [lia|].
  rewrite map_cons join_cons -app_assoc.
  destruct vs as [|v' vs'].
  - eapply array_items_last.
    + apply Pv; [by right | lia | done].
    + by rewrite /= skip_ws_newline_indent skip_ws_start.
  - rewrite map_cons. cbn [flat_map]. rewrite -!app_assoc -app_comm_cons.
    eapply array_items_more.
    + apply Pv; [by left | lia | done].
    + rewrite skip_ws_newline_indent skip_ws_iterencode.
      2: { by apply Forall_cons in Hvs as [? _]. }
      rewrite app_assoc -join_cons -map_cons.
      apply IH; [done..|lia|done].
Qed.

Lemma object_pairs_last fuel depth r key r1 r2 value T rest :
  scanstring r = Some (key, r1) → skip_ws r1 = 0x3A :: r2 →
  scan_once fuel depth (skip_ws r2) = Scanned value T → skip_ws T = 0x7D :: rest →
  object_pairs (S fuel) depth (0x22 :: r) = Scanned [(key, value)] rest.
Proof.
  intros Hr H1 Hv HT. rewrite object_pairs_S Hr H1. cbn. by rewrite Hv HT.
Qed.

Lemma object_pairs_more fuel depth r key r1 r2 value r4 pairs rest :
  scanstring r = Some (key, r1) → skip_ws r1 = 0x3A :: r2 →
  scan_once fuel depth (skip_ws r2) = Scanned value (0x2C :: r4) →
  object_pairs fuel depth (skip_ws r4) = Scanned pairs rest →
  object_pairs (S fuel) depth (0x22 :: r) = Scanned ((key, value) :: pairs) rest.
Proof.
  intros Hr H1 Hv Hp. rewrite object_pairs_S Hr H1. cbn. rewrite Hv. cbn.
  by rewrite Hp.
Qed.

Lemma object_pairs_encoded level items :
  items ≠ [] →
  Forall (λ kv, Forall (λ c, is_codepoint c = true) kv.1
                ∧ has_surrogate_pair kv.1 = false ∧ well_formed kv.2) items →
  Forall (λ kv, ∀ level rest fuel depth,
            delimited rest → (fuel_needed kv.2 ≤ fuel)%nat →
            within_limits depth kv.2 = true →
            scan_once fuel depth (iterencode level kv.2 ++ rest)
            = Scanned kv.2 rest)
    items →
  ∀ rest fuel depth,
    (foldr (λ kv acc, S (fuel_needed kv.2 + acc)) 0 items ≤ fuel)%nat →
    forallb (λ kv, within_limits depth kv.2) items = true →
    object_pairs fuel depth
      (join (0x2C :: newline_indent (S level))
         (map (λ kv, encode_basestring_ascii kv.1 ++ lit ": "
                     ++ iterencode (S level) kv.2) items)
       ++ newline_indent level ++ 0x7D :: rest)
    = Scanned items rest.
Proof.
  induction items as [|[k v] kvs IH]; [done|]. intros _ Hwf Hall.
  apply Forall_cons in Hwf as [(Hk & Hkp & Hv) Hkvs].
  apply Forall_cons in Hall as [Pv Pkvs].
  intros rest fuel depth Hfuel Hdepth. cbn [foldr snd] in Hfuel.
  cbn [forallb] in Hdepth. apply andb_true_iff in Hdepth as [Hdv Hdkvs].
  cbn [fst snd] in *.
  destruct fuel as [|fuel]; [lia|].
  rewrite map_cons join_cons. cbn [fst snd]. rewrite -!app_assoc.
  change (lit ": " ++ ?x) with (0x3A :: 0x20 :: x).
  destruct (encode_basestring_ascii_scanned k
              (0x3A :: 0x20 :: iterencode (S level) v
               ++ flat_map (λ x, (0x2C :: newline_indent (S level)) ++ x)
                    (map (λ kv, encode_basestring_ascii kv.1 ++ lit ": "
                                ++ iterencode (S level) kv.2) kvs)
               ++ newline_indent level ++ 0x7D :: rest) Hk Hkp)
    as (body & -> & Hbody).
  destruct kvs as [|[k' v'] kvs'].
  - eapply (object_pairs_last _ _ _ _ _ (0x20 :: _));
      [exact Hbody | reflexivity | |].
    + change (skip_ws (0x20 :: ?s)) with (skip_ws s).
      rewrite skip_ws_iterencode //. apply Pv; [by right | lia | done].
    + by rewrite /= skip_ws_newline_indent skip_ws_start.
  - rewrite map_cons in Hbody. cbn [flat_map fst snd] in Hbody.
    rewrite -!app_assoc -app_comm_cons in Hbody.
    eapply (object_pairs_more _ _ _ _ _ (0x20 :: _));
      [exact Hbody | reflexivity | |].
    + change (skip_ws (0x20 :: ?s)) with (skip_ws s).
      rewrite skip_ws_iterencode //. apply Pv; [by left | lia | done].
    + rewrite skip_ws_newline_indent.
      rewrite /encode_basestring_ascii -app_comm_cons (skip_ws_start 0x22) //.
      pose proof (IH ltac:(done) Hkvs Pkvs rest fuel depth) as IH'.
      rewrite map_cons join_cons in IH'. cbn [fst snd] in IH'.
      rewrite -!app_assoc in IH'. apply IH'; [|done]. clear -Hfuel. simpl in *. lia.
Qed.

(** *** Every value *)

Lemma scan_once_array_items fuel depth s X items rest :
  skip_ws s = X → (∃ c r, X = c :: r ∧ value_start c = true) →
  array_items fuel depth X = Scanned items rest →
  scan_once (S fuel) (S depth) (0x5B :: s) = Scanned (PyList items) rest.
Proof.
  intros Hs (c & r & -> & Hc) HA. rewrite scan_once_array Hs HA.
  by destruct (value_start_facts c Hc) as (_ & -> & _).
Qed.

Lemma scan_once_object_pairs fuel depth level X pairs rest :
  (∃ r, X = 0x22 :: r) →
  object_pairs fuel depth X = Scanned pairs rest →
  scan_once (S fuel) (S depth) (0x7B :: newline_indent level ++ X)
  = Scanned (PyDict (dict_of_pairs pairs)) rest.
Proof.
  intros [r ->] HO.
  by rewrite scan_once_object skip_ws_newline_indent skip_ws_start // HO.
Qed.

Lemma iterencode_list level v vs :
  iterencode level (PyList (v :: vs))
  = 0x5B :: newline_indent (S level)
    ++ join (0x2C :: newline_indent (S level))
         (map (iterencode (S level)) (v :: vs))
    ++ newline_indent level ++ [0x5D].
Proof. reflexivity. Qed.

Lemma iterencode_dict level kv kvs :
  iterencode level (PyDict (kv :: kvs))
  = 0x7B :: newline_indent (S level)
    ++ join (0x2C :: newline_indent (S level))
         (map (λ kv, encode_basestring_ascii kv.1 ++ lit ": "
                     ++ iterencode (S level) kv.2) (kv :: kvs))
    ++ newline_indent level ++ [0x7D].
Proof. reflexivity. Qed.

Lemma iterencode_list_app level v vs rest :
  iterencode level (PyList (v :: vs)) ++ rest
  = 0x5B :: newline_indent (S level)
    ++ (join (0x2C :: newline_indent (S level))
          (map (iterencode (S level)) (v :: vs))
        ++ newline_indent level ++ 0x5D :: rest).
Proof.
  rewrite iterencode_list -app_comm_cons. f_equal.
  rewrite -(app_assoc (newline_indent _)). f_equal.
  rewrite -(app_assoc (join _ _)). f_equal.
  by rewrite -(app_assoc (newline_indent _)).
Qed.

Lemma iterencode_dict_app level kv kvs rest :
  iterencode level (PyDict (kv :: kvs)) ++ rest
  = 0x7B :: newline_indent (S level)
    ++ (join (0x2C :: newline_indent (S level))
          (map (λ kv, encode_basestring_ascii kv.1 ++ lit ": "
                      ++ iterencode (S level) kv.2) (kv :: kvs))
        ++ newline_indent level ++ 0x7D :: rest).
Proof.
  rewrite iterencode_dict -app_comm_cons. f_equal.
  rewrite -(app_assoc (newline_indent _)). f_equal.
  rewrite -(app_assoc (join _ _)). f_equal.
  by rewrite -(app_assoc (newline_indent _)).
Qed.

Lemma scan_once_array_items' fuel depth level X items rest :
  (∃ c r, X = c :: r ∧ value_start c = true) →
  array_items fuel depth X = Scanned items rest →
  scan_once (S fuel) (S depth) (0x5B :: newline_indent level ++ X)
  = Scanned (PyList items) rest.
Proof.
  intros (c & r & -> & Hc) HA. eapply scan_once_array_items; [|eauto|done].
  rewrite skip_ws_newline_indent. apply skip_ws_start.
  by apply value_start_facts.
Qed.

Lemma encoded_pairs_head level kv kvs T :
  ∃ r, join (0x2C :: newline_indent (S level))
         (map (λ kv, encode_basestring_ascii kv.1 ++ lit ": "
                     ++ iterencode (S level) kv.2) (kv :: kvs)) ++ T
       = 0x22 :: r.
Proof. by eexists. Qed.

Lemma within_limits_int depth z :
  within_limits depth (PyInt z)
  = negb (exceeds_int_max_str_digits (int_digits (int_repr z))).
Proof. by destruct depth. Qed.

Lemma within_limits_list depth items :
  within_limits (S depth) (PyList items) = forallb (within_limits depth) items.
Proof. reflexivity. Qed.

Lemma within_limits_dict depth items :
  within_limits (S depth) (PyDict items)
  = forallb (λ kv, within_limits depth kv.2) items.
Proof. reflexivity. Qed.

Lemma within_limits_nested depth o :
  within_limits depth o = true →
  match o with PyList _ | PyDict _ => ∃ depth', depth = S depth' | _ => True end.
Proof. destruct o, depth; try done; by eexists. Qed.

(** Scanning the encoding of a value gives the value back. *)
Lemma scan_once_encoded o :
  well_formed o → no_surrogate_pairs o = true →
  ∀ level rest fuel depth,
    delimited rest → (fuel_needed o ≤ fuel)%nat →
    within_limits depth o = true →
    scan_once fuel depth (iterencode level o ++ rest) = Scanned o rest.
Proof.
  induction o as [|b|z|f|s|items IH|items IH] using pyobj_ind;
    intros Hwf Hnsp level rest fuel depth Hrest Hfuel Hdepth;
    (destruct fuel as [|fuel]; [simpl in Hfuel; lia|]).
  - apply scan_once_constant.
  - destruct b; apply scan_once_constant.
  - apply scan_once_int; [done|]. rewrite within_limits_int in Hdepth.
    by apply negb_true_iff in Hdepth.
  - inversion_clear Hwf. by apply scan_once_float.
  - inversion_clear Hwf as [| | | |? Hs| |].
    assert (has_surrogate_pair s = false) as Hp.
    { unfold no_surrogate_pairs in Hnsp. simpl in Hnsp.
      by destruct (has_surrogate_pair s). }
    destruct (encode_basestring_ascii_scanned s rest Hs Hp) as (body & Heq & Hb).
    cbn [iterencode]. by rewrite Heq scan_once_string Hb.
  - inversion_clear Hwf as [| | | | |? Hitems|].
    destruct (within_limits_nested _ _ Hdepth) as [depth' ->].
    rewrite within_limits_list in Hdepth.
    destruct items as [|v vs]; [reflexivity|].
    assert (Forall (λ o, ∀ level rest fuel depth,
              delimited rest → (fuel_needed o ≤ fuel)%nat →
              within_limits depth o = true →
              scan_once fuel depth (iterencode level o ++ rest) = Scanned o rest)
              (v :: vs)) as Hall.
    { unfold no_surrogate_pairs in Hnsp. cbn [all_strings] in Hnsp.
      apply forallb_Forall in Hnsp.
      rewrite ->Forall_forall in IH, Hitems, Hnsp |- *.
      intros o Ho. by apply IH; [|apply Hitems|apply Hnsp]. }
    pose proof (array_items_encoded level (v :: vs) ltac:(done) Hitems Hall
                  rest fuel depth') as HA.
    rewrite iterencode_list_app.
    apply Forall_cons in Hitems as [Hv _].
    apply scan_once_array_items'.
    + rewrite map_cons join_cons -app_assoc.
      destruct (iterencode_head (S level) v Hv) as (c & r & -> & Hc). eauto.
    + apply HA; [|done]. cbn [fuel_needed] in Hfuel. lia.
  - inversion_clear Hwf as [| | | | | |? Hnd Hitems].
    destruct (within_limits_nested _ _ Hdepth) as [depth' ->].
    rewrite within_limits_dict in Hdepth.
    destruct items as [|[k v] kvs]; [reflexivity|].
    unfold no_surrogate_pairs in Hnsp. cbn [all_strings] in Hnsp.
    apply forallb_Forall in Hnsp.
    assert (Forall (λ kv, Forall (λ c, is_codepoint c = true) kv.1
                          ∧ has_surrogate_pair kv.1 = false ∧ well_formed kv.2)
              ((k, v) :: kvs)) as Hwf.
    { rewrite ->Forall_forall in Hitems, Hnsp |- *. intros kv Hkv.
      destruct (Hitems kv Hkv) as [? ?]. specialize (Hnsp kv Hkv).
      apply andb_true_iff in Hnsp as [Hnsp _].
      repeat split; [done| |done]. by destruct (has_surrogate_pair kv.1). }
    assert (Forall (λ kv, ∀ level rest fuel depth,
              delimited rest → (fuel_needed kv.2 ≤ fuel)%nat →
              within_limits depth kv.2 = true →
              scan_once fuel depth (iterencode level kv.2 ++ rest)
              = Scanned kv.2 rest)
              ((k, v) :: kvs)) as Hall.
    { rewrite ->Forall_forall in IH, Hitems, Hnsp |- *. intros kv Hkv.
      destruct (Hitems kv Hkv) as [? ?]. specialize (Hnsp kv Hkv).
      apply andb_true_iff in Hnsp as [_ Hnsp]. by apply IH. }
    pose proof (object_pairs_encoded level ((k, v) :: kvs) ltac:(done) Hwf Hall
                  rest fuel depth') as HO.
    rewrite iterencode_dict_app.
    replace (PyDict ((k, v) :: kvs))
      with (PyDict (dict_of_pairs ((k, v) :: kvs)))
      by by rewrite dict_of_pairs_distinct.
    apply scan_once_object_pairs; [apply encoded_pairs_head|].
    apply HO; [|done]. cbn [fuel_needed] in Hfuel. lia.
Qed.

(** *** Fuel *)

Lemma length_newline_indent level : (1 ≤ length (newline_indent level))%nat.
Proof. simpl. lia. Qed.

Lemma length_join_ge {A} (f : A → pystr) (g : A → nat) sep items :
  (1 ≤ length sep)%nat →
  Forall (λ x, g x ≤ length (f x))%nat items →
  (foldr (λ x acc, S (g x + acc)) 0 items
   ≤ S (length (join sep (map f items))))%nat.
Proof.
  intros Hsep. destruct 1 as [|x items Hx Hitems]; [simpl; lia|].
  rewrite map_cons join_cons length_app. cbn [foldr].
  assert (foldr (λ x acc, S (g x + acc)) 0 items
          ≤ length (flat_map (λ x, sep ++ x) (map f items)))%nat; [|lia].
  induction Hitems as [|y items Hy Hitems IH]; [simpl; lia|].
  rewrite map_cons. cbn [flat_map foldr]. rewrite !length_app. lia.
Qed.

Lemma fuel_needed_list items :
  fuel_needed (PyList items)
  = S (foldr (λ x acc, S (fuel_needed x + acc)) 0%nat items).
Proof. reflexivity. Qed.

Lemma fuel_needed_dict items :
  fuel_needed (PyDict items)
  = S (foldr (λ kv acc, S (fuel_needed kv.2 + acc)) 0%nat items).
Proof. reflexivity. Qed.

Lemma fuel_needed_length level o :
  well_formed o → (fuel_needed o ≤ length (iterencode level o))%nat.
Proof.
  revert level. induction o as [|b|z|f|s|items IH|items IH] using pyobj_ind;
    intros level Hwf.
  1-5: destruct (iterencode_head level _ Hwf) as (c & r & -> & _); simpl; lia.
  - inversion_clear Hwf as [| | | | |? Hitems|].
    destruct items as [|v vs]; [simpl; lia|].
    pose proof (length_newline_indent (S level)).
    pose proof (length_newline_indent level).
    pose proof (length_join_ge (iterencode (S level)) fuel_needed
                  (0x2C :: newline_indent (S level)) (v :: vs)) as HJ.
    simpl length in HJ at 1. specialize (HJ ltac:(lia)).
    rewrite iterencode_list fuel_needed_list.
    remember (join _ _) as J eqn:EJ in *. rewrite length_cons !length_app.
    assert (Forall (λ x, fuel_needed x ≤ length (iterencode (S level) x))%nat
              (v :: vs)) as HF; [|specialize (HJ HF); lia].
    rewrite ->Forall_forall in IH, Hitems |- *. intros x Hx.
    by apply IH, Hitems.
  - inversion_clear Hwf as [| | | | | |? Hnd Hitems].
    destruct items as [|kv kvs]; [simpl; lia|].
    pose proof (length_newline_indent (S level)).
    pose proof (length_newline_indent level).
    pose proof (length_join_ge
                  (λ kv, encode_basestring_ascii kv.1 ++ lit ": "
                         ++ iterencode (S level) kv.2)
                  (λ kv, fuel_needed kv.2)
                  (0x2C :: newline_indent (S level)) (kv :: kvs)) as HJ.
    simpl length in HJ at 1. specialize (HJ ltac:(lia)).
    rewrite iterencode_dict fuel_needed_dict.
    remember (join _ _) as J eqn:EJ in *. rewrite length_cons !length_app.
    assert (Forall (λ kv, fuel_needed kv.2
                          ≤ length (encode_basestring_ascii kv.1 ++ lit ": "
                                    ++ iterencode (S level) kv.2))%nat
              (kv :: kvs)) as HF; [|specialize (HJ HF); lia].
    rewrite ->Forall_forall in IH, Hitems |- *. intros x Hx.
    rewrite !length_app. destruct (Hitems x Hx) as [_ Hwfx].
    specialize (IH x Hx (S level) Hwfx). lia.
Qed.

(** *** [json.loads] after [json.dump] *)

Lemma decode_json_dump o fuel depth :
  well_formed o → no_surrogate_pairs o = true →
  within_limits depth o = true →
  (length (json_dump o) ≤ fuel)%nat →
  decode fuel depth (json_dump o) = Scanned o [].
Proof.
  intros Hwf Hnsp Hdepth Hfuel. unfold decode, json_dump in *.
  pose proof (fuel_needed_length 0 o Hwf) as Hneed.
  pose proof (scan_once_encoded o Hwf Hnsp 0 [] fuel depth I ltac:(lia) Hdepth)
    as Hscan.
  rewrite app_nil_r in Hscan.
  assert (skip_ws (iterencode 0 o) = iterencode 0 o) as ->.
  { destruct (iterencode_head 0 o Hwf) as (c & r & -> & Hc).
    apply skip_ws_start. by apply value_start_facts. }
  by rewrite Hscan.
Qed.

Lemma json_loads_json_dump o :
  well_formed o → no_surrogate_pairs o = true →
  within_limits (Pos.to_nat recursion_limit) o = true →
  json_loads (json_dump o) = Some o.
Proof.
  intros Hwf Hnsp Hdepth. unfold json_loads, json_loads_outcome.
  assert (startswith (json_dump o) [0xFEFF] = false) as ->.
  { unfold json_dump.
    destruct (iterencode_head 0 o Hwf) as (c & r & -> & Hc).
    destruct (value_start_facts c Hc) as (_ & _ & _ & _ & Hbom).
    simpl. by rewrite Hbom. }
  rewrite decode_json_dump //. lia.
Qed.

(** ** What [json.loads] returns *)

Lemma BACKSLASH_codepoint esc ch : BACKSLASH esc = Some ch → is_codepoint ch = true.
Proof. unfold BACKSLASH. repeat case_match; by intros [= <-]. Qed.

Lemma decode_uXXXX_codepoint a b c d uni :
  decode_uXXXX a b c d = Some uni → is_codepoint uni = true.
Proof. intros H%decode_uXXXX_bound. unfold is_codepoint. lia. Qed.

Lemma join_surrogates_codepoint hi lo :
  is_high_surrogate hi = true → is_low_surrogate lo = true →
  is_codepoint (join_surrogates hi lo) = true.
Proof.
  intros Hhi Hlo. pose proof (join_surrogates_bound hi lo Hhi Hlo).
  unfold is_codepoint. lia.
Qed.

(** [scanstring] consumes text, and code points in give code points out.
    [scanned n Hc] closes the case where [n] characters were read and the
    character emitted is a code point by [Hc]. *)
Ltac scanned IH n Hc :=
  match goal with
  | H : match scanstring ?r with _ => _ end = Some _ |- _ =>
      let Er := fresh "Er" in
      destruct (scanstring r) as [[? ?]|] eqn:Er; [|discriminate H];
      injection H as <- <-;
      apply IH in Er as [Hlen Hval]; [|simpl; lia];
      split; [simpl in *; lia|];
      let Hs := fresh "Hs" in
      intros Hs; destruct Hval as [? ?];
      [exact (Forall_drop _ n _ Hs)|];
      split; [apply Forall_cons_2; [Hc Hs|assumption] | assumption]
  end.

Lemma scanstring_sound s str rest :
  scanstring s = Some (str, rest) →
  (length rest < length s)%nat
  ∧ (Forall (λ c, is_codepoint c = true) s →
     Forall (λ c, is_codepoint c = true) str
     ∧ Forall (λ c, is_codepoint c = true) rest).
Proof.
  revert str rest.
  induction s as [s IH] using (induction_ltof1 _ (@length N)).
  unfold ltof in IH. intros str rest H.
  destruct s as [|c r]; [done|]. simpl in H.
  destruct (c =? 0x22) eqn:E1.
  { injection H as <- <-. split; [simpl; lia|].
    intros Hs. split; [constructor | exact (Forall_drop _ 1 _ Hs)]. }
  destruct (c =? 0x5C) eqn:E2.
  2: { destruct (c <? 0x20); [done|]. scanned IH 1%nat ltac:(fun Hs => exact (Forall_inv Hs)). }
  destruct r as [|esc r1]; [done|].
  destruct (esc =? 0x75) eqn:E3.
  2: { destruct (BACKSLASH esc) as [ch|] eqn:Eb; [|done].
       scanned IH 2%nat ltac:(fun _ => exact (BACKSLASH_codepoint _ _ Eb)). }
  destruct r1 as [|h1 [|h2 [|h3 [|h4 r2]]]]; try done.
  destruct (decode_uXXXX h1 h2 h3 h4) as [uni|] eqn:Ed; [|done].
  pose proof (decode_uXXXX_codepoint _ _ _ _ _ Ed) as Huni.
  destruct (is_high_surrogate uni) eqn:Eh.
  2: { scanned IH 6%nat ltac:(fun _ => exact Huni). }
  destruct r2 as [|b [|u [|l1 [|l2 [|l3 [|l4 r3]]]]]].
  1-6: scanned IH 6%nat ltac:(fun _ => exact Huni).
  destruct ((b =? 0x5C) && (u =? 0x75)).
  2: { scanned IH 6%nat ltac:(fun _ => exact Huni). }
  destruct (decode_uXXXX l1 l2 l3 l4) as [uni2|] eqn:Ed2; [|done].
  destruct (is_low_surrogate uni2) eqn:El.
  2: { scanned IH 6%nat ltac:(fun _ => exact Huni). }
  scanned IH 12%nat
    ltac:(fun _ => exact (join_surrogates_codepoint _ _ Eh El)).
Qed.

Lemma skip_ws_sound x y :
  skip_ws x = y →
  (length y ≤ length x)%nat
  ∧ (Forall (λ c, is_codepoint c = true) x → Forall (λ c, is_codepoint c = true) y).
Proof.
  intros <-. split; [|apply lstrip_by_Forall].
  destruct (lstrip_by_split json_ws x) as (pre & Hx & _).
  rewrite {2}Hx length_app. unfold skip_ws. lia.
Qed.

Lemma match_number_sound s integer frac exp r :
  match_number s = Some (integer, frac, exp, r) →
  (length r < length s)%nat
  ∧ (Forall (λ c, is_codepoint c = true) s → Forall (λ c, is_codepoint c = true) r).
Proof.
  intros H. destruct (match_number_extend _ _ _ _ _ [] H I) as (_ & -> & _).
  unfold match_number in H.
  destruct (match_integer _) as [[i r1]|] eqn:Ei; [|done].
  destruct (match_integer_extend _ _ _ [] Ei ltac:(done))
    as (_ & _ & c & i' & -> & _).
  destruct (match_frac r1) as [fr r2]. destruct (match_exp r2) as [ex r3].
  injection H as <- _ _ _. split.
  - rewrite !length_app. simpl. lia.
  - rewrite !Forall_app. by intros (_ & _ & _ & ?).
Qed.

Lemma dict_set_keys d k v :
  (dict_set d k v).*1 = if decide (k ∈ d.*1) then d.*1 else d.*1 ++ [k].
Proof.
  induction d as [|[k' v'] d IH]; csimpl.
  - destruct (decide (k ∈ [])) as [Hin|_]; [|done]. by apply elem_of_nil in Hin.
  - destruct (decide (k' = k)) as [->|Hne]; csimpl.
    + destruct (decide (k ∈ k :: d.*1)) as [_|Hnin]; [done|].
      exfalso. apply Hnin. left.
    + rewrite IH. destruct (decide (k ∈ d.*1)) as [Hin|Hnin].
      * destruct (decide (k ∈ k' :: d.*1)) as [_|Hnin']; [done|].
        exfalso. apply Hnin'. by right.
      * destruct (decide (k ∈ k' :: d.*1)) as [Hin'|_]; [|done].
        apply elem_of_cons in Hin' as [->|?]; done.
Qed.

Lemma dict_set_NoDup d k v : NoDup d.*1 → NoDup (dict_set d k v).*1.
Proof.
  intros Hd. rewrite dict_set_keys. destruct (decide (k ∈ d.*1)); [done|].
  apply NoDup_app. repeat split; [done| |apply NoDup_singleton].
  intros x Hx ->%list_elem_of_singleton. done.
Qed.

Lemma dict_set_Forall (Q : pystr * pyobj → Prop) d k v :
  Forall Q d → Q (k, v) → Forall Q (dict_set d k v).
Proof.
  intros Hd Hkv. induction Hd as [|[k' v'] d Hx Hd IH]; simpl.
  - by constructor.
  - destruct (decide (k' = k)) as [->|Hne]; by constructor.
Qed.

Lemma dict_of_pairs_sound (Q : pystr * pyobj → Prop) pairs :
  Forall Q pairs → NoDup (dict_of_pairs pairs).*1 ∧ Forall Q (dict_of_pairs pairs).
Proof.
  unfold dict_of_pairs.
  assert (∀ acc, NoDup acc.*1 → Forall Q acc → Forall Q pairs →
            NoDup (foldl (λ d kv, dict_set d kv.1 kv.2) acc pairs).*1
            ∧ Forall Q (foldl (λ d kv, dict_set d kv.1 kv.2) acc pairs)) as H.
  { induction pairs as [|[k v] pairs IH]; intros acc Hnd Hacc Hpairs; [done|].
    apply Forall_cons in Hpairs as [Hkv Hpairs]. simpl.
    apply IH; [by apply dict_set_NoDup | by apply dict_set_Forall | done]. }
  intros Hpairs. apply H; [constructor | constructor | done].
Qed.

Local Opaque startswith drop match_number.

Lemma scan_once_other fuel depth c r :
  (c =? 0x22) = false → (c =? 0x7B) = false → (c =? 0x5B) = false →
  scan_once (S fuel) depth (c :: r) =
    if startswith (c :: r) (lit "null") then Scanned PyNone (drop 4 (c :: r))
    else if startswith (c :: r) (lit "true")
    then Scanned (PyBool true) (drop 4 (c :: r))
    else if startswith (c :: r) (lit "false")
    then Scanned (PyBool false) (drop 5 (c :: r))
    else
      match match_number (c :: r) with
      | Some (integer, frac, exp, rest) =>
          match frac, exp with
          | [], [] =>
              if exceeds_int_max_str_digits (int_digits integer)
              then TooManyDigits
              else Scanned (PyInt (parse_int integer)) rest
          | _, _ => Scanned (PyFloat (float_of_literal (integer ++ frac ++ exp))) rest
          end
      | None =>
          if startswith (c :: r) (lit "NaN")
          then Scanned (PyFloat S754_nan) (drop 3 (c :: r))
          else if startswith (c :: r) (lit "Infinity")
          then Scanned (PyFloat (S754_infinity false)) (drop 8 (c :: r))
          else if startswith (c :: r) (lit "-Infinity")
          then Scanned (PyFloat (S754_infinity true)) (drop 9 (c :: r))
          else DecodeError
      end.
Proof. intros H1 H2 H3. simpl. by rewrite H1 H2 H3. Qed.

Lemma object_pairs_not_quote fuel depth q r :
  (q =? 0x22) = false → object_pairs (S fuel) depth (q :: r) = DecodeError.
Proof. intros H. simpl. by rewrite H. Qed.

Local Transparent startswith drop match_number.

Ltac dropped Hs :=
  first [by apply Forall_drop | by apply Forall_drop, (Forall_inv_tail Hs)].

(** Every scanner consumes text and, on code points, returns well-formed
    values, provided the floats that [float] returns round-trip. *)
Lemma scan_sound fuel depth :
  (∀ s v rest,
     scan_once fuel depth s = Scanned v rest →
     (length rest < length s)%nat
     ∧ (Forall (λ c, is_codepoint c = true) s →
        (∀ text, float_roundtrips (float_of_literal text)) →
        well_formed v ∧ Forall (λ c, is_codepoint c = true) rest))
  ∧ (∀ s vs rest,
       array_items fuel depth s = Scanned vs rest →
       (length rest < length s)%nat
       ∧ (Forall (λ c, is_codepoint c = true) s →
          (∀ text, float_roundtrips (float_of_literal text)) →
          Forall well_formed vs ∧ Forall (λ c, is_codepoint c = true) rest))
  ∧ (∀ s ps rest,
       object_pairs fuel depth s = Scanned ps rest →
       (length rest < length s)%nat
       ∧ (Forall (λ c, is_codepoint c = true) s →
          (∀ text, float_roundtrips (float_of_literal text)) →
          Forall (λ kv, Forall (λ c, is_codepoint c = true) kv.1
                        ∧ well_formed kv.2) ps
          ∧ Forall (λ c, is_codepoint c = true) rest)).
Proof.
  revert depth. induction fuel as [|fuel IH]; intros depth; [done|].
  destruct (IH depth) as (IH1 & IH2 & IH3).
  split; [|split].
  - intros [|c r] v rest H; [done|].
    destruct (c =? 0x22) eqn:E1.
    { assert (c = 0x22) as -> by lia. rewrite scan_once_string in H.
      destruct (scanstring r) as [[str rest']|] eqn:Es; [|done].
      injection H as <- <-. apply scanstring_sound in Es as [Hlen Hval].
      split; [simpl; lia|]. intros Hs _.
      destruct Hval as [? ?]; [exact (Forall_drop _ 1 _ Hs)|].
      split; [by constructor | done]. }
    destruct (c =? 0x7B) eqn:E2.
    { assert (c = 0x7B) as -> by lia.
      destruct depth as [|depth']; [done|]. clear IH1 IH2 IH3.
      destruct (IH depth') as (IH1 & IH2 & IH3).
      rewrite scan_once_object in H.
      destruct (skip_ws r) as [|c' r'] eqn:Ew; [done|].
      apply skip_ws_sound in Ew as [Hwl Hwv].
      destruct (c' =? 0x7D).
      { injection H as <- <-. split; [simpl in *; lia|]. intros Hs _.
        split; [constructor; constructor|].
        exact (Forall_inv_tail (Hwv (Forall_drop _ 1 _ Hs))). }
      destruct (object_pairs fuel depth' (c' :: r')) as [ps rest'| | | |] eqn:Eo;
        try done.
      injection H as <- <-. apply IH3 in Eo as [Hlen Hval].
      split; [simpl in *; lia|]. intros Hs Hf.
      destruct Hval as [Hps Hrest]; [exact (Hwv (Forall_drop _ 1 _ Hs)) | done |].
      split; [|done]. destruct (dict_of_pairs_sound _ ps Hps). by constructor. }
    destruct (c =? 0x5B) eqn:E3.
    { assert (c = 0x5B) as -> by lia.
      destruct depth as [|depth']; [done|]. clear IH1 IH2 IH3.
      destruct (IH depth') as (IH1 & IH2 & IH3).
      rewrite scan_once_array in H.
      destruct (skip_ws r) as [|c' r'] eqn:Ew; [done|].
      apply skip_ws_sound in Ew as [Hwl Hwv].
      destruct (c' =? 0x5D).
      { injection H as <- <-. split; [simpl in *; lia|]. intros Hs _.
        split; [constructor; constructor|].
        exact (Forall_inv_tail (Hwv (Forall_drop _ 1 _ Hs))). }
      destruct (array_items fuel depth' (c' :: r')) as [vs rest'| | | |] eqn:Ea;
        try done.
      injection H as <- <-. apply IH2 in Ea as [Hlen Hval].
      split; [simpl in *; lia|]. intros Hs Hf.
      destruct Hval as [Hvs Hrest]; [exact (Hwv (Forall_drop _ 1 _ Hs)) | done |].
      split; [by constructor | done]. }
    rewrite scan_once_other // in H.
    destruct (startswith _ (lit "null")).
    { injection H as <- <-. split; [rewrite length_drop /=; lia|].
      intros Hs _. split; [constructor | dropped Hs]. }
    destruct (startswith _ (lit "true")).
    { injection H as <- <-. split; [rewrite length_drop /=; lia|].
      intros Hs _. split; [constructor | dropped Hs]. }
    destruct (startswith _ (lit "false")).
    { injection H as <- <-. split; [rewrite length_drop /=; lia|].
      intros Hs _. split; [constructor | dropped Hs]. }
    destruct (match_number (c :: r)) as [[[[i fr] ex] rest']|] eqn:Em.
    { apply match_number_sound in Em as [Hlen Hval].
      destruct fr, ex; [destruct (exceeds_int_max_str_digits _); [done|]|..];
        injection H as <- <-; (split; [done|]); intros Hs Hf;
        (split; [constructor; try apply Hf | by apply Hval]). }
    destruct (startswith _ (lit "NaN")).
    { injection H as <- <-. split; [rewrite length_drop /=; lia|].
      intros Hs _. split; [by constructor | dropped Hs]. }
    destruct (startswith _ (lit "Infinity")).
    { injection H as <- <-. split; [rewrite length_drop /=; lia|].
      intros Hs _. split; [by constructor | dropped Hs]. }
    destruct (startswith _ (lit "-Infinity")); [|done].
    injection H as <- <-. split; [rewrite length_drop /=; lia|].
    intros Hs _. split; [by constructor | dropped Hs].
  - intros s vs rest H. rewrite array_items_S in H.
    destruct (scan_once fuel depth s) as [value rest0| | | |] eqn:Ev; try done.
    apply IH1 in Ev as [Hlen Hval].
    destruct (skip_ws rest0) as [|c r] eqn:Ew; [done|].
    apply skip_ws_sound in Ew as [Hwl Hwv].
    destruct (c =? 0x5D).
    { injection H as <- <-. split; [simpl in *; lia|]. intros Hs Hf.
      destruct (Hval Hs Hf) as [? Hr0].
      split; [by repeat constructor | exact (Forall_inv_tail (Hwv Hr0))]. }
    destruct (c =? 0x2C); [|done].
    destruct (array_items fuel depth (skip_ws r)) as [values rest'| | | |] eqn:Ea;
      try done.
    injection H as <- <-. apply IH2 in Ea as [Hlen' Hval'].
    destruct (skip_ws_sound r _ eq_refl) as [Hwl' Hwv'].
    split; [simpl in *; lia|]. intros Hs Hf.
    destruct (Hval Hs Hf) as [? Hr0].
    destruct (Hval' (Hwv' (Forall_inv_tail (Hwv Hr0))) Hf) as [? ?].
    split; [by constructor | done].
  - intros [|q r] ps rest H; [done|].
    destruct (q =? 0x22) eqn:Eq; [|by rewrite object_pairs_not_quote in H].
    assert (q = 0x22) as -> by lia. rewrite object_pairs_S in H.
    destruct (scanstring r) as [[key r1]|] eqn:Es; [|done].
    apply scanstring_sound in Es as [Hlen1 Hval1].
    destruct (skip_ws r1) as [|c r2] eqn:Ew1; [done|].
    apply skip_ws_sound in Ew1 as [Hwl1 Hwv1].
    destruct (c =? 0x3A); [|done].
    destruct (scan_once fuel depth (skip_ws r2)) as [value r3| | | |] eqn:Ev;
      try done.
    apply IH1 in Ev as [Hlen2 Hval2].
    destruct (skip_ws_sound r2 _ eq_refl) as [Hwl2 Hwv2].
    destruct (skip_ws r3) as [|c' r4] eqn:Ew3; [done|].
    apply skip_ws_sound in Ew3 as [Hwl3 Hwv3].
    assert (Forall (λ c, is_codepoint c = true) (0x22 :: r) →
            (∀ text, float_roundtrips (float_of_literal text)) →
            Forall (λ c, is_codepoint c = true) key ∧ well_formed value
            ∧ Forall (λ c, is_codepoint c = true) r4) as Hstep.
    { intros Hs Hf. destruct (Hval1 (Forall_inv_tail Hs)) as [Hkey Hr1].
      destruct (Hval2 (Hwv2 (Forall_inv_tail (Hwv1 Hr1))) Hf) as [Hv Hr3].
      repeat split; [done..|]. exact (Forall_inv_tail (Hwv3 Hr3)). }
    destruct (c' =? 0x7D).
    { injection H as <- <-. split; [simpl in *; lia|]. intros Hs Hf.
      destruct (Hstep Hs Hf) as (? & ? & ?). split; [by repeat constructor | done]. }
    destruct (c' =? 0x2C); [|done].
    destruct (object_pairs fuel depth (skip_ws r4)) as [pairs rest'| | | |] eqn:Eo;
      try done.
    injection H as <- <-. apply IH3 in Eo as [Hlen' Hval'].
    destruct (skip_ws_sound r4 _ eq_refl) as [Hwl4 Hwv4].
    split; [simpl in *; lia|]. intros Hs Hf.
    destruct (Hstep Hs Hf) as (? & ? & Hr4).
    destruct (Hval' (Hwv4 Hr4) Hf) as [? ?].
    split; [by repeat constructor | done].
Qed.

(** ** The values of the decoder are within its limits *)

Lemma length_uint_chars d : length (uint_chars d) = nb_digits d.
Proof. induction d; simpl; congruence. Qed.

Lemma nb_digits_chars_uint s : nb_digits (chars_uint s) = length s.
Proof.
  induction s as [|c s IH]; [done|]. simpl.
  by destruct (c - 0x30) as [|[[[|[]|]|[[]|[]|]|]|[[|[]|]|[[]|[]|]|]|]]; simpl;
    rewrite IH.
Qed.

Lemma length_canonical_digits ds :
  ds ≠ [] →
  (length (uint_chars (N.to_uint (N.of_uint (chars_uint ds)))) ≤ length ds)%nat.
Proof.
  intros Hds. rewrite DecimalN.Unsigned.to_of length_uint_chars.
  rewrite -(nb_digits_chars_uint ds). apply nb_digits_unorm.
  intros H. apply (f_equal nb_digits) in H. rewrite nb_digits_chars_uint in H.
  by destruct ds.
Qed.

Lemma int_digits_int_repr z :
  int_digits (int_repr z) = length (uint_chars (N.to_uint (Z.abs_N z))).
Proof.
  unfold int_repr, int_digits. destruct (z <? 0)%Z eqn:Ez; [done|].
  replace (Z.to_N z) with (Z.abs_N z) by lia.
  destruct (N_to_uint_chars (Z.abs_N z)) as [->|(c & ds & -> & Hc & _)]; [done|].
  unfold is_digit in Hc. by assert ((c =? 0x2D) = false) as -> by lia.
Qed.

(** The numeral of a parsed integer has no more digits than the text it
    was parsed from. *)
Lemma int_digits_parse_int s integer r :
  match_integer s = Some (integer, r) →
  (int_digits (int_repr (parse_int integer)) ≤ int_digits integer)%nat.
Proof.
  intros Hs. rewrite int_digits_int_repr.
  assert (∃ ds, ds ≠ [] ∧ int_digits integer = length ds
                ∧ Z.abs_N (parse_int integer) = N.of_uint (chars_uint ds))
    as (ds & Hne & -> & ->); [|by apply length_canonical_digits].
  unfold match_integer in Hs. destruct s as [|c s]; [done|].
  destruct (c =? 0x2D) eqn:Ec.
  - assert (c = 0x2D) as -> by lia.
    destruct s as [|c1 s]; [done|].
    assert (∃ ds, integer = 0x2D :: c1 :: ds) as [ds ->].
    { destruct (c1 =? 0x30); [injection Hs as <- <-; by eexists|].
      destruct (is_digit c1); [|done].
      destruct (span_digits s) as [ds r']. injection Hs as <- <-. by eexists. }
    exists (c1 :: ds). split; [done|]. split; [done|].
    unfold parse_int. change (0x2D =? 0x2D) with true. cbn iota. lia.
  - assert (∃ ds, integer = c :: ds) as [ds ->].
    { destruct (c =? 0x30); [injection Hs as <- <-; by eexists|].
      destruct (is_digit c); [|done].
      destruct (span_digits s) as [ds r']. injection Hs as <- <-. by eexists. }
    exists (c :: ds). split; [done|]. unfold int_digits, parse_int. rewrite Ec.
    split; [done | lia].
Qed.

Lemma exceeds_int_max_str_digits_le n m :
  (n ≤ m)%nat → exceeds_int_max_str_digits m = false →
  exceeds_int_max_str_digits n = false.
Proof. unfold exceeds_int_max_str_digits. lia. Qed.

Lemma within_limits_leaf depth o :
  match o with PyList _ | PyDict _ | PyInt _ => False | _ => True end →
  within_limits depth o = true.
Proof. by destruct o, depth. Qed.

Local Opaque startswith drop.

(** Every scanner returns values within the limits it runs under. *)
Lemma scan_within fuel depth :
  (∀ s v rest,
     scan_once fuel depth s = Scanned v rest → within_limits depth v = true)
  ∧ (∀ s vs rest,
       array_items fuel depth s = Scanned vs rest →
       forallb (within_limits depth) vs = true)
  ∧ (∀ s ps rest,
       object_pairs fuel depth s = Scanned ps rest →
       forallb (λ kv, within_limits depth kv.2) ps = true).
Proof.
  revert depth. induction fuel as [|fuel IH]; intros depth; [done|].
  destruct (IH depth) as (IH1 & IH2 & IH3).
  split; [|split].
  - intros [|c r] v rest H; [done|].
    destruct (c =? 0x22) eqn:E1.
    { assert (c = 0x22) as -> by lia. rewrite scan_once_string in H.
      destruct (scanstring r) as [[str rest']|]; [|done].
      injection H as <- <-. by apply within_limits_leaf. }
    destruct (c =? 0x7B) eqn:E2.
    { assert (c = 0x7B) as -> by lia.
      destruct depth as [|depth']; [done|]. clear IH1 IH2 IH3.
      destruct (IH depth') as (IH1 & IH2 & IH3).
      rewrite scan_once_object in H.
      destruct (skip_ws r) as [|c' r']; [done|].
      destruct (c' =? 0x7D); [by injection H as <- <-|].
      destruct (object_pairs fuel depth' (c' :: r')) as [ps rest'| | | |] eqn:Eo;
        try done.
      injection H as <- <-. apply IH3 in Eo.
      rewrite within_limits_dict. apply forallb_Forall.
      apply (dict_of_pairs_sound (λ kv, within_limits depth' kv.2 = true)).
      by apply forallb_Forall. }
    destruct (c =? 0x5B) eqn:E3.
    { assert (c = 0x5B) as -> by lia.
      destruct depth as [|depth']; [done|]. clear IH1 IH2 IH3.
      destruct (IH depth') as (IH1 & IH2 & IH3).
      rewrite scan_once_array in H.
      destruct (skip_ws r) as [|c' r']; [done|].
      destruct (c' =? 0x5D); [by injection H as <- <-|].
      destruct (array_items fuel depth' (c' :: r')) as [vs rest'| | | |] eqn:Ea;
        try done.
      injection H as <- <-. by apply IH2 in Ea. }
    rewrite scan_once_other // in H.
    do 3 (destruct (startswith _ _);
          [injection H as <- <-; by apply within_limits_leaf|]).
    destruct (match_number (c :: r)) as [[[[i fr] ex] rest']|] eqn:Em.
    { destruct fr, ex;
        [|injection H as <- <-; by apply within_limits_leaf..].
      destruct (exceeds_int_max_str_digits (int_digits i)) eqn:Ed; [done|].
      injection H as <- <-. rewrite within_limits_int. apply negb_true_iff.
      apply (exceeds_int_max_str_digits_le _ (int_digits i)); [|done].
      unfold match_number in Em.
      destruct (match_integer (c :: r)) as [[i' r1]|] eqn:Ei; [|done].
      destruct (match_frac r1) as [fr r2]. destruct (match_exp r2) as [ex r3].
      injection Em as -> _ _ _. by eapply int_digits_parse_int. }
    do 2 (destruct (startswith _ _);
          [injection H as <- <-; by apply within_limits_leaf|]).
    destruct (startswith _ _); [|done].
    injection H as <- <-. by apply within_limits_leaf.
  - intros s vs rest H. rewrite array_items_S in H.
    destruct (scan_once fuel depth s) as [value rest0| | | |] eqn:Ev; try done.
    apply IH1 in Ev.
    destruct (skip_ws rest0) as [|c r]; [done|].
    destruct (c =? 0x5D).
    { injection H as <- <-. cbn. by rewrite Ev. }
    destruct (c =? 0x2C); [|done].
    destruct (array_items fuel depth (skip_ws r)) as [values rest'| | | |] eqn:Ea;
      try done.
    injection H as <- <-. apply IH2 in Ea. cbn. by rewrite Ev Ea.
  - intros [|q r] ps rest H; [done|].
    destruct (q =? 0x22) eqn:Eq; [|by rewrite object_pairs_not_quote in H].
    assert (q = 0x22) as -> by lia. rewrite object_pairs_S in H.
    destruct (scanstring r) as [[key r1]|]; [|done].
    destruct (skip_ws r1) as [|c r2]; [done|].
    destruct (c =? 0x3A); [|done].
    destruct (scan_once fuel depth (skip_ws r2)) as [value r3| | | |] eqn:Ev;
      try done.
    apply IH1 in Ev.
    destruct (skip_ws r3) as [|c' r4]; [done|].
    destruct (c' =? 0x7D).
    { injection H as <- <-. cbn. by rewrite Ev. }
    destruct (c' =? 0x2C); [|done].
    destruct (object_pairs fuel depth (skip_ws r4)) as [pairs rest'| | | |] eqn:Eo;
      try done.
    injection H as <- <-. apply IH3 in Eo. cbn. by rewrite Ev Eo.
Qed.

Local Transparent startswith drop.

(** ** The fuel of [json_loads] is never used up *)

Lemma scan_progress fuel depth s v rest :
  scan_once fuel depth s = Scanned v rest → (length rest < length s)%nat.
Proof using Type float_repr.
  intros H. by apply (scan_sound fuel depth) in H as [? _].
Qed.

Lemma scan_total fuel depth :
  (∀ s, (2 * length s + 1 ≤ fuel)%nat → scan_once fuel depth s ≠ OutOfFuel)
  ∧ (∀ s, (2 * length s + 2 ≤ fuel)%nat → array_items fuel depth s ≠ OutOfFuel)
  ∧ (∀ s, (2 * length s + 2 ≤ fuel)%nat → object_pairs fuel depth s ≠ OutOfFuel).
Proof using Type float_repr.
  revert depth.
  induction fuel as [|fuel IH]; intros depth; [repeat split; intros; lia|].
  destruct (IH depth) as (IH1 & IH2 & IH3).
  split; [|split].
  - intros [|c r] Hfuel H; [done|]. simpl length in Hfuel.
    destruct (c =? 0x22) eqn:E1.
    { assert (c = 0x22) as -> by lia. rewrite scan_once_string in H.
      by destruct (scanstring r) as [[??]|]. }
    destruct (c =? 0x7B) eqn:E2.
    { assert (c = 0x7B) as -> by lia.
      destruct depth as [|depth']; [done|]. clear IH1 IH2 IH3.
      destruct (IH depth') as (IH1 & IH2 & IH3).
      rewrite scan_once_object in H.
      destruct (skip_ws r) as [|c' r'] eqn:Ew; [done|].
      apply skip_ws_sound in Ew as [Hwl _]. simpl in Hwl.
      destruct (c' =? 0x7D); [done|].
      destruct (object_pairs fuel depth' (c' :: r')) eqn:Eo; try done.
      apply IH3 in Eo; [done|]. simpl. lia. }
    destruct (c =? 0x5B) eqn:E3.
    { assert (c = 0x5B) as -> by lia.
      destruct depth as [|depth']; [done|]. clear IH1 IH2 IH3.
      destruct (IH depth') as (IH1 & IH2 & IH3).
      rewrite scan_once_array in H.
      destruct (skip_ws r) as [|c' r'] eqn:Ew; [done|].
      apply skip_ws_sound in Ew as [Hwl _]. simpl in Hwl.
      destruct (c' =? 0x5D); [done|].
      destruct (array_items fuel depth' (c' :: r')) eqn:Ea; try done.
      apply IH2 in Ea; [done|]. simpl. lia. }
    rewrite scan_once_other // in H.
    repeat (destruct (startswith _ _); [done|]).
    destruct (match_number (c :: r)) as [[[[i fr] ex] rest']|].
    { destruct fr, ex; try done. by destruct (exceeds_int_max_str_digits _). }
    by repeat (destruct (startswith _ _); [done|]).
  - intros s Hfuel H. rewrite array_items_S in H.
    destruct (scan_once fuel depth s) as [value rest0| | | |] eqn:Ev; try done.
    + apply scan_progress in Ev.
      destruct (skip_ws rest0) as [|c r] eqn:Ew; [done|].
      apply skip_ws_sound in Ew as [Hwl _]. simpl in Hwl.
      destruct (c =? 0x5D); [done|]. destruct (c =? 0x2C); [|done].
      destruct (array_items fuel depth (skip_ws r)) eqn:Ea; try done.
      destruct (skip_ws_sound r _ eq_refl) as [Hwl' _].
      apply IH2 in Ea; [done|]. lia.
    + apply IH1 in Ev; [done|]. lia.
  - intros [|q r] Hfuel H; [done|]. simpl length in Hfuel.
    destruct (q =? 0x22) eqn:Eq; [|by rewrite object_pairs_not_quote in H].
    assert (q = 0x22) as -> by lia. rewrite object_pairs_S in H.
    destruct (scanstring r) as [[key r1]|] eqn:Es; [|done].
    apply scanstring_sound in Es as [Hlen1 _].
    destruct (skip_ws r1) as [|c r2] eqn:Ew1; [done|].
    apply skip_ws_sound in Ew1 as [Hwl1 _]. simpl in Hwl1.
    destruct (c =? 0x3A); [|done].
    destruct (skip_ws_sound r2 _ eq_refl) as [Hwl2 _].
    destruct (scan_once fuel depth (skip_ws r2)) as [value r3| | | |] eqn:Ev;
      try done.
    + apply scan_progress in Ev.
      destruct (skip_ws r3) as [|c' r4] eqn:Ew3; [done|].
      apply skip_ws_sound in Ew3 as [Hwl3 _]. simpl in Hwl3.
      destruct (c' =? 0x7D); [done|]. destruct (c' =? 0x2C); [|done].
      destruct (skip_ws_sound r4 _ eq_refl) as [Hwl4 _].
      destruct (object_pairs fuel depth (skip_ws r4)) eqn:Eo; try done.
      apply IH3 in Eo; [done|]. lia.
    + apply IH1 in Ev; [done|]. lia.
Qed.

(** The fuel of [json_loads_outcome] is enough on every text. *)
Lemma json_loads_fuel s : json_loads_outcome s ≠ OutOfFuel.
Proof using Type float_repr.
  unfold json_loads_outcome, decode. intros H.
  destruct (startswith s [0xFEFF]); [done|].
  destruct (skip_ws_sound s _ eq_refl) as [Hwl _].
  destruct (scan_once _ _ (skip_ws s)) as [obj rest| | | |] eqn:E; try done.
  - by destruct (skip_ws rest).
  - apply (scan_total (2 * length s + 2)) in E; [done|]. lia.
Qed.

Lemma json_loads_sound text o :
  json_loads text = Some o →
  Forall (λ c, is_codepoint c = true) text →
  (∀ text, float_roundtrips (float_of_literal text)) →
  well_formed o.
Proof.
  unfold json_loads, json_loads_outcome, decode. intros H Htext Hf.
  destruct (startswith text [0xFEFF]); [done|].
  destruct (scan_once _ _ (skip_ws text)) as [obj rest| | | |] eqn:E; try done.
  apply (scan_sound (2 * length text + 2)) in E as [_ Hval].
  destruct (skip_ws rest); [|done]. injection H as <-.
  destruct (skip_ws_sound text _ eq_refl) as [_ Hv].
  by apply Hval; [apply Hv|].
Qed.

Lemma json_loads_within text o :
  json_loads text = Some o →
  within_limits (Pos.to_nat recursion_limit) o = true.
Proof.
  unfold json_loads, json_loads_outcome, decode. intros H.
  destruct (startswith text [0xFEFF]); [done|].
  destruct (scan_once _ _ (skip_ws text)) as [obj rest| | | |] eqn:E; try done.
  apply (scan_within (2 * length text + 2)) in E.
  destruct (skip_ws rest); [|done]. by injection H as <-.
Qed.

(** ** Normalization, in the words of the specification *)

Lemma lstrip_by_app_Forall p pre y :
  Forall (λ c, p c = true) pre → lstrip_by p (pre ++ y) = lstrip_by p y.
Proof. induction 1 as [|c pre Hc _ IH]; [done|]. simpl. by rewrite Hc. Qed.

Lemma lstrip_by_nil_Forall p s : lstrip_by p s = [] → Forall (λ c, p c = true) s.
Proof.
  intros H. destruct (lstrip_by_split p s) as (pre & Hs & Hpre).
  by rewrite Hs H app_nil_r.
Qed.

(** Characters to strip, appended at the end, do not change the result. *)
Lemma strip_by_app_Forall p a tail :
  Forall (λ c, p c = true) tail → strip_by p (a ++ tail) = strip_by p a.
Proof.
  intros Htail. unfold strip_by, rstrip_by. f_equal.
  destruct (lstrip_by_split p a) as (pre & Ha & Hpre).
  destruct (lstrip_by p a) as [|c u] eqn:E.
  - rewrite app_nil_r in Ha. subst a.
    assert (lstrip_by p (pre ++ tail) = []) as ->; [|done].
    rewrite -(app_nil_r (pre ++ tail)) lstrip_by_app_Forall //.
    by apply Forall_app.
  - assert (p c = false) as Hc by (apply (lstrip_by_head p a); by rewrite E).
    rewrite {1}Ha -app_assoc lstrip_by_app_Forall //.
    rewrite /= Hc. change (c :: u ++ tail) with ((c :: u) ++ tail).
    rewrite reverse_app lstrip_by_app_Forall //. by apply Forall_reverse.
Qed.

Lemma py_strip_split t :
  ∃ wl wr, t = wl ++ py_strip t ++ wr
           ∧ Forall (λ c, isspace c = true) wl
           ∧ Forall (λ c, isspace c = true) wr.
Proof.
  unfold py_strip, strip_by, rstrip_by.
  destruct (lstrip_by_split isspace t) as (wl & Ht & Hwl).
  destruct (lstrip_by_split isspace (reverse (lstrip_by isspace t)))
    as (wr & Hu & Hwr).
  exists wl, (reverse wr). repeat split; [|done|by apply Forall_reverse].
  rewrite -reverse_app -Hu reverse_involutive. exact Ht.
Qed.

Lemma isspace_not_slug c : isspace c = true → slug_char c = false.
Proof.
  intros H. destruct (slug_char c) eqn:E; [|done].
  apply slug_char_not_space in E. congruence.
Qed.

Lemma hyphen_stripped c : bool_decide (c ∈ lit "-") = true ↔ c = 0x2D.
Proof.
  rewrite bool_decide_eq_true. change (lit "-") with [0x2D].
  apply list_elem_of_singleton.
Qed.

Lemma hyphen_stripped' c : c ∈ lit "-" → c = 0x2D.
Proof. change (lit "-") with [0x2D]. apply list_elem_of_singleton. Qed.

Lemma re_sub_run_lstrip b x :
  lstrip_by (λ c, bool_decide (c ∈ lit "-")) (re_sub_run b x)
  = lstrip_by (λ c, bool_decide (c ∈ lit "-")) (re_sub_run false x).
Proof.
  destruct x as [|c r]; [done|]. simpl.
  destruct (slug_char c); [done|]. by destruct b.
Qed.

Lemma re_sub_run_lstrip_app w x :
  Forall (λ c, slug_char c = false) w →
  lstrip_by (λ c, bool_decide (c ∈ lit "-")) (re_sub_run false (w ++ x))
  = lstrip_by (λ c, bool_decide (c ∈ lit "-")) (re_sub_run false x).
Proof.
  induction 1 as [|c w Hc _ IH]; [done|]. simpl. rewrite Hc. simpl.
  by rewrite re_sub_run_lstrip.
Qed.

Lemma re_sub_run_nonslug b w :
  Forall (λ c, slug_char c = false) w →
  Forall (λ c, bool_decide (c ∈ lit "-") = true) (re_sub_run b w).
Proof.
  intros Hw. revert b. induction Hw as [|c w Hc _ IH]; intros b; [constructor|].
  simpl. rewrite Hc. destruct b; [apply IH|].
  constructor; [by apply hyphen_stripped | apply IH].
Qed.

Lemma re_sub_run_app_nonslug b x w :
  Forall (λ c, slug_char c = false) w →
  ∃ tail, re_sub_run b (x ++ w) = re_sub_run b x ++ tail
          ∧ Forall (λ c, bool_decide (c ∈ lit "-") = true) tail.
Proof.
  intros Hw. revert b. induction x as [|c x IH]; intros b.
  - exists (re_sub_run b w). split; [done | by apply re_sub_run_nonslug].
  - simpl. destruct (slug_char c).
    + destruct (IH false) as (tail & -> & Htail). by exists tail.
    + destruct b.
      * destruct (IH true) as (tail & -> & Htail). by exists tail.
      * destruct (IH true) as (tail & -> & Htail). by exists tail.
Qed.

(** Trimming white space first does not change the slug. *)
Lemma slug_of_stripped t :
  py_strip_chars (lit "-") (re_sub_nonslug (py_strip t))
  = py_strip_chars (lit "-") (re_sub_nonslug t).
Proof.
  destruct (py_strip_split t) as (wl & wr & Ht & Hwl & Hwr).
  rewrite {2}Ht. unfold py_strip_chars, re_sub_nonslug.
  destruct (re_sub_run_app_nonslug false (py_strip t) wr) as (tail & Htail & Hhy).
  { eapply Forall_impl; [exact Hwr|]. apply isspace_not_slug. }
  rewrite -(strip_by_app_Forall _ _ tail Hhy) -Htail.
  unfold strip_by. f_equal. symmetry. apply re_sub_run_lstrip_app.
  eapply Forall_impl; [exact Hwl|]. apply isspace_not_slug.
Qed.

Lemma clean_name_lower_first text :
  str_lower (py_strip text) = py_strip (str_lower text) →
  clean_name text = py_strip_chars (lit "-") (re_sub_nonslug (str_lower text)).
Proof.
  intros H. unfold clean_name. rewrite H. apply slug_of_stripped.
Qed.

Lemma lstrip_by_map (f : N → N) p s :
  (∀ c, p (f c) = p c) → lstrip_by p (map f s) = map f (lstrip_by p s).
Proof.
  intros Hf. induction s as [|c s IH]; [done|]. simpl. rewrite Hf.
  by destruct (p c).
Qed.

Lemma isspace_ascii_lower c : isspace (ascii_lower c) = isspace c.
Proof.
  unfold ascii_lower. destruct ((0x41 <=? c) && (c <=? 0x5A)) eqn:E; [|done].
  unfold isspace. lia.
Qed.

Lemma reverse_map (f : N → N) s : reverse (map f s) = map f (reverse s).
Proof. symmetry. exact (fmap_reverse f s). Qed.

Lemma strip_by_map (f : N → N) p s :
  (∀ c, p (f c) = p c) → strip_by p (map f s) = map f (strip_by p s).
Proof.
  intros Hf. unfold strip_by, rstrip_by.
  by rewrite lstrip_by_map // reverse_map lstrip_by_map // reverse_map.
Qed.

(** On ASCII text, lower-casing and trimming commute. *)
Lemma str_lower_strip_ascii text :
  forallb is_ascii text = true →
  str_lower (py_strip text) = py_strip (str_lower text).
Proof.
  intros Hascii. unfold str_lower. rewrite Hascii.
  assert (forallb is_ascii (py_strip text) = true) as ->.
  { apply forallb_Forall, strip_by_Forall. by apply forallb_Forall. }
  unfold py_strip. rewrite strip_by_map //. apply isspace_ascii_lower.
Qed.

(** ** The three steps of the specification *)

Lemma re_sub_run_true_slug s :
  (∀ c, head s = Some c → slug_char c = true) →
  re_sub_run true s = re_sub_run false s.
Proof. destruct s as [|c s]; [done|]. simpl. intros H. by rewrite (H c eq_refl). Qed.

Lemma re_sub_run_skip run s :
  Forall (λ c, slug_char c = false) run →
  re_sub_run true (run ++ s) = re_sub_run true s.
Proof. induction 1 as [|c run Hc _ IH]; [done|]. simpl. by rewrite Hc. Qed.

Lemma re_sub_run_run run s :
  run ≠ [] → Forall (λ c, slug_char c = false) run →
  (∀ c, head s = Some c → slug_char c = true) →
  re_sub_run false (run ++ s) = 0x2D :: re_sub_run false s.
Proof.
  destruct run as [|c run]; [done|]. intros _ [Hc Hrun]%Forall_cons Hs.
  simpl. by rewrite Hc re_sub_run_skip // re_sub_run_true_slug.
Qed.

Lemma runs_replaced_unique s r : runs_replaced s r → r = re_sub_nonslug s.
Proof.
  unfold re_sub_nonslug.
  induction 1 as [|c s r Hc _ IH|run s r Hne Hrun Hs _ IH]; [done| |].
  - simpl. by rewrite Hc IH.
  - by rewrite re_sub_run_run // IH.
Qed.

Lemma runs_replaced_re_sub_run s :
  runs_replaced s (re_sub_run false s)
  ∧ ∀ run, run ≠ [] → Forall (λ c, slug_char c = false) run →
           runs_replaced (run ++ s) (0x2D :: re_sub_run true s).
Proof.
  induction s as [|c s [IH1 IH2]].
  - split; [constructor|]. intros run Hne Hrun.
    apply runs_replaced_run; [done..| |constructor]. by intros c.
  - simpl. destruct (slug_char c) eqn:Hc.
    + split; [by constructor|]. intros run Hne Hrun.
      apply runs_replaced_run; [done..| |by constructor].
      by intros ? [= <-].
    + split.
      * apply (IH2 [c]); [done|]. by constructor.
      * intros run Hne Hrun.
        replace (run ++ c :: s) with ((run ++ [c]) ++ s) by by rewrite -app_assoc.
        apply IH2; [by destruct run|].
        apply Forall_app. split; [done|]. by constructor.
Qed.

Lemma runs_replaced_re_sub s : runs_replaced s (re_sub_nonslug s).
Proof. apply runs_replaced_re_sub_run. Qed.

Lemma Forall_eq_replicate (x : N) l :
  Forall (λ c, c = x) l → l = replicate (length l) x.
Proof. induction 1 as [|c l -> _ IH]; [done|]. simpl. by rewrite -IH. Qed.

Lemma strip_by_split p t :
  ∃ wl wr, t = wl ++ strip_by p t ++ wr
           ∧ Forall (λ c, p c = true) wl ∧ Forall (λ c, p c = true) wr.
Proof.
  unfold strip_by, rstrip_by.
  destruct (lstrip_by_split p t) as (wl & Ht & Hwl).
  destruct (lstrip_by_split p (reverse (lstrip_by p t))) as (wr & Hu & Hwr).
  exists wl, (reverse wr). repeat split; [|done|by apply Forall_reverse].
  rewrite -reverse_app -Hu reverse_involutive. exact Ht.
Qed.

Lemma hyphens_stripped_strip r : hyphens_stripped r (py_strip_chars (lit "-") r).
Proof.
  split; [|split].
  - destruct (strip_by_split (λ c, bool_decide (c ∈ lit "-")) r)
      as (wl & wr & Hr & Hwl & Hwr).
    exists (length wl), (length wr).
    rewrite -!Forall_eq_replicate //;
      (eapply Forall_impl; [eassumption|]); intros c; apply hyphen_stripped.
  - intros H. by apply py_strip_chars_hyphen_head in H.
  - intros H. by apply py_strip_chars_hyphen_last in H.
Qed.

Lemma hyphens_stripped_unique r name :
  hyphens_stripped r name → name = py_strip_chars (lit "-") r.
Proof.
  intros ((a & b & ->) & Hh & Hl). unfold py_strip_chars.
  assert (∀ n, Forall (λ c, bool_decide (c ∈ lit "-") = true) (replicate n 0x2D))
    as Hrep.
  { intros n. apply Forall_replicate. by apply hyphen_stripped. }
  assert (strip_by (λ c, bool_decide (c ∈ lit "-"))
            (replicate a 0x2D ++ name ++ replicate b 0x2D)
          = strip_by (λ c, bool_decide (c ∈ lit "-")) (name ++ replicate b 0x2D))
    as ->.
  { unfold strip_by. by rewrite lstrip_by_app_Forall. }
  rewrite strip_by_app_Forall // strip_by_id //.
  - intros c Hc. apply bool_decide_eq_false. intros ->%hyphen_stripped'.
    done.
  - intros c Hc. apply bool_decide_eq_false. intros ->%hyphen_stripped'.
    done.
Qed.

(** ** The remaining claims *)

Lemma reached_elem_of block blocks : block ∈ reached blocks → block ∈ blocks.
Proof.
  induction blocks as [|b blocks IH]; cbn; [done|].
  destruct (block_abort b); [by intros ?%elem_of_nil|].
  intros [->|H]%elem_of_cons; [left | right; by apply IH].
Qed.

Lemma normalized_iff s name :
  normalized_as_specified s name
  ↔ name = py_strip_chars (lit "-") (re_sub_nonslug (str_lower s)).
Proof.
  split.
  - intros (r & Hr & Hname). apply runs_replaced_unique in Hr as ->.
    by apply hyphens_stripped_unique.
  - intros ->. exists (re_sub_nonslug (str_lower s)).
    split; [apply runs_replaced_re_sub | apply hyphens_stripped_strip].
Qed.

Lemma str_lower_ascii_lowered text :
  forallb is_ascii text = true → ascii_lowered text (str_lower text).
Proof.
  intros Hascii. unfold str_lower. rewrite Hascii. split.
  - apply length_map.
  - intros i c Hc. change (map ascii_lower text) with (ascii_lower <$> text).
    by rewrite list_lookup_fmap Hc.
Qed.

(** C6. Every file the run writes is named [<base>.json] in the output
    directory, where the base name, whether it is [clean_name] of a
    heading or the [example-<n>] fallback, consists of letters a-z, digits
    and hyphens only and neither starts nor ends with a hyphen.
    [clean_name] computes the normalization of the specification and
    nothing else: the name of a text is the one and only result of
    lower-casing the text (trimmed of white space), replacing every
    maximal run of characters outside a-z0-9- with one hyphen, and taking
    the hyphens off the two ends; the trimming makes no difference
    wherever lower-casing and trimming commute, as they do on ASCII text,
    where lower-casing turns A-Z into a-z, letter for letter. *)
Theorem output_names_are_slugs soup w :
  (∀ path content,
     (path, content) ∈ drop (length (writes w)) (writes (extract soup w).2) →
     ∃ base, path = lit "src/test/resources/strava/" ++ base ++ lit ".json"
             ∧ is_slug base
             ∧ ((∃ header, base = clean_name (get_text header))
                ∨ ∃ n, base = lit "example-" ++ str_of_nat n))
  ∧ (∀ text, is_slug (clean_name text))
  ∧ (∀ n, is_slug (lit "example-" ++ str_of_nat n))
  ∧ (∀ text name,
       normalized_as_specified (py_strip text) name ↔ name = clean_name text)
  ∧ (∀ text name,
       str_lower (py_strip text) = py_strip (str_lower text) →
       (normalized_as_specified text name ↔ name = clean_name text))
  ∧ (∀ text,
       forallb is_ascii text = true →
       str_lower (py_strip text) = py_strip (str_lower text)
       ∧ ascii_lowered text (str_lower text)).
Proof.
  split; [|split; [|split; [|split; [|split]]]].
  - intros path content. rewrite extract_writes drop_app_length.
    intros (k & bv & [= -> ->] & _)%elem_of_lookup_imap.
    exists (block_title soup bv.1.1 k).
    split; [apply block_fname_eq|]. split; [apply block_title_is_slug|].
    unfold block_title. destruct (find_previous soup bv.1.1) as [header|].
    + left. by exists header.
    + right. by eexists.
  - apply clean_name_is_slug.
  - apply is_slug_example.
  - intros text name. apply normalized_iff.
  - intros text name Hcomm. rewrite normalized_iff.
    by rewrite (clean_name_lower_first _ Hcomm).
  - intros text Hascii.
    split; [by apply str_lower_strip_ascii | by apply str_lower_ascii_lowered].
Qed.

(** C4, as amended. For a block whose trimmed text starts with a brace or
    a bracket and for which [json.loads] returns a value, the iteration
    writes exactly one file, holding the value serialized with a two-space
    indentation; and that content parses back to the same value when no
    string of the value holds a high surrogate directly followed by a low
    one (the text being a [str], of code points, and [float] returning
    floats whose [repr] reads back as the same float). *)
Theorem parsed_block_is_written_once_and_reparses soup saved block parsed w :
  startswith (py_strip (get_text block.2)) (lit "{")
  || startswith (py_strip (get_text block.2)) (lit "[") = true →
  json_loads (py_strip (get_text block.2)) = Some parsed →
  extract_block soup saved block w
  = (inl (saved + 1)%nat,
     World
       (writes w ++ [(block_fname soup block.1 saved, json_dump parsed)])
       (stdout w ++ [[0x2713] ++ lit " Saved " ++ block_fname soup block.1 saved]))
  ∧ ((∀ text, float_roundtrips (float_of_literal text)) →
     Forall (λ c, is_codepoint c = true) (py_strip (get_text block.2)) →
     no_surrogate_pairs parsed = true →
     json_loads (json_dump parsed) = Some parsed).
Proof.
  intros Hstart Hparsed.
  assert (parsed_block block = Some parsed) as Hblock.
  { unfold parsed_block. by rewrite Hstart. }
  split.
  - by rewrite extract_block_spec (parsed_block_no_abort _ _ Hblock) Hblock.
  - intros Hfloat Htext Hnsp. apply json_loads_json_dump; [|done|].
    + by eapply json_loads_sound.
    + by eapply json_loads_within.
Qed.

(** X8. Every file written by a run holds the serialization of a parsed
    value, and reads back as that value when none of its strings holds a
    high surrogate directly followed by a low one.  The texts of the page
    are [str] values and [float] returns floats whose [repr] reads back as
    the same float. *)
Lemma written_blocks_reparse soup w path content :
  (∀ text, float_roundtrips (float_of_literal text)) →
  Forall (λ e, Forall (λ c, is_codepoint c = true) (get_text e)) (descendants soup) →
  (path, content) ∈ drop (length (writes w)) (writes (extract soup w).2) →
  ∃ parsed, content = json_dump parsed
            ∧ (no_surrogate_pairs parsed = true → json_loads content = Some parsed).
Proof.
  intros Hfloat Hsoup. rewrite extract_writes drop_app_length.
  intros (k & [[pos e] parsed] & [= -> ->] & Hk)%elem_of_lookup_imap.
  exists parsed. split; [done|]. intros Hnsp.
  apply list_elem_of_lookup_2 in Hk.
  apply list_elem_of_omap in Hk as ([pos' e'] & Hsel%reached_elem_of & Hpb).
  apply fmap_Some in Hpb as (parsed' & Hpb & [= -> -> ->]).
  unfold parsed_block in Hpb. cbn [snd] in Hpb.
  destruct (startswith _ _ || startswith _ _); [|done].
  apply json_loads_json_dump; [|done|by eapply json_loads_within].
  eapply json_loads_sound; [exact Hpb| |done].
  apply strip_by_Forall.
  apply list_elem_of_filter in Hsel as [_ Hin].
  apply elem_of_lookup_imap in Hin as (i & y & [= -> ->] & Hi).
  rewrite ->Forall_forall in Hsoup. apply Hsoup.
  by eapply list_elem_of_lookup_2.
Qed.

(** ** The directory after a run *)

Lemma length_omap_le {A B} (f : A → option B) l :
  (length (omap f l) ≤ length l)%nat.
Proof. induction l as [|x l IH]; cbn; [done|]. destruct (f x); cbn; lia. Qed.

Lemma startswith_app p s : startswith (p ++ s) p = true.
Proof. induction p as [|c p IH]; [done|]. simpl. by rewrite N.eqb_refl. Qed.

Lemma foldl_insert_not_written (files : list (pystr * pystr))
    (m : gmap pystr pystr) path :
  path ∉ files.*1 →
  foldl (λ m pc, <[pc.1 := pc.2]> m) m files !! path = m !! path.
Proof.
  revert m. induction files as [|pc files IH]; intros m Hnot; [done|].
  cbn in *. apply not_elem_of_cons in Hnot as [Hne Hnot].
  by rewrite IH // lookup_insert_ne.
Qed.

Lemma foldl_insert_last (files : list (pystr * pystr))
    (m : gmap pystr pystr) k path content :
  files !! k = Some (path, content) →
  (∀ j pc, (k < j)%nat → files !! j = Some pc → pc.1 ≠ path) →
  foldl (λ m pc, <[pc.1 := pc.2]> m) m files !! path = Some content.
Proof.
  revert m k. induction files as [|pc files IH]; intros m k Hk Hlater; [done|].
  destruct k as [|k]; cbn in *.
  - injection Hk as ->. rewrite foldl_insert_not_written.
    + by rewrite lookup_insert_eq.
    + intros (pc & Hpc & Hin)%list_elem_of_fmap.
      apply list_elem_of_lookup in Hin as [j Hj].
      by apply (Hlater (S j) pc ltac:(lia) Hj).
  - apply (IH _ k Hk). intros j pc' Hj. apply (Hlater (S j) pc'). lia.
Qed.

Lemma foldl_insert_size (files : list (pystr * pystr)) (m : gmap pystr pystr) :
  (size (foldl (λ m pc, <[pc.1 := pc.2]> m) m files) ≤ size m + length files)%nat.
Proof.
  revert m. induction files as [|pc files IH]; intros m; cbn; [lia|].
  etrans; [apply IH|]. rewrite map_size_insert.
  destruct (m !! pc.1); simpl; lia.
Qed.

Lemma foldl_insert_union (files : list (pystr * pystr)) (m : gmap pystr pystr) :
  foldl (λ m pc, <[pc.1 := pc.2]> m) m files = list_to_map (reverse files) ∪ m.
Proof.
  revert m. induction files as [|pc files IH]; intros m.
  - cbn. by rewrite left_id_L.
  - rewrite reverse_cons list_to_map_app -assoc_L. cbn [foldl]. rewrite IH.
    f_equal. cbn. by rewrite insert_empty -insert_union_singleton_l.
Qed.

Lemma disk_app init w files out :
  disk init (World (writes w ++ files) out)
  = foldl (λ m pc, <[pc.1 := pc.2]> m) (disk init w) files.
Proof. unfold disk. cbn. apply foldl_app. Qed.

(** The files of a run: the k-th saved block under its name. *)
Lemma extract_disk soup w init :
  disk init (extract soup w).2
  = foldl (λ m pc, <[pc.1 := pc.2]> m) (disk init w)
      (imap (λ k bv, (block_fname soup bv.1.1 k, json_dump bv.2)) (saved_blocks soup)).
Proof. unfold disk. rewrite extract_writes. apply foldl_app. Qed.

Lemma written_path_in_out_dir soup path :
  path ∈ (imap (λ k bv, (block_fname soup bv.1.1 k, json_dump bv.2))
            (saved_blocks soup)).*1 →
  startswith path (lit "src/test/resources/strava/") = true.
Proof.
  intros (pc & -> & (k & bv & -> & _)%elem_of_lookup_imap)%list_elem_of_fmap.
  cbn. rewrite block_fname_eq. apply startswith_app.
Qed.

Lemma length_reached_le blocks : (length (reached blocks) ≤ length blocks)%nat.
Proof.
  induction blocks as [|b blocks IH]; cbn; [done|].
  destruct (block_abort b); cbn; lia.
Qed.

Lemma first_abort_None_reached blocks :
  first_abort blocks = None → reached blocks = blocks.
Proof.
  induction blocks as [|b blocks IH]; cbn; [done|].
  destruct (block_abort b); [done|]. intros H. by rewrite IH.
Qed.

(** X1. When [extract] comes to its end, the total it prints in its last
    line, the value of [saved] when the loop ends, is the number of files
    it wrote, one [Saved] line each, and is at most the number of candidate
    blocks; the directory has grown by at most that number of files. *)
Theorem extract_reports_its_writes soup w n w' :
  extract soup w = (inl n, w') →
  ∃ files,
    w' = World (writes w ++ files)
           (stdout w ++ map (λ pc, [0x2713] ++ lit " Saved " ++ pc.1) files
            ++ [[0x2705] ++ lit " Total saved: " ++ str_of_nat n
                ++ lit " example JSON files."])
    ∧ length files = n
    ∧ (n ≤ length (select soup))%nat
    ∧ ∀ init, (size (disk init w') ≤ size (disk init w) + n)%nat.
Proof.
  intros Hrun.
  pose proof (extract_disk soup w) as Hdisk. rewrite Hrun in Hdisk.
  rewrite extract_spec in Hrun.
  destruct (first_abort (select soup)); [done|]. injection Hrun as <- <-.
  exists (imap (λ k bv, (block_fname soup bv.1.1 k, json_dump bv.2))
            (saved_blocks soup)).
  split; [|split; [|split]].
  - do 3 f_equal. change (map ?f ?l) with (f <$> l). by rewrite fmap_imap.
  - apply length_imap.
  - etrans; [apply length_omap_le|]. apply length_reached_le.
  - intros init. cbn [snd] in Hdisk. rewrite Hdisk.
    etrans; [apply foldl_insert_size|]. by rewrite length_imap.
Qed.

(** X3. [extract] writes in the output directory only: a path that does not
    start with [src/test/resources/strava/] holds after the run what it
    held before. *)
Theorem extract_keeps_files_outside_out_dir soup w init path :
  startswith path (lit "src/test/resources/strava/") = false →
  disk init (extract soup w).2 !! path = disk init w !! path.
Proof.
  intros Hout. rewrite extract_disk. apply foldl_insert_not_written.
  intros Hin%written_path_in_out_dir. congruence.
Qed.

(** X4. Running [extract] a second time on the same page leaves the directory
    as the first run left it. *)
Theorem extract_twice_same_directory soup w init :
  disk init (extract soup (extract soup w).2).2 = disk init (extract soup w).2.
Proof.
  rewrite (extract_disk soup (extract soup w).2) (extract_disk soup w).
  rewrite !foldl_insert_union. by rewrite assoc_L (idemp_L (∪)).
Qed.

(** X5. The file of a saved block holds that block's value after the run,
    unless a block saved later goes to the same path. *)
Theorem last_block_saved_to_a_path_stays soup w init k pos e parsed :
  saved_blocks soup !! k = Some (pos, e, parsed) →
  (∀ j pos' e' parsed',
     (k < j)%nat → saved_blocks soup !! j = Some (pos', e', parsed') →
     block_fname soup pos' j ≠ block_fname soup pos k) →
  disk init (extract soup w).2 !! block_fname soup pos k = Some (json_dump parsed).
Proof.
  intros Hk Hlater. rewrite extract_disk.
  apply (foldl_insert_last _ _ k).
  - by rewrite list_lookup_imap Hk.
  - intros j pc Hj. rewrite list_lookup_imap.
    destruct (saved_blocks soup !! j) as [[[pos' e'] parsed']|] eqn:E; [|done].
    intros [= <-]. cbn. by eapply Hlater.
Qed.

(** X6. The file example-<k>.json of the k-th saved block, which has no
    preceding heading, is never replaced by another block without a
    heading: it holds that block's value after the run, unless the heading
    of a block saved later normalizes to example-<k> itself. *)
Theorem fallback_file_survives soup w init k pos e parsed :
  saved_blocks soup !! k = Some (pos, e, parsed) →
  find_previous soup pos = None →
  (∀ j pos' e' parsed' header,
     (k < j)%nat → saved_blocks soup !! j = Some (pos', e', parsed') →
     find_previous soup pos' = Some header →
     clean_name (get_text header) ≠ lit "example-" ++ str_of_nat (k + 1)) →
  disk init (extract soup w).2
    !! (lit "src/test/resources/strava/example-" ++ str_of_nat (k + 1)
        ++ lit ".json")
  = Some (json_dump parsed).
Proof.
  intros Hk Hnone Hlater. rewrite extract_disk.
  assert (block_fname soup pos k
          = lit "src/test/resources/strava/example-" ++ str_of_nat (k + 1)
            ++ lit ".json") as Hname.
  { by rewrite block_fname_eq /block_title Hnone -!app_assoc. }
  rewrite -Hname. apply (foldl_insert_last _ _ k).
  - by rewrite list_lookup_imap Hk.
  - intros j pc Hj. rewrite list_lookup_imap.
    destruct (saved_blocks soup !! j) as [[[pos' e'] parsed']|] eqn:E; [|done].
    intros [= <-]. cbn. rewrite !block_fname_eq.
    intros H%app_inv_head%app_inv_tail.
    unfold block_title in H. rewrite Hnone in H.
    destruct (find_previous soup pos') as [header|] eqn:Eh.
    + by eapply Hlater.
    + apply app_inv_head, str_of_nat_inj in H. lia.
Qed.

(** ** More on [clean_name] *)

Lemma strip_by_nil p s : strip_by p s = [] ↔ Forall (λ c, p c = true) s.
Proof.
  split.
  - unfold strip_by, rstrip_by. intros H.
    apply (f_equal reverse) in H. rewrite reverse_involutive in H.
    apply lstrip_by_nil_Forall, Forall_reverse in H.
    rewrite reverse_involutive in H.
    destruct (lstrip_by p s) as [|c r] eqn:E; [by apply lstrip_by_nil_Forall|].
    apply Forall_cons_1 in H as [Hc _].
    pose proof (lstrip_by_head p s c) as Hh. rewrite E in Hh.
    specialize (Hh eq_refl). congruence.
  - intros H. rewrite -(app_nil_l s). by rewrite strip_by_app_Forall.
Qed.

Lemma re_sub_run_all_hyphens b s :
  Forall (λ c, c = 0x2D) (re_sub_run b s)
  ↔ Forall (λ c, slug_char c = false ∨ c = 0x2D) s.
Proof.
  revert b. induction s as [|c r IH]; intros b; simpl.
  - split; constructor.
  - destruct (slug_char c) eqn:E.
    + rewrite !Forall_cons IH. split; intros [Hc Hr]; (split; [|done]).
      * by right.
      * destruct Hc as [Hc|Hc]; [congruence | done].
    + destruct b; rewrite !Forall_cons IH.
      * split; [intros Hr; split; [by left | done] | by intros [_ Hr]].
      * split; intros [_ Hr]; (split; [|done]); [by left | done].
Qed.

(** X9. The texts that [clean_name] leaves as they are are the slugs: letters
    a-z, digits and hyphens, with no hyphen at either end.  So every slug
    is the name of some text, itself. *)
Theorem clean_name_fixed_points_are_slugs text :
  clean_name text = text ↔ is_slug text.
Proof.
  split; [intros <-; apply clean_name_is_slug | apply clean_name_fixes_slugs].
Qed.

(** X10. [clean_name] returns the empty name, which gives the file [.json],
    exactly for the texts that, trimmed and lower-cased, hold no letter
    a-z and no digit. *)
Theorem clean_name_empty_iff text :
  clean_name text = []
  ↔ Forall (λ c, slug_char c = false ∨ c = 0x2D) (str_lower (py_strip text)).
Proof.
  unfold clean_name, py_strip_chars, re_sub_nonslug.
  rewrite strip_by_nil -re_sub_run_all_hyphens.
  apply Forall_proper; [|done]. intros c. apply hyphen_stripped.
Qed.

(** X11. On ASCII text [clean_name] sees neither case nor white space at the
    ends: two headings that differ only in these go to the same file. *)
Theorem clean_name_ignores_case_and_margins a b wl wr :
  forallb is_ascii a = true → forallb is_ascii b = true →
  map ascii_lower a = map ascii_lower b →
  Forall (λ c, isspace c = true) wl → Forall (λ c, isspace c = true) wr →
  clean_name (wl ++ a ++ wr) = clean_name b.
Proof.
  intros Ha Hb Hab Hwl Hwr. unfold clean_name.
  assert (py_strip (wl ++ a ++ wr) = py_strip a) as ->.
  { unfold py_strip, strip_by. rewrite lstrip_by_app_Forall //.
    apply (strip_by_app_Forall isspace a wr Hwr). }
  rewrite !str_lower_strip_ascii // /str_lower Ha Hb. by rewrite Hab.
Qed.

(** ** [find_previous] *)

Lemma find_reverse_take {A} (P : A → bool) (l : list A) n :
  match find P (reverse (take n l)) with
  | Some x =>
      ∃ i, (i < n)%nat ∧ l !! i = Some x ∧ P x = true
           ∧ ∀ j y, (i < j < n)%nat → l !! j = Some y → P y = false
  | None => ∀ j y, (j < n)%nat → l !! j = Some y → P y = false
  end.
Proof.
  induction n as [|n IH].
  - rewrite take_0. cbn. intros j y Hj. lia.
  - destruct (l !! n) as [x|] eqn:E.
    + rewrite (take_S_r _ _ _ E) reverse_snoc. cbn.
      destruct (P x) eqn:Px.
      * exists n. repeat split; [lia|done..|]. intros j y Hj. lia.
      * destruct (find P (reverse (take n l))) as [h|].
        -- destruct IH as (i & Hi & Hl & Hp & Hbetween).
           exists i. repeat split; [lia|done..|].
           intros j y Hj Hy. destruct (decide (j = n)) as [->|Hne].
           ++ congruence.
           ++ apply (Hbetween j y); [lia | done].
        -- intros j y Hj Hy. destruct (decide (j = n)) as [->|Hne].
           ++ congruence.
           ++ apply (IH j y); [lia | done].
    + apply lookup_ge_None in E.
      rewrite take_ge in IH; [|lia]. rewrite take_ge; [|lia].
      destruct (find P (reverse l)) as [h|].
      * destruct IH as (i & Hi & Hl & Hp & Hbetween).
        exists i. repeat split; [lia|done..|].
        intros j y Hj Hy. pose proof (lookup_lt_Some _ _ _ Hy).
        apply (Hbetween j y); [lia | done].
      * intros j y Hj Hy. pose proof (lookup_lt_Some _ _ _ Hy).
        apply (IH j y); [lia | done].
Qed.

(** X12. A saved block that has an h2 or h3 element before it is written to
    the file named after the nearest one: the heading that precedes the
    block in document order with no other h2 or h3 element in between,
    whether or not that heading encloses the block or belongs to the same
    section of the page. *)
Theorem saved_block_is_named_after_nearest_heading soup w k pos e parsed i header :
  saved_blocks soup !! k = Some (pos, e, parsed) →
  (i < pos)%nat → descendants soup !! i = Some header →
  is_heading header = true →
  (∀ j e', (i < j < pos)%nat → descendants soup !! j = Some e' →
           is_heading e' = false) →
  writes (extract soup w).2 !! (length (writes w) + k)%nat
  = Some (lit "src/test/resources/strava/" ++ clean_name (get_text header)
            ++ lit ".json",
          json_dump parsed).
Proof.
  intros Hk Hi Hheader Hh Hbetween.
  assert (find_previous soup pos = Some header) as Hprev.
  { pose proof (find_reverse_take is_heading (descendants soup) pos) as Hfind.
    unfold find_previous.
    destruct (find is_heading (reverse (take pos (descendants soup)))) as [x|].
    - destruct Hfind as (i' & Hi' & Hx & Hhx & Hbetween').
      destruct (decide (i' = i)) as [->|Hne]; [congruence|].
      destruct (decide (i' < i)%nat).
      + rewrite (Hbetween' i header) in Hh; [done|lia|done].
      + rewrite (Hbetween i' x) in Hhx; [done|lia|done].
    - by rewrite (Hfind i header) in Hh. }
  rewrite extract_writes lookup_app_r; [|lia].
  replace (length (writes w) + k - length (writes w))%nat with k by lia.
  rewrite list_lookup_imap Hk. cbn.
  by rewrite block_fname_eq /block_title Hprev.
Qed.

(** ** What [json.dump] writes is ASCII *)

Lemma hexdigit_ascii d : d < 16 → is_ascii (hexdigit d) = true.
Proof. unfold hexdigit, is_ascii. intros Hd. destruct (d <? 10); lia. Qed.

Lemma u_escape_ascii n :
  n < 0x10000 → Forall (λ c, is_ascii c = true) (u_escape n).
Proof.
  intros Hn. unfold u_escape, format_04x.
  repeat constructor; try done; apply hexdigit_ascii; lia_div.
Qed.

Lemma surrogate_escape_bound base y :
  base < 64 → N.lor (base * 2 ^ 10) (N.land y 0x3FF) < 0x10000.
Proof.
  intros Hb. rewrite land_0x3FF lor_mul_pow2; change (2 ^ 10) with 1024; lia_div.
Qed.

Lemma escape_char_ascii c : Forall (λ c, is_ascii c = true) (escape_char c).
Proof.
  unfold escape_char.
  do 7 (match goal with |- context [if ?b then _ else _] => destruct b end;
        [by repeat constructor|]).
  destruct ((0x20 <=? c) && (c <=? 0x7E)) eqn:E1.
  { repeat constructor. unfold is_ascii. lia. }
  destruct (c <? 0x10000) eqn:E2; [apply u_escape_ascii; lia|].
  cbv zeta. apply Forall_app. split; apply u_escape_ascii.
  - apply (surrogate_escape_bound 54). lia.
  - apply (surrogate_escape_bound 55). lia.
Qed.

Lemma encode_basestring_ascii_ascii s :
  Forall (λ c, is_ascii c = true) (encode_basestring_ascii s).
Proof.
  unfold encode_basestring_ascii. constructor; [done|].
  apply Forall_app. split; [|by repeat constructor].
  induction s as [|c s IH]; [constructor|]. cbn.
  apply Forall_app. split; [apply escape_char_ascii | exact IH].
Qed.

Lemma is_digit_ascii c : is_digit c = true → is_ascii c = true.
Proof. unfold is_digit, is_ascii. lia. Qed.

Lemma int_repr_ascii z : Forall (λ c, is_ascii c = true) (int_repr z).
Proof.
  unfold int_repr. destruct (z <? 0)%Z; [constructor; [done|]|];
    (eapply Forall_impl; [apply uint_chars_digits | apply is_digit_ascii]).
Qed.

Lemma newline_indent_ascii level :
  Forall (λ c, is_ascii c = true) (newline_indent level).
Proof. constructor; [done|]. by apply Forall_replicate. Qed.

Lemma join_ascii sep chunks :
  Forall (λ c, is_ascii c = true) sep →
  Forall (Forall (λ c, is_ascii c = true)) chunks →
  Forall (λ c, is_ascii c = true) (join sep chunks).
Proof.
  intros Hsep Hchunks. destruct Hchunks as [|x chunks Hx Hchunks]; [constructor|].
  cbn. apply Forall_app. split; [done|].
  induction Hchunks as [|y chunks Hy _ IH]; [constructor|]. cbn.
  rewrite !Forall_app. by repeat split.
Qed.

Lemma iterencode_ascii o :
  (∀ f, Forall (λ c, is_ascii c = true) (float_repr f)) →
  ∀ level, Forall (λ c, is_ascii c = true) (iterencode level o).
Proof.
  intros Hfloat. induction o as [|[]|z|f|s|items IH|items IH] using pyobj_ind;
    intros level; try (by apply forallb_Forall).
  - apply int_repr_ascii.
  - destruct f as [| [] | |]; try (by apply forallb_Forall); apply Hfloat.
  - apply encode_basestring_ascii_ascii.
  - destruct items as [|v vs]; [by apply forallb_Forall|].
    rewrite iterencode_list. remember (join _ _) as j eqn:Ej. constructor; [done|].
    rewrite !Forall_app. subst j. repeat split;
      [apply newline_indent_ascii| |apply newline_indent_ascii|by repeat constructor].
    apply join_ascii; [constructor; [done | apply newline_indent_ascii]|].
    apply Forall_fmap. eapply Forall_impl; [exact IH|]. intros x Hx. apply Hx.
  - destruct items as [|kv kvs]; [by apply forallb_Forall|].
    rewrite iterencode_dict. remember (join _ _) as j eqn:Ej. constructor; [done|].
    rewrite !Forall_app. subst j. repeat split;
      [apply newline_indent_ascii| |apply newline_indent_ascii|by repeat constructor].
    apply join_ascii; [constructor; [done | apply newline_indent_ascii]|].
    apply Forall_fmap. eapply Forall_impl; [exact IH|]. intros x Hx.
    change (Forall (λ c, is_ascii c = true)
              (encode_basestring_ascii x.1 ++ lit ": " ++ iterencode (S level) x.2)).
    apply Forall_app. split; [apply encode_basestring_ascii_ascii|].
    apply Forall_app. split; [by apply forallb_Forall | apply Hx].
Qed.

Lemma is_slug_ascii s : is_slug s → Forall (λ c, is_ascii c = true) s.
Proof.
  intros [Hs _]. eapply Forall_impl; [exact Hs | apply slug_char_ascii].
Qed.

(** X7. Whatever characters the page holds, every path [extract] writes to and
    every file it writes is pure ASCII, so that writing the file with the
    utf-8 encoding cannot fail on a character: [json.dump] escapes all
    that is not ASCII, lone surrogates included.  [repr] of a float is
    ASCII. *)
Theorem extract_writes_ascii soup w path content :
  (∀ f, Forall (λ c, is_ascii c = true) (float_repr f)) →
  (path, content) ∈ drop (length (writes w)) (writes (extract soup w).2) →
  Forall (λ c, is_ascii c = true) path ∧ Forall (λ c, is_ascii c = true) content.
Proof.
  intros Hfloat. rewrite extract_writes drop_app_length.
  intros (k & bv & [= -> ->] & _)%elem_of_lookup_imap. split.
  - rewrite block_fname_eq !Forall_app. repeat split; [by apply forallb_Forall| |].
    + apply is_slug_ascii, block_title_is_slug.
    + by apply forallb_Forall.
  - by apply iterencode_ascii.
Qed.

(** ** Where the files of a run come from *)

Lemma elem_of_select soup pos e :
  (pos, e) ∈ select soup
  ↔ descendants soup !! pos = Some e ∧ matches_selectors e = true.
Proof.
  unfold select. rewrite list_elem_of_filter elem_of_lookup_imap. cbn. split.
  - intros (Hm & i & y & [= -> ->] & Hi). done.
  - intros [Hl Hm]. split; [done|]. by exists pos, e.
Qed.

Lemma elem_of_saved_blocks soup pos e parsed :
  (pos, e, parsed) ∈ saved_blocks soup →
  descendants soup !! pos = Some e ∧ matches_selectors e = true
  ∧ parsed_block (pos, e) = Some parsed.
Proof.
  unfold saved_blocks. rewrite list_elem_of_omap.
  intros ([pos' e'] & Hsel%reached_elem_of & Hpb).
  apply fmap_Some in Hpb as (parsed' & Hpb & [= -> -> ->]).
  apply elem_of_select in Hsel as [? ?]. done.
Qed.

(** X2. The files of a run hold JSON blocks of the page and nothing else:
    whatever is written is the serialization of the value of a [pre],
    [code] or [div.hljs] element whose trimmed text starts with a brace or
    a bracket and parses; and a run that comes to its end has written
    every such block. *)
Theorem written_contents_are_the_json_blocks soup w :
  (∀ content,
     content ∈ (drop (length (writes w)) (writes (extract soup w).2)).*2 →
     ∃ pos e parsed,
       descendants soup !! pos = Some e ∧ matches_selectors e = true
       ∧ startswith (py_strip (get_text e)) (lit "{")
         || startswith (py_strip (get_text e)) (lit "[") = true
       ∧ json_loads (py_strip (get_text e)) = Some parsed
       ∧ content = json_dump parsed)
  ∧ (∀ n w' pos e parsed,
       extract soup w = (inl n, w') →
       descendants soup !! pos = Some e → matches_selectors e = true →
       startswith (py_strip (get_text e)) (lit "{")
       || startswith (py_strip (get_text e)) (lit "[") = true →
       json_loads (py_strip (get_text e)) = Some parsed →
       json_dump parsed ∈ (drop (length (writes w)) (writes w')).*2).
Proof.
  split.
  - intros content. rewrite extract_writes drop_app_length fmap_imap.
    intros (k & Hk)%list_elem_of_lookup. rewrite list_lookup_imap in Hk.
    destruct (saved_blocks soup !! k) as [[[pos e] parsed]|] eqn:E; [|done].
    injection Hk as <-. apply list_elem_of_lookup_2 in E.
    apply elem_of_saved_blocks in E as (Hl & Hm & Hpb).
    exists pos, e, parsed. unfold parsed_block in Hpb. cbn [snd] in Hpb.
    by destruct (startswith _ _ || startswith _ _).
  - intros n w' pos e parsed Hrun Hl Hm Hs Hp.
    pose proof (extract_writes soup w) as Hw. rewrite Hrun in Hw. cbn [snd] in Hw.
    rewrite Hw drop_app_length fmap_imap.
    rewrite extract_spec in Hrun.
    destruct (first_abort (select soup)) eqn:Ea; [done|].
    assert ((pos, e, parsed) ∈ saved_blocks soup) as Hin.
    { unfold saved_blocks. rewrite (first_abort_None_reached _ Ea).
      apply list_elem_of_omap. exists (pos, e).
      split; [by apply elem_of_select|].
      unfold parsed_block. cbn [snd]. by rewrite Hs Hp. }
    apply list_elem_of_lookup in Hin as [k Hk].
    apply list_elem_of_lookup. exists k. by rewrite list_lookup_imap Hk.
Qed.

End Script.

(** * Examples

    The theorems above at the sample pages, with the sample case mapping,
    float conversions and parser, a recursion limit of a thousand levels
    and the limit of 4300 digits. *)

Local Abbreviation ul := sample_unicode_lower.
Local Abbreviation fol := sample_float_of_literal.
Local Abbreviation frepr := sample_float_repr.
Local Abbreviation lim := sample_recursion_limit.
Local Abbreviation dig := sample_int_max_str_digits.

Lemma sample_floats_roundtrip text : float_roundtrips fol frepr (fol text).
Proof. by vm_compute. Qed.

(** C1 on [page_without_headings]: the third block is the second one
    saved, and goes to example-2.json. *)
Lemma fallback_name_counts_saves_witness :
  saved_blocks fol lim dig page_without_headings !! 1%nat
  = Some (4%nat, pre (lit "{" ++ dq (lit "a") ++ lit ":1}"),
          PyDict [(lit "a", PyInt 1)])
  ∧ writes (extract ul fol frepr lim dig page_without_headings empty_world).2 !! 1%nat
    = Some (lit "src/test/resources/strava/example-2.json",
            lit "{" ++ [0x0A] ++ lit "  " ++ dq (lit "a") ++ lit ": 1" ++ [0x0A]
            ++ lit "}").
Proof.
  split; [by vm_compute|].
  pose proof (fallback_name_counts_saves ul fol frepr lim dig page_without_headings
                empty_world 1 4 (pre (lit "{" ++ dq (lit "a") ++ lit ":1}"))
                (PyDict [(lit "a", PyInt 1)])
                ltac:(by vm_compute) ltac:(by vm_compute)) as [H _].
  rewrite H. by vm_compute.
Defined.

(** C2 on [page_without_headings]: the second block is not JSON-like. *)
Lemma non_json_like_block_writes_nothing_witness :
  extract_block ul fol frepr lim dig page_without_headings 1
    (2%nat, pre (lit "not json at all")) empty_world
  = (inl 1%nat, empty_world).
Proof.
  apply (non_json_like_block_writes_nothing ul fol frepr lim dig page_without_headings 1
           (2%nat, pre (lit "not json at all")) empty_world);
    vm_compute; reflexivity.
Defined.

(** C3 on [page_with_headings]: the block that starts with a brace and does
    not parse is skipped, and the loop goes on with the empty array after
    it. *)
Lemma malformed_json_block_is_skipped_witness :
  loads fol lim dig (lit "{oops") empty_world = (inr JSONDecodeError, empty_world)
  ∧ extract_block ul fol frepr lim dig page_with_headings 1
      (4%nat, pre (lit "{oops")) empty_world
    = (inl 1%nat, empty_world)
  ∧ extract_blocks ul fol frepr lim dig page_with_headings 1
      [(4%nat, pre (lit "{oops")); (8%nat, pre (lit "[]"))] empty_world
    = extract_blocks ul fol frepr lim dig page_with_headings 1
        [(8%nat, pre (lit "[]"))] empty_world.
Proof.
  apply (malformed_json_block_is_skipped ul fol frepr lim dig page_with_headings 1
           (4%nat, pre (lit "{oops")) [(8%nat, pre (lit "[]"))] empty_world);
    vm_compute; reflexivity.
Defined.

(** C3 as first stated fails on a block of twelve hundred opening
    brackets: the text is not JSON, [json.loads] raises [RecursionError]
    at the thousand-and-first, which the loop does not catch, and the run
    ends there, before the array that follows is written. *)
Lemma deep_nesting_ends_the_run :
  startswith (py_strip (get_text (pre brackets_text))) (lit "[") = true
  ∧ json_loads fol lim dig (py_strip (get_text (pre brackets_text))) = None
  ∧ loads fol lim dig (py_strip (get_text (pre brackets_text))) empty_world
    = (inr RecursionError, empty_world)
  ∧ extract ul fol frepr lim dig page_brackets empty_world
    = (inr RecursionError, empty_world).
Proof. vm_compute. repeat split. Qed.

(** C4 on [page_with_headings]: the "Get Activity" block is written once
    and its file reads back as the same object. *)
Lemma parsed_block_is_written_once_and_reparses_witness :
  writes (extract_block ul fol frepr lim dig page_with_headings 0
            (2%nat, pre get_activity_text) empty_world).2
  = [(lit "src/test/resources/strava/get-activity.json", get_activity_content)]
  ∧ json_loads fol lim dig get_activity_content
    = Some (PyDict [(lit "id", PyInt 1); (lit "name", PyStr (lit "ride"))]).
Proof.
  destruct (parsed_block_is_written_once_and_reparses ul fol frepr lim dig
              page_with_headings 0 (2%nat, pre get_activity_text)
              (PyDict [(lit "id", PyInt 1); (lit "name", PyStr (lit "ride"))])
              empty_world
              ltac:(vm_compute; reflexivity)
              ltac:(vm_compute; reflexivity))
    as [Hrun Hback].
  split.
  - rewrite Hrun. vm_compute. reflexivity.
  - rewrite -Hback.
    + vm_compute. reflexivity.
    + apply sample_floats_roundtrip.
    + apply forallb_Forall. vm_compute. reflexivity.
    + vm_compute. reflexivity.
Defined.

(** C4 as first stated fails twice.  The text 42 parses, and the block is
    passed over unwritten because it starts with neither a brace nor a
    bracket.  The array of [surrogates_text] parses to a string of two
    characters, the file written for it reads back as a string of one
    character, U+1F600. *)
Lemma parsed_block_unwritten_or_changed :
  (json_loads fol lim dig (py_strip (get_text (pre (lit "42")))) = Some (PyInt 42)
   ∧ extract_block ul fol frepr lim dig page_number 0 (0%nat, pre (lit "42")) empty_world
     = (inl 0%nat, empty_world)
   ∧ extract ul fol frepr lim dig page_number empty_world
     = (inl 0%nat,
        World [] [[0x2705] ++ lit " Total saved: 0 example JSON files."]))
  ∧ (json_loads fol lim dig (py_strip (get_text (pre surrogates_text)))
     = Some (PyList [PyStr [0xD83D; 0xDE00]])
     ∧ writes (extract ul fol frepr lim dig page_surrogates empty_world).2
       = [(lit "src/test/resources/strava/example-1.json", surrogates_content)]
     ∧ json_loads fol lim dig surrogates_content = Some (PyList [PyStr [0x1F600]])).
Proof. vm_compute. repeat split. Qed.

(** C6 on [page_with_headings]: the first file is named after its heading,
    and the name of a heading with capitals, punctuation and blanks around
    it is the one the three steps of the specification give. *)
Lemma output_names_are_slugs_witness :
  (∃ base,
     lit "src/test/resources/strava/get-activity.json"
     = lit "src/test/resources/strava/" ++ base ++ lit ".json"
     ∧ is_slug base
     ∧ ((∃ header, base = clean_name ul (get_text header))
        ∨ ∃ n, base = lit "example-" ++ str_of_nat n))
  ∧ normalized_as_specified ul (lit "  Get Activity (v3)! ") (lit "get-activity-v3")
  ∧ ascii_lowered (lit "Get Activity") (lit "get activity").
Proof.
  destruct (output_names_are_slugs ul fol frepr lim dig page_with_headings
              empty_world)
    as (Hnames & _ & _ & _ & Hspec & Hascii).
  split; [|split].
  - apply (Hnames _ get_activity_content). vm_compute. apply list_elem_of_here.
  - apply Hspec; vm_compute; reflexivity.
  - destruct (Hascii (lit "Get Activity") ltac:(vm_compute; reflexivity))
      as [_ Hlow].
    exact Hlow.
Defined.

(** C7 on [page_with_headings]. *)
Lemma get_activity_scenario_witness :
  extract_block ul fol frepr lim dig page_with_headings 0
    (2%nat, pre get_activity_text) empty_world
  = (inl 1%nat,
     World
       [(lit "src/test/resources/strava/get-activity.json", get_activity_content)]
       [[0x2713] ++ lit " Saved src/test/resources/strava/get-activity.json"]).
Proof.
  apply (get_activity_scenario ul fol frepr lim dig page_with_headings 0 2
           (pre get_activity_text) (h2 (lit "Get Activity")) empty_world);
    vm_compute; reflexivity.
Defined.

(** C8 on [page_with_headings]: the heading of question marks has an empty
    slug, and the empty array below it goes to [.json]. *)
Lemma empty_slug_names_dot_json_witness :
  clean_name ul (lit "???") = []
  ∧ writes (extract_block ul fol frepr lim dig page_with_headings 1
              (8%nat, pre (lit "[]")) empty_world).2
    = [(lit "src/test/resources/strava/.json", lit "[]")].
Proof.
  split; [vm_compute; reflexivity|].
  destruct (empty_slug_names_dot_json ul fol frepr lim dig page_with_headings 1 8
              (pre (lit "[]")) (h2 (lit "???")) (PyList []) empty_world
              ltac:(vm_compute; reflexivity) ltac:(vm_compute; reflexivity)
              ltac:(vm_compute; reflexivity))
    as [_ Hrun].
  rewrite Hrun. vm_compute. reflexivity.
Defined.

(** C9 for a 404 response. *)
Lemma fetch_error_is_fatal_witness :
  ∃ e, main ul fol frepr lim dig (sample_BeautifulSoup page_with_headings)
         (Response 404 []) empty_world
       = (inr e, empty_world)
       ∧ (e = RequestException ∨ ∃ status_code, e = HTTPError status_code).
Proof.
  apply (fetch_error_is_fatal ul fol frepr lim dig
           (sample_BeautifulSoup page_with_headings) (Response 404 []) empty_world).
  right. exists 404, []. split; [reflexivity | lia].
Defined.

(** C9 as first stated fails for a 300 response: [raise_for_status] lets
    it through, the page is extracted from and two files are written. *)
Lemma redirect_status_is_not_fatal :
  (main ul fol frepr lim dig (sample_BeautifulSoup page_without_headings)
     (Response 300 []) empty_world).1 = inl ()
  ∧ (writes (main ul fol frepr lim dig (sample_BeautifulSoup page_without_headings)
               (Response 300 []) empty_world).2).*1
    = [lit "src/test/resources/strava/example-1.json";
       lit "src/test/resources/strava/example-2.json"].
Proof. vm_compute. split; reflexivity. Qed.

(** C10 on [page_pre_code_under_heading]: both the [pre] and the [code] go
    to get-activity.json. *)
Lemma pre_code_is_saved_twice_witness :
  extract_blocks ul fol frepr lim dig page_pre_code_under_heading 0
    [(2%nat, pre_code get_activity_text);
     (3%nat, Tag (lit "code") [] [NavigableString get_activity_text])]
    empty_world
  = (inl 2%nat,
     World
       [(lit "src/test/resources/strava/get-activity.json", get_activity_content);
        (lit "src/test/resources/strava/get-activity.json", get_activity_content)]
       [[0x2713] ++ lit " Saved src/test/resources/strava/get-activity.json";
        [0x2713] ++ lit " Saved src/test/resources/strava/get-activity.json"]).
Proof.
  destruct (pre_code_is_saved_twice ul fol frepr lim dig page_pre_code_under_heading 2
              [] [] [NavigableString get_activity_text]
              (PyDict [(lit "id", PyInt 1); (lit "name", PyStr (lit "ride"))])
              0 empty_world
              ltac:(vm_compute; reflexivity) ltac:(vm_compute; reflexivity))
    as (_ & (name1 & name2 & Hrun & Hnames) & _).
  change (pre_code get_activity_text)
    with (Tag (lit "pre") [] [Tag (lit "code") [] [NavigableString get_activity_text]]).
  rewrite Hrun.
  change (find_previous page_pre_code_under_heading 2)
    with (Some (h2 (lit "Get Activity"))) in Hnames.
  destruct Hnames as (-> & -> & _). vm_compute. reflexivity.
Defined.

(** C10 as first stated fails with no heading before the block: the two
    saves go to example-1.json and example-2.json, and the two files
    reported are two files in the directory. *)
Lemma pre_code_without_heading_two_files :
  extract ul fol frepr lim dig page_pre_code_without_heading empty_world
  = (inl 2%nat,
     World
       [(lit "src/test/resources/strava/example-1.json",
         lit "[" ++ [0x0A] ++ lit "  1" ++ [0x0A] ++ lit "]");
        (lit "src/test/resources/strava/example-2.json",
         lit "[" ++ [0x0A] ++ lit "  1" ++ [0x0A] ++ lit "]")]
       [[0x2713] ++ lit " Saved src/test/resources/strava/example-1.json";
        [0x2713] ++ lit " Saved src/test/resources/strava/example-2.json";
        [0x2705] ++ lit " Total saved: 2 example JSON files."])
  ∧ size (disk ∅ (extract ul fol frepr lim dig page_pre_code_without_heading
                    empty_world).2) = 2%nat.
Proof. split; by vm_compute. Qed.

(** X3 on [page_with_headings]: a file of the project root is left
    alone. *)
Lemma extract_keeps_files_outside_out_dir_witness :
  disk {[lit "build.sbt" := lit "scalaVersion"]}
    (extract ul fol frepr lim dig page_with_headings empty_world).2 !! lit "build.sbt"
  = disk {[lit "build.sbt" := lit "scalaVersion"]} empty_world !! lit "build.sbt".
Proof.
  apply (extract_keeps_files_outside_out_dir ul fol frepr lim dig page_with_headings
           empty_world {[lit "build.sbt" := lit "scalaVersion"]} (lit "build.sbt")).
  vm_compute. reflexivity.
Defined.

(** X5 on [page_with_headings]: the "Get Activity" block is the only one
    saved to its path. *)
Lemma last_block_saved_to_a_path_stays_witness :
  disk ∅ (extract ul fol frepr lim dig page_with_headings empty_world).2
    !! block_fname ul page_with_headings 2 0
  = Some (json_dump frepr
            (PyDict [(lit "id", PyInt 1); (lit "name", PyStr (lit "ride"))])).
Proof.
  apply (last_block_saved_to_a_path_stays ul fol frepr lim dig page_with_headings
           empty_world ∅ 0 2 (pre get_activity_text)
           (PyDict [(lit "id", PyInt 1); (lit "name", PyStr (lit "ride"))])).
  - vm_compute. reflexivity.
  - intros [|[|j]] pos' e' parsed' Hj Hl.
    + lia.
    + vm_compute in Hl. injection Hl as <- <- <-.
      vm_compute. intros H. discriminate H.
    + vm_compute in Hl. discriminate Hl.
Defined.

(** X6 on [page_without_headings]: the first block keeps example-1.json. *)
Lemma fallback_file_survives_witness :
  disk ∅ (extract ul fol frepr lim dig page_without_headings empty_world).2
    !! (lit "src/test/resources/strava/example-" ++ str_of_nat (0 + 1)
        ++ lit ".json")
  = Some (json_dump frepr (PyList [PyInt 1; PyInt 2; PyInt 3])).
Proof.
  apply (fallback_file_survives ul fol frepr lim dig page_without_headings
           empty_world ∅ 0 0 (pre (lit "[1,2,3]"))
           (PyList [PyInt 1; PyInt 2; PyInt 3])).
  - vm_compute. reflexivity.
  - vm_compute. reflexivity.
  - intros [|[|j]] pos' e' parsed' header Hj Hl Hprev.
    + lia.
    + vm_compute in Hl. injection Hl as <- <- <-.
      vm_compute in Hprev. discriminate Hprev.
    + vm_compute in Hl. discriminate Hl.
Defined.

(** X7 on [page_with_headings]. *)
Lemma extract_writes_ascii_witness :
  Forall (λ c, is_ascii c = true)
    (lit "src/test/resources/strava/get-activity.json")
  ∧ Forall (λ c, is_ascii c = true) get_activity_content.
Proof.
  apply (extract_writes_ascii ul fol frepr lim dig page_with_headings empty_world).
  - intros f. apply forallb_Forall. vm_compute. reflexivity.
  - vm_compute. apply list_elem_of_here.
Defined.

(** X8 on [page_with_headings]. *)
Lemma written_blocks_reparse_witness :
  ∃ parsed,
    get_activity_content = json_dump frepr parsed
    ∧ (no_surrogate_pairs parsed = true →
       json_loads fol lim dig get_activity_content = Some parsed).
Proof.
  apply (written_blocks_reparse ul fol frepr lim dig page_with_headings empty_world
           (lit "src/test/resources/strava/get-activity.json")).
  - apply sample_floats_roundtrip.
  - eapply Forall_impl.
    + apply (proj1 (forallb_Forall
                      (λ e, forallb (λ c, is_codepoint c) (get_text e)) _)).
      vm_compute. reflexivity.
    + intros e He. by apply forallb_Forall.
  - vm_compute. apply list_elem_of_here.
Defined.

(** X11: a heading in capitals, and the same heading with blanks and a
    line end around it. *)
Lemma clean_name_ignores_case_and_margins_witness :
  clean_name ul (lit "  " ++ lit "Get Activity" ++ [0x0A])
  = clean_name ul (lit "GET ACTIVITY").
Proof.
  apply (clean_name_ignores_case_and_margins ul (lit "Get Activity")
           (lit "GET ACTIVITY") (lit "  ") [0x0A]).
  - vm_compute. reflexivity.
  - vm_compute. reflexivity.
  - vm_compute. reflexivity.
  - apply forallb_Forall. vm_compute. reflexivity.
  - apply forallb_Forall. vm_compute. reflexivity.
Defined.

(** X1 on [page_with_headings]: two files, two lines and the total. *)
Lemma extract_reports_its_writes_witness :
  ∃ files,
    (extract ul fol frepr lim dig page_with_headings empty_world).2
    = World (writes empty_world ++ files)
        (stdout empty_world
         ++ map (λ pc, [0x2713] ++ lit " Saved " ++ pc.1) files
         ++ [[0x2705] ++ lit " Total saved: " ++ str_of_nat 2
             ++ lit " example JSON files."])
    ∧ length files = 2%nat
    ∧ (2 ≤ length (select page_with_headings))%nat
    ∧ ∀ init,
        (size (disk init (extract ul fol frepr lim dig page_with_headings
                            empty_world).2)
         ≤ size (disk init empty_world) + 2)%nat.
Proof.
  apply (extract_reports_its_writes ul fol frepr lim dig page_with_headings
           empty_world 2).
  vm_compute. reflexivity.
Defined.

(** X2 on [page_with_headings]: the file of the "Get Activity" block comes
    from that block, and the run, which comes to its end, has written the
    empty array of the last block. *)
Lemma written_contents_are_the_json_blocks_witness :
  (∃ pos e parsed,
     descendants page_with_headings !! pos = Some e
     ∧ matches_selectors e = true
     ∧ startswith (py_strip (get_text e)) (lit "{")
       || startswith (py_strip (get_text e)) (lit "[") = true
     ∧ json_loads fol lim dig (py_strip (get_text e)) = Some parsed
     ∧ get_activity_content = json_dump frepr parsed)
  ∧ json_dump frepr (PyList [])
    ∈ (drop (length (writes empty_world))
         (writes (extract ul fol frepr lim dig page_with_headings
                    empty_world).2)).*2.
Proof.
  destruct (written_contents_are_the_json_blocks ul fol frepr lim dig
              page_with_headings empty_world) as [Hfrom Hall].
  split.
  - apply Hfrom. vm_compute. apply list_elem_of_here.
  - apply (Hall 2%nat _ 8%nat (pre (lit "[]")) (PyList []));
      vm_compute; reflexivity.
Defined.

(** X12 on [page_with_headings]: the first saved block stands two places
    after the heading "Get Activity". *)
Lemma saved_block_is_named_after_nearest_heading_witness :
  writes (extract ul fol frepr lim dig page_with_headings empty_world).2
    !! (length (writes empty_world) + 0)%nat
  = Some (lit "src/test/resources/strava/"
            ++ clean_name ul (get_text (h2 (lit "Get Activity"))) ++ lit ".json",
          json_dump frepr
            (PyDict [(lit "id", PyInt 1); (lit "name", PyStr (lit "ride"))])).
Proof.
  apply (saved_block_is_named_after_nearest_heading ul fol frepr lim dig
           page_with_headings empty_world 0 2 (pre get_activity_text)
           (PyDict [(lit "id", PyInt 1); (lit "name", PyStr (lit "ride"))])
           0 (h2 (lit "Get Activity"))).
  - vm_compute. reflexivity.
  - lia.
  - vm_compute. reflexivity.
  - vm_compute. reflexivity.
  - intros j e' Hj Hl. assert (j = 1%nat) as -> by lia.
    vm_compute in Hl. injection Hl as <-. reflexivity.
Defined.
